(** * The linac accelerator lattice (LinacAccLattice.py)

    A shallow embedding of the lattice classes, the RF-cavity phase model
    and the lattice factory of [Linac/Input_File_Parsing/LinacAccLattice.py],
    followed by the properties proved about them.

    Conventions of the embedding.
    - Python floats are exact rationals ([Q]); derived equalities are
      stated with [==].  [math.pi] is the rational the double stands for.
    - A Python exception is a value of [Py.exn]; code that mutates objects
      runs in the state-and-exception monad [Py.M], so the state reached
      when an exception is raised stays observable.
    - A parameter bag ([ParamsDictObject]) is a [gmap string pyval]; a
      missing key raises [KeyError], as the dict lookup does.
    - Objects compared by identity carry an object id ([oid]); a reference
      to an RF cavity or to a bunch is its index in the store.
    - The transport kernel ([TPB]), the bunch and [math.cos] are external:
      they are the fields of the class [TransportKernel].
    - A [while] loop runs on a bound; [OutOfFuel] is not a Python
      exception but the mark that the bound was reached, and the bound
      the model gives is shown to be enough. *)

From Stdlib Require Import ZArith QArith Qabs Lqa Ascii String List.
From Stdlib Require PrimFloat FloatOps SpecFloat.
From stdpp Require Import base option list gmap strings.

Set Warnings "-register-all".

(** ** Python values, exceptions and the monad of mutating code *)

Module Py.

Inductive exn : Type :=
| AttributeError (attr : string)
| UnboundLocalError (var : string)
| KeyError (key : string)
| IndexError
| ValueError
| TypeError
| ZeroDivisionError
| OverflowError
| OrbitFinalize (msg : string)
| OutOfFuel.

Inductive result (A : Type) : Type :=
| Ok (a : A)
| Raise (e : exn).

Arguments Ok {A} a.
Arguments Raise {A} e.

Definition is_Ok {A} (r : result A) : Prop :=
  match r with Ok _ => True | Raise _ => False end.

Definition M (S A : Type) : Type := S -> result A * S.

#[export] Instance M_ret {S} : MRet (M S) := fun A a s => (Ok a, s).

#[export] Instance M_bind {S} : MBind (M S) := fun A B f m s =>
  match m s with
  | (Ok a, s') => f a s'
  | (Raise e, s') => (Raise e, s')
  end.

Definition raise {S A} (e : exn) : M S A := fun s => (Raise e, s).
Definition get {S} : M S S := fun s => (Ok s, s).
Definition put {S} (s : S) : M S unit := fun _ => (Ok tt, s).
Definition lift {S A} (r : result A) : M S A := fun s => (r, s).

(** [orbitFinalize(msg)] prints the message and stops the program. *)
Definition orbitFinalize {S A} (msg : string) : M S A := raise (OrbitFinalize msg).

(** The values a parameter bag holds. [PyCavity c] is a reference to the
    RF cavity object number [c]. *)
Inductive pyval : Type :=
| PyNone
| PyBool (b : bool)
| PyFloat (x : Q)
| PyStr (s : string)
| PyList (l : list Q)
| PyCavity (c : nat).

(** A value used as a number: a bool counts as 0 or 1, anything else
    that is not a number raises [TypeError]. *)
Definition as_float (v : pyval) : result Q :=
  match v with
  | PyFloat x => Ok x
  | PyBool b => Ok (if b then 1%Q else 0%Q)
  | _ => Raise TypeError
  end.

(** The characters [float] skips at both ends of a string: space, tab,
    line feed, vertical tab, form feed and carriage return. *)
Definition is_space (c : ascii) : bool :=
  let n := nat_of_ascii c in
  (n =? 32)%nat || ((9 <=? n)%nat && (n <=? 13)%nat).

Definition digit_of (c : ascii) : option Z :=
  let n := Z.of_nat (nat_of_ascii c) in
  if (48 <=? n)%Z && (n <=? 57)%Z then Some (n - 48)%Z else None.

(** The digits at the head of [l]: their value after [value], how many
    they are after [count], and what follows them. *)
Fixpoint digits (value : Z) (count : nat) (l : list ascii) : Z * nat * list ascii :=
  match l with
  | [] => (value, count, [])
  | c :: rest =>
      match digit_of c with
      | Some d => digits (10 * value + d)%Z (S count) rest
      | None => (value, count, l)
      end
  end.

(** A sign at the head of [l]: whether it is a minus, and what follows. *)
Definition sign (l : list ascii) : bool * list ascii :=
  match l with
  | "-"%char :: rest => (true, rest)
  | "+"%char :: rest => (false, rest)
  | _ => (false, l)
  end.

Fixpoint skip_spaces (l : list ascii) : list ascii :=
  match l with
  | c :: rest => if is_space c then skip_spaces rest else l
  | [] => []
  end.

Definition strip (l : list ascii) : list ascii :=
  List.rev (skip_spaces (List.rev (skip_spaces l))).

(** [float(s)] for a string: blanks at both ends, a sign, digits with
    or without a point, and an exponent, as in "12", " -1.5 ", ".5" or
    "1e-3"; anything else is no number.  The value is the decimal read
    exactly.  The strings "inf", "infinity" and "nan", which Python reads
    as floats that are no rationals, are outside the model: they are no
    number here. *)
Definition float_of_string (s : string) : option Q :=
  let '(negative, l) := sign (strip (list_ascii_of_string s)) in
  let '(whole, n_whole, l) := digits 0 0 l in
  let '(fraction, n_fraction, l) :=
    match l with
    | "."%char :: rest => digits 0 0 rest
    | _ => (0%Z, 0%nat, l)
    end in
  if (n_whole + n_fraction =? 0)%nat then None
  else
    let scale := (10 ^ Z.of_nat n_fraction)%Z in
    let mantissa := (inject_Z (whole * scale + fraction) / inject_Z scale)%Q in
    let mantissa := if negative then (- mantissa)%Q else mantissa in
    match l with
    | [] => Some mantissa
    | c :: rest =>
        if Ascii.eqb c "e" || Ascii.eqb c "E" then
          let '(down, l) := sign rest in
          let '(exponent, n_exponent, l) := digits 0 0 l in
          match n_exponent, l with
          | S _, [] =>
              Some (mantissa * Qpower 10 (if down then - exponent else exponent))%Q
          | _, _ => None
          end
        else None
    end.

(** [float(v)]. *)
Definition float (v : pyval) : result Q :=
  match v with
  | PyFloat x => Ok x
  | PyBool b => Ok (if b then 1%Q else 0%Q)
  | PyStr s =>
      match float_of_string s with
      | Some x => Ok x
      | None => Raise ValueError
      end
  | _ => Raise TypeError
  end.

(** Truth value of [if v:]. *)
Definition truthy (v : pyval) : bool :=
  match v with
  | PyNone => false
  | PyBool b => b
  | PyFloat x => negb (Qeq_bool x 0)
  | PyStr s => negb (String.eqb s "")
  | PyList l => match l with [] => false | _ => true end
  | PyCavity _ => true
  end.

(** [ParamsDictObject]: a thin wrapper of a dict. *)
Definition getParam (d : gmap string pyval) (key : string) : result pyval :=
  match d !! key with
  | Some v => Ok v
  | None => Raise (KeyError key)
  end.

Definition hasParam (d : gmap string pyval) (key : string) : bool :=
  bool_decide (is_Some (d !! key)).

Definition setParam (d : gmap string pyval) (key : string) (v : pyval) : gmap string pyval :=
  <[key := v]> d.

Definition getFloat (d : gmap string pyval) (key : string) : result Q :=
  match getParam d key with
  | Ok v => as_float v
  | Raise e => Raise e
  end.

(** [l[i]] for a Python list and an index that is not negative. *)
Definition list_get {A} (l : list A) (i : Z) : result A :=
  if (i <? 0)%Z then Raise IndexError
  else match l !! Z.to_nat i with
       | Some x => Ok x
       | None => Raise IndexError
       end.

(** [l[i] = x]. *)
Definition list_set {A} (l : list A) (i : Z) (x : A) : result (list A) :=
  if (i <? 0)%Z then Raise IndexError
  else if decide (Z.to_nat i < List.length l)%nat then Ok (<[Z.to_nat i := x]> l)
  else Raise IndexError.

(** A name written [__x] inside class [C] is stored as [_C__x]. *)
Definition mangle (class_name attr : string) : string :=
  ("_" ++ class_name ++ attr)%string.

(** Reading an attribute of an object whose attributes are [defined]. *)
Definition getattr {S} (defined : list string) (attr : string) : M S unit :=
  if bool_decide (attr ∈ defined) then mret tt else raise (AttributeError attr).

(** Reading a local variable that holds [v], or nothing yet. *)
Definition local {S A} (var : string) (v : option A) : M S A :=
  match v with
  | Some a => mret a
  | None => raise (UnboundLocalError var)
  end.

(** [math.pi]: the double nearest to pi, as a rational. *)
Definition math_pi : Q := 884279719003555 # 281474976710656.

(** [math.fmod(x, y)] for [y] not zero: [x - trunc(x/y) * y]. *)
Definition math_fmod (x y : Q) : Q :=
  let q := (x / y)%Q in
  (x - inject_Z (Z.quot (Qnum q) (Zpos (Qden q))) * y)%Q.

End Py.

Import Py.

Local Open Scope Q_scope.

(** [for x in l: body(x)]. *)
Fixpoint for_each {S A} (l : list A) (body : A -> M S unit) : M S unit :=
  match l with
  | [] => mret tt
  | x :: rest => body x;; for_each rest body
  end.

(** [range(n)] / [xrange(n)]. *)
Definition range (n : Z) : list Z := Z.of_nat <$> seq 0 (Z.to_nat n).

(** [x / y] on floats. *)
Definition py_div (x y : Q) : result Q :=
  if Qeq_bool y 0 then Raise ZeroDivisionError else Ok (x / y).

(** ** The lattice nodes *)

(** The classes of the source that are instantiated as lattice nodes. *)
Inductive NodeClass : Type :=
| BaseLinacNode_cls
| MarkerLinacNode_cls
| Drift_cls
| Quad_cls
| DCorrectorH_cls
| DCorrectorV_cls
| BaseRF_Gap_cls.

#[export] Instance NodeClass_eq_dec : EqDecision NodeClass.
Proof. solve_decision. Defined.

(** [TiltElement]: the axis rotation at the entrance or exit of a node. *)
Record TiltElement : Type := mkTiltElement {
  tilt_name : string;
  tilt_type : string;
  tilt_angle : Q
}.

(** The two fringe functions [Quad.__init__] defines. *)
Inductive FringeFunction : Type := fringeIN | fringeOUT.

(** [FringeField]: its parameter bag is the parent's own dict. *)
Record FringeField : Type := mkFringeField {
  fringe_name : string;
  fringe_type : string;
  fringe_trackFunc : option FringeFunction;
  fringe_usage : bool
}.

(** A lattice node: the state [AccNode] keeps (name, type, parts, lengths,
    active part, parameter bag), the private attributes the classes of
    the source add, and the children attached after a body part.  The
    entrance children of a node are its entrance tilt and fringe field,
    the exit children its exit fringe field and tilt, in that order. *)
Inductive AccNode : Type := mkAccNode {
  oid : nat;
  cls : NodeClass;
  acc_name : string;
  acc_type : string;
  acc_nParts : Z;
  acc_length : Q;
  acc_lengthArr : list Q;
  acc_activePartIndex : Z;
  acc_paramsDict : gmap string pyval;
  isFirstGap : bool;
  tiltNodes : option (TiltElement * TiltElement);
  fringeFields : option (FringeField * FringeField);
  bodyChildren : list (Z * AccNode)
}.

Definition set_type (t : string) (n : AccNode) : AccNode :=
  mkAccNode (oid n) (cls n) (acc_name n) t (acc_nParts n) (acc_length n)
    (acc_lengthArr n) (acc_activePartIndex n) (acc_paramsDict n) (isFirstGap n)
    (tiltNodes n) (fringeFields n) (bodyChildren n).

Definition set_parts (k : Z) (L : Q) (arr : list Q) (n : AccNode) : AccNode :=
  mkAccNode (oid n) (cls n) (acc_name n) (acc_type n) k L arr
    (acc_activePartIndex n) (acc_paramsDict n) (isFirstGap n)
    (tiltNodes n) (fringeFields n) (bodyChildren n).

Definition set_activePartIndex (i : Z) (n : AccNode) : AccNode :=
  mkAccNode (oid n) (cls n) (acc_name n) (acc_type n) (acc_nParts n) (acc_length n)
    (acc_lengthArr n) i (acc_paramsDict n) (isFirstGap n)
    (tiltNodes n) (fringeFields n) (bodyChildren n).

Definition set_paramsDict (d : gmap string pyval) (n : AccNode) : AccNode :=
  mkAccNode (oid n) (cls n) (acc_name n) (acc_type n) (acc_nParts n) (acc_length n)
    (acc_lengthArr n) (acc_activePartIndex n) d (isFirstGap n)
    (tiltNodes n) (fringeFields n) (bodyChildren n).

Definition set_isFirstGap (b : bool) (n : AccNode) : AccNode :=
  mkAccNode (oid n) (cls n) (acc_name n) (acc_type n) (acc_nParts n) (acc_length n)
    (acc_lengthArr n) (acc_activePartIndex n) (acc_paramsDict n) b
    (tiltNodes n) (fringeFields n) (bodyChildren n).

Definition set_tiltNodes (t : option (TiltElement * TiltElement)) (n : AccNode) : AccNode :=
  mkAccNode (oid n) (cls n) (acc_name n) (acc_type n) (acc_nParts n) (acc_length n)
    (acc_lengthArr n) (acc_activePartIndex n) (acc_paramsDict n) (isFirstGap n)
    t (fringeFields n) (bodyChildren n).

Definition set_fringeFields (f : option (FringeField * FringeField)) (n : AccNode) : AccNode :=
  mkAccNode (oid n) (cls n) (acc_name n) (acc_type n) (acc_nParts n) (acc_length n)
    (acc_lengthArr n) (acc_activePartIndex n) (acc_paramsDict n) (isFirstGap n)
    (tiltNodes n) f (bodyChildren n).

Definition set_bodyChildren (c : list (Z * AccNode)) (n : AccNode) : AccNode :=
  mkAccNode (oid n) (cls n) (acc_name n) (acc_type n) (acc_nParts n) (acc_length n)
    (acc_lengthArr n) (acc_activePartIndex n) (acc_paramsDict n) (isFirstGap n)
    (tiltNodes n) (fringeFields n) c.

(** *** The library class [AccNode] (orbit.lattice), as the source uses it *)

(** [AccNode.__init__(name)]: one part, all lengths zero, no parameter. *)
Definition AccNode_init (id : nat) (c : NodeClass) (name : string) : AccNode :=
  mkAccNode id c name "node" 1 0 [0] 0 ∅ false None None [].

(** The parts share the node's length evenly. *)
Definition even_parts (k : Z) (L : Q) : list Q :=
  replicate (Z.to_nat k) (L / inject_Z k).

(** [setnParts(n)]. *)
Definition setnParts (k : Z) (self : AccNode) : AccNode :=
  set_parts k (acc_length self) (even_parts k (acc_length self)) self.

(** [getLength(index = -1)]: the node's length, or the length of a part. *)
Definition getLength (self : AccNode) (index : Z) : result Q :=
  if (index <? 0)%Z then Ok (acc_length self)
  else list_get (acc_lengthArr self) index.

(** [setLength(L, index = -1)]. *)
Definition setLength (L : Q) (index : Z) : M AccNode unit :=
  self ← get;
  if (index <? 0)%Z then
    put (set_parts (acc_nParts self) L (even_parts (acc_nParts self) L) self)
  else
    arr ← lift (list_set (acc_lengthArr self) index L);
    put (set_parts (acc_nParts self) (acc_length self) arr self).

Definition node_setParam (key : string) (v : pyval) (self : AccNode) : AccNode :=
  set_paramsDict (setParam (acc_paramsDict self) key v) self.

(** *** The node classes of the source *)

(** [BaseLinacNode.__init__]. *)
Definition BaseLinacNode_init (id : nat) (c : NodeClass) (name : string) : AccNode :=
  set_type "baseLinacNode" (AccNode_init id c name).

(** [MarkerLinacNode.__init__]. *)
Definition MarkerLinacNode_init (id : nat) (name : string) : AccNode :=
  set_type "markerLinacNode" (BaseLinacNode_init id MarkerLinacNode_cls name).

(** [TiltElement.__init__(name = "tilt no name", angle = 0.)]. *)
Definition TiltElement_init (name : string) (angle : Q) : TiltElement :=
  mkTiltElement name "tilt teapot" angle.

Definition TiltElement_setTiltAngle (angle : Q) (t : TiltElement) : TiltElement :=
  mkTiltElement (tilt_name t) (tilt_type t) angle.

Definition TiltElement_getTiltAngle (t : TiltElement) : Q := tilt_angle t.

(** [LinacNode.__init__]: two tilt elements with the default angle, named
    after the node, and the parameter "tilt". *)
Definition LinacNode_init (id : nat) (c : NodeClass) (name : string) : AccNode :=
  let self := BaseLinacNode_init id c name in
  let tiltNodeIN := TiltElement_init "tilt no name" 0 in
  let tiltNodeOUT := TiltElement_init "tilt no name" 0 in
  let tiltNodeIN := mkTiltElement (name ++ "_tilt_in") (tilt_type tiltNodeIN) (tilt_angle tiltNodeIN) in
  let tiltNodeOUT := mkTiltElement (name ++ "_tilt_out") (tilt_type tiltNodeOUT) (tilt_angle tiltNodeOUT) in
  let self := set_tiltNodes (Some (tiltNodeIN, tiltNodeOUT)) self in
  let self := node_setParam "tilt" (PyFloat (TiltElement_getTiltAngle tiltNodeIN)) self in
  set_type "linacNode" self.

(** The instance attributes the constructors of a class assign, under
    their mangled names.  The attributes of the library classes are
    private to them, so they carry the library classes' names. *)
Definition instance_attributes (c : NodeClass) : list string :=
  let library := [mangle "NamedObject" "__name"; mangle "TypedObject" "__type";
                  mangle "ParamsDictObject" "__paramsDict"; mangle "AccNode" "__nParts";
                  mangle "AccNode" "__lengthArr"; mangle "AccNode" "__length";
                  mangle "AccNode" "__activePartIndex"; mangle "AccNode" "__childNodesArr"] in
  let base := library ++ [mangle "BaseLinacNode" "__linacSeqence"] in
  let tilt := [mangle "LinacNode" "__tiltNodeIN"; mangle "LinacNode" "__tiltNodeOUT"] in
  let fringe := [mangle "LinacMagnetNode" "__fringeFieldIN"; mangle "LinacMagnetNode" "__fringeFieldOUT"] in
  match c with
  | BaseLinacNode_cls | MarkerLinacNode_cls | Drift_cls => base
  | Quad_cls | DCorrectorH_cls | DCorrectorV_cls => base ++ tilt ++ fringe
  | BaseRF_Gap_cls => base ++ [mangle "BaseRF_Gap" "__isFirstGap"]
  end.

(** [LinacNode.setTiltAngle(angle)].  Its first statement assigns into
    [self.__params], that is into the attribute [_LinacNode__params]. *)
Definition LinacNode_setTiltAngle (angle : Q) : M AccNode unit :=
  self ← get;
  getattr (instance_attributes (cls self)) (mangle "LinacNode" "__params");;
  match tiltNodes self with
  | Some (tiltNodeIN, tiltNodeOUT) =>
      put (set_tiltNodes (Some (TiltElement_setTiltAngle angle tiltNodeIN,
                                TiltElement_setTiltAngle ((-1) * angle) tiltNodeOUT)) self)
  | None => raise (AttributeError (mangle "LinacNode" "__tiltNodeIN"))
  end.

(** [LinacNode.getTiltAngle()]. *)
Definition LinacNode_getTiltAngle (self : AccNode) : result Q :=
  match tiltNodes self with
  | Some (tiltNodeIN, _) => Ok (TiltElement_getTiltAngle tiltNodeIN)
  | None => Raise (AttributeError (mangle "LinacNode" "__tiltNodeIN"))
  end.

(** [FringeField.__init__(parentNode, trackFunction = None)]. *)
Definition FringeField_init (name : string) : FringeField :=
  mkFringeField name "fringeField teapot" None true.

(** [LinacMagnetNode.__init__]. *)
Definition LinacMagnetNode_init (id : nat) (c : NodeClass) (name : string) : AccNode :=
  let self := LinacNode_init id c name in
  let fringeFieldIN := FringeField_init (name ++ "_fringe_in") in
  let fringeFieldOUT := FringeField_init (name ++ "_fringe_out") in
  set_type "linacMagnet" (set_fringeFields (Some (fringeFieldIN, fringeFieldOUT)) self).

(** [Drift.__init__]. *)
Definition Drift_init (id : nat) (name : string) : AccNode :=
  set_type "drift" (BaseLinacNode_init id Drift_cls name).

Definition retype_tilt (t : string) (e : TiltElement) : TiltElement :=
  mkTiltElement (tilt_name e) t (tilt_angle e).

(** [Quad.__init__]: two parts, the fringe functions set. *)
Definition Quad_init (id : nat) (name : string) : AccNode :=
  let self := LinacMagnetNode_init id Quad_cls name in
  let self := node_setParam "dB/dr" (PyFloat 0) self in
  let self := node_setParam "poles" (PyList []) self in
  let self := node_setParam "kls" (PyList []) self in
  let self := node_setParam "skews" (PyList []) self in
  let self := setnParts 2 self in
  let self := set_type "linacQuad" self in
  let self := set_fringeFields
    ((fun '(fin, fout) =>
        (mkFringeField (fringe_name fin) "quad fringe in" (Some fringeIN) (fringe_usage fin),
         mkFringeField (fringe_name fout) "quad fringe out" (Some fringeOUT) (fringe_usage fout)))
       <$> fringeFields self) self in
  set_tiltNodes
    ((fun '(tin, tout) => (retype_tilt "quad tilt in" tin, retype_tilt "quad tilt out" tout))
       <$> tiltNodes self) self.

(** [DCorrectorH.__init__] and [DCorrectorV.__init__]. *)
Definition DCorrector_init (id : nat) (c : NodeClass) (type : string) (name : string) : AccNode :=
  let self := LinacMagnetNode_init id c name in
  let self := node_setParam "B" (PyFloat 0) self in
  let self := node_setParam "effLength" (PyFloat 0) self in
  let self := set_type type self in
  setnParts 1 self.

Definition DCorrectorH_init (id : nat) (name : string) : AccNode :=
  DCorrector_init id DCorrectorH_cls "dch" name.

Definition DCorrectorV_init (id : nat) (name : string) : AccNode :=
  DCorrector_init id DCorrectorV_cls "dcv" name.

(** [BaseRF_Gap.__init__]: three parts, not the first gap, no cavity. *)
Definition BaseRF_Gap_init (id : nat) (name : string) : AccNode :=
  let self := BaseLinacNode_init id BaseRF_Gap_cls name in
  let self := node_setParam "E0TL" (PyFloat 0) self in
  let self := node_setParam "rfCavity" PyNone self in
  let self := set_type "baserfgap" self in
  let self := set_isFirstGap false self in
  setnParts 3 self.

(** [Quad.initialize()]. *)
Definition Quad_initialize : M AccNode unit :=
  self ← get;
  let nParts := acc_nParts self in
  (if (nParts <? 2)%Z && negb (nParts mod 2 =? 0)%Z
   then orbitFinalize "The Quad Combined Function class instance should have no less than 2 and even number of parts!"
   else mret tt);;
  total ← lift (getLength self (-1));
  step ← lift (py_div total (inject_Z (nParts - 1)));
  let lengthIN := step / 2 in
  let lengthOUT := step / 2 in
  let lengthStep := lengthIN + lengthOUT in
  setLength lengthIN 0;;
  setLength lengthOUT (nParts - 1);;
  for_each (range (nParts - 2)) (fun i => setLength lengthStep (i + 1)).

(** [BaseRF_Gap.initialize()]. *)
Definition BaseRF_Gap_initialize : M AccNode unit :=
  self ← get;
  let nParts := acc_nParts self in
  (if negb (nParts =? 3)%Z
   then orbitFinalize "The simple Rf gap should have 3 parts!"
   else mret tt);;
  length ← lift (getLength self (-1));
  setLength (length / 2) 0;;
  setLength 0 1;;
  setLength (length / 2) 2.

(** ** RF cavities, sequences and the lattice *)

(** [RF_Cavity]: a name, a parameter bag and the ids of its RF gaps. *)
Record RF_Cavity : Type := mkRF_Cavity {
  cav_name : string;
  cav_paramsDict : gmap string pyval;
  rfGaps : list nat
}.

(** [RF_Cavity.__init__(name)]. *)
Definition RF_Cavity_init (name : string) : RF_Cavity :=
  let d := setParam ∅ "frequency" (PyFloat 0) in
  let d := setParam d "phase" (PyFloat 0) in
  let d := setParam d "amp" (PyFloat 0) in
  let d := setParam d "designPhase" (PyFloat 0) in
  let d := setParam d "designAmp" (PyFloat 0) in
  let d := setParam d "firstGapTime" (PyFloat 0) in
  let d := setParam d "designArrivalTime" (PyFloat 0) in
  let d := setParam d "isDesignSetUp" (PyBool false) in
  mkRF_Cavity name d [].

Definition cav_setParam (key : string) (v : pyval) (cav : RF_Cavity) : RF_Cavity :=
  mkRF_Cavity (cav_name cav) (setParam (cav_paramsDict cav) key v) (rfGaps cav).

(** What a method of [RF_Cavity] does: return a parameter, set a
    parameter, or something else (the gap list, the inherited name and
    dict methods, which the nodes never call by name). *)
Inductive Method : Type :=
| Getter (key : string)
| Setter (key : string)
| OtherMethod.

(** The methods of class [RF_Cavity], as the source defines them, and
    the ones it inherits from [NamedObject] and [ParamsDictObject]. *)
Definition RF_Cavity_class : list (string * Method) :=
  [ ("setDesignSetUp", Setter "isDesignSetUp");
    ("istDesignSetUp", Getter "isDesignSetUp");
    ("setFirstGapTime", Setter "firstGapTime");
    ("getFirstGapTime", Getter "firstGapTime");
    ("setDesignArrivalTime", Setter "designArrivalTime");
    ("getDesignArrivalTime", Getter "designArrivalTime");
    ("setDesignPhase", Setter "designPhase");
    ("getDesignPhase", Getter "designPhase");
    ("setDesignAmp", Setter "designAmp");
    ("getDesignAmp", Getter "designAmp");
    ("setPhase", Setter "phase");
    ("getPhase", Getter "phase");
    ("setAmp", Setter "Amp");
    ("getAmp", Getter "Amp");
    ("setFrequency", Setter "frequency");
    ("getFrequency", Getter "frequency");
    ("addRF_GapNode", OtherMethod);
    ("getRF_GapNodes", OtherMethod);
    ("getName", OtherMethod);
    ("setName", OtherMethod);
    ("addParam", OtherMethod);
    ("hasParam", OtherMethod);
    ("getParam", OtherMethod);
    ("setParam", OtherMethod);
    ("getParamsDict", OtherMethod);
    ("setParamsDict", OtherMethod);
    ("updateParamsDict", OtherMethod) ].

Fixpoint lookup_method (meth : string) (class : list (string * Method)) : option Method :=
  match class with
  | [] => None
  | (m, impl) :: rest => if String.eqb meth m then Some impl else lookup_method meth rest
  end.

(** [Sequence]: a name, a parameter bag (position, length) and nodes. *)
Record Sequence : Type := mkSequence {
  seq_name : string;
  seq_paramsDict : gmap string pyval;
  linacNodes : list AccNode
}.

(** [Sequence.__init__(name)]. *)
Definition Sequence_init (name : string) : Sequence :=
  mkSequence name (setParam (setParam ∅ "position" (PyFloat 0)) "length" (PyFloat 0)) [].

Definition seq_setParam (key : string) (v : pyval) (s : Sequence) : Sequence :=
  mkSequence (seq_name s) (setParam (seq_paramsDict s) key v) (linacNodes s).

(** [list.insert(index, x)] for an index that is not negative. *)
Definition list_insert_at {A} (index : nat) (x : A) (l : list A) : list A :=
  take index l ++ x :: drop index l.

(** [Sequence.addNode(node, index = -1)]. *)
Definition Sequence_addNode (node : AccNode) (index : Z) (s : Sequence) : Sequence :=
  if (index <? 0)%Z then mkSequence (seq_name s) (seq_paramsDict s) (linacNodes s ++ [node])
  else mkSequence (seq_name s) (seq_paramsDict s) (list_insert_at (Z.to_nat index) node (linacNodes s)).

(** [LinacAccLattice]: the nodes [AccLattice] keeps, the RF cavities and
    the sequences.  A cavity is referred to by its place in [rfCavities]. *)
Record LinacAccLattice : Type := mkLinacAccLattice {
  lat_name : string;
  lat_nodes : list AccNode;
  rfCavities : list RF_Cavity;
  sequences : list Sequence
}.

(** [LinacAccLattice.__init__(name)]. *)
Definition LinacAccLattice_init (name : string) : LinacAccLattice :=
  mkLinacAccLattice name [] [] [].

Definition addNode (n : AccNode) (self : LinacAccLattice) : LinacAccLattice :=
  mkLinacAccLattice (lat_name self) (lat_nodes self ++ [n]) (rfCavities self) (sequences self).

Definition addRF_Cavity (cav : RF_Cavity) (self : LinacAccLattice) : LinacAccLattice :=
  mkLinacAccLattice (lat_name self) (lat_nodes self) (rfCavities self ++ [cav]) (sequences self).

Definition addSequence (s : Sequence) (self : LinacAccLattice) : LinacAccLattice :=
  mkLinacAccLattice (lat_name self) (lat_nodes self) (rfCavities self) (sequences self ++ [s]).

Definition set_rfCavities (cavs : list RF_Cavity) (self : LinacAccLattice) : LinacAccLattice :=
  mkLinacAccLattice (lat_name self) (lat_nodes self) cavs (sequences self).

(** The loop of [getRF_Cavity]: the first cavity of that name, or None. *)
Fixpoint getRF_Cavity_loop (name : string) (cavs : list RF_Cavity) : option RF_Cavity :=
  match cavs with
  | [] => None
  | cav :: rest =>
      if bool_decide (name = cav_name cav) then Some cav else getRF_Cavity_loop name rest
  end.

(** [LinacAccLattice.getRF_Cavity(name)]. *)
Definition getRF_Cavity (self : LinacAccLattice) (name : string) : option RF_Cavity :=
  getRF_Cavity_loop name (rfCavities self).

(** The loop of [getSequence]. *)
Fixpoint getSequence_loop (name : string) (seqs : list Sequence) : option Sequence :=
  match seqs with
  | [] => None
  | seq :: rest =>
      if bool_decide (name = seq_name seq) then Some seq else getSequence_loop name rest
  end.

(** [LinacAccLattice.getSequence(name)]. *)
Definition getSequence (self : LinacAccLattice) (name : string) : option Sequence :=
  getSequence_loop name (sequences self).

(** ** Bunches and the transport kernel *)

Record SyncPart : Type := mkSyncPart {
  sync_time : Q;
  sync_kinEnergy : Q
}.

Record Bunch : Type := mkBunch {
  particles : list (list Q);
  syncParticle : SyncPart;
  bunch_charge : Q;
  bunch_mass : Q
}.

(** The external functions: the transport kernel [TPB], the momentum of
    the synchronous particle and [math.cos]. *)
Class TransportKernel : Type := {
  TPB_drift : Bunch -> Q -> Bunch;
  TPB_quad1 : Bunch -> Q -> Q -> Bunch;
  TPB_quad2 : Bunch -> Q -> Bunch;
  TPB_multp : Bunch -> Q -> Q -> Q -> Bunch;
  TPB_kick : Bunch -> Q -> Q -> Q -> Bunch;
  TPB_rotatexy : Bunch -> Q -> Bunch;
  TPB_quadfringeIN : Bunch -> Q -> Bunch;
  TPB_quadfringeOUT : Bunch -> Q -> Bunch;
  TPB_multpfringeIN : Bunch -> Q -> Q -> Q -> Bunch;
  TPB_multpfringeOUT : Bunch -> Q -> Q -> Q -> Bunch;
  momentum : SyncPart -> Q;
  math_cos : Q -> Q
}.

(** The objects a tracking pass works on: the bunches, by reference, and
    the lattice with its cavities. *)
Record World : Type := mkWorld {
  bunches : gmap nat Bunch;
  lattice : LinacAccLattice
}.

(** [Bunch()]: a new, empty bunch. *)
Definition Bunch_new : Bunch := mkBunch [] (mkSyncPart 0 0) 0 0.

(** [src.copyEmptyBunchTo(dst)]: everything but the particles. *)
Definition copyEmptyBunchTo (src dst : Bunch) : Bunch :=
  mkBunch [] (syncParticle src) (bunch_charge src) (bunch_mass src).

Definition read_bunch (bunch : nat) : M World Bunch :=
  w ← get;
  match bunches w !! bunch with
  | Some b => mret b
  | None => raise (KeyError "bunch")
  end.

Definition write_bunch (bunch : nat) (b : Bunch) : M World unit :=
  w ← get; put (mkWorld (<[bunch := b]> (bunches w)) (lattice w)).

(** A call of the transport kernel on the bunch object. *)
Definition TPB (bunch : nat) (f : Bunch -> Bunch) : M World unit :=
  b ← read_bunch bunch; write_bunch bunch (f b).

(** [bunch.getSyncParticle().time()] and [.time(t)]. *)
Definition syncPart_time (bunch : nat) : M World Q :=
  b ← read_bunch bunch; mret (sync_time (syncParticle b)).

Definition syncPart_set_time (bunch : nat) (t : Q) : M World unit :=
  TPB bunch (fun b => mkBunch (particles b) (mkSyncPart t (sync_kinEnergy (syncParticle b)))
                        (bunch_charge b) (bunch_mass b)).

(** [syncPart.kinEnergy()] and [.kinEnergy(e)]. *)
Definition syncPart_kinEnergy (bunch : nat) : M World Q :=
  b ← read_bunch bunch; mret (sync_kinEnergy (syncParticle b)).

Definition syncPart_set_kinEnergy (bunch : nat) (e : Q) : M World unit :=
  TPB bunch (fun b => mkBunch (particles b) (mkSyncPart (sync_time (syncParticle b)) e)
                        (bunch_charge b) (bunch_mass b)).

(** Reading and writing a parameter of the cavity object [c]. *)
Definition cavity_getParam (c : nat) (key : string) : M World pyval :=
  w ← get;
  match rfCavities (lattice w) !! c with
  | Some cav => lift (getParam (cav_paramsDict cav) key)
  | None => raise (KeyError "rfCavity")
  end.

Definition cavity_setParam (c : nat) (key : string) (v : pyval) : M World unit :=
  w ← get;
  match rfCavities (lattice w) !! c with
  | Some cav =>
      put (mkWorld (bunches w)
             (set_rfCavities (<[c := cav_setParam key v cav]> (rfCavities (lattice w))) (lattice w)))
  | None => raise (KeyError "rfCavity")
  end.

(** [obj.meth()]: the call of a method without argument, resolved by
    name in the class of the object. *)
Definition call0 (obj : pyval) (meth : string) : M World pyval :=
  match obj with
  | PyCavity c =>
      match lookup_method meth RF_Cavity_class with
      | Some (Getter key) => cavity_getParam c key
      | Some _ => raise TypeError
      | None => raise (AttributeError meth)
      end
  | _ => raise (AttributeError meth)
  end.

(** [obj.meth(v)]: the call of a method with one argument. *)
Definition call1 (obj : pyval) (meth : string) (v : pyval) : M World unit :=
  match obj with
  | PyCavity c =>
      match lookup_method meth RF_Cavity_class with
      | Some (Setter key) => cavity_setParam c key v
      | Some _ => raise TypeError
      | None => raise (AttributeError meth)
      end
  | _ => raise (AttributeError meth)
  end.

(** ** Tracking *)

(** The tracking context the nodes read: the bunch, and the parent of
    the child node that is being tracked. *)
Record ParamsDict : Type := mkParamsDict {
  pd_bunch : nat;
  pd_parentNode : option AccNode
}.

Definition as_list (v : pyval) : result (list Q) :=
  match v with
  | PyList l => Ok l
  | _ => Raise TypeError
  end.

Section Tracking.

Context `{K : TransportKernel}.

(** The first and third part of an RF gap: a drift over the part's
    length, corrected by the gap offset. *)
Definition BaseRF_Gap_drift_part (self : AccNode) (index : Z) (length : Q) (bunch : nat)
  : M World unit :=
  let gapOffset := PyFloat 0 in
  gapOffset ← (if hasParam (acc_paramsDict self) "gapOffset"
               then lift (getParam (acc_paramsDict self) "gapOffset")
               else mret gapOffset);
  gapOffset ← lift (as_float gapOffset);
  let gapOffset := if (index =? 2)%Z then - gapOffset else gapOffset in
  TPB bunch (fun b => TPB_drift b (length + gapOffset)).

(** The energy kick at the end of both RF gap tracking methods. *)
Definition BaseRF_Gap_kick (bunch : nat) (E0TL : pyval) (phase : Q) : M World unit :=
  eKin ← syncPart_kinEnergy bunch;
  E0TL ← lift (as_float E0TL);
  let eKin := eKin + E0TL * math_cos phase in
  syncPart_set_kinEnergy bunch eKin.

(** [BaseRF_Gap.track(paramsDict)]. *)
Definition BaseRF_Gap_track (self : AccNode) (paramsDict : ParamsDict) : M World unit :=
  let index := acc_activePartIndex self in
  length ← lift (getLength self index);
  let bunch := pd_bunch paramsDict in
  if (index =? 0)%Z || (index =? 2)%Z then
    BaseRF_Gap_drift_part self index length bunch
  else
    let syncPart : option nat := None in
    E0TL ← lift (getParam (acc_paramsDict self) "E0TL");
    modePhase ← lift (getFloat (acc_paramsDict self) "modePhase");
    let modePhase := modePhase * math_pi in
    rfCavity ← lift (getParam (acc_paramsDict self) "rfCavity");
    frequency ← call0 rfCavity "frequency";
    cavPhase ← call0 rfCavity "getPhase";
    cavPhase ← lift (as_float cavPhase);
    let rfPhase := cavPhase + modePhase in
    let phase := rfPhase in
    phase ← (if isFirstGap self then
               arrival_time ← syncPart_time bunch;
               call1 rfCavity "setFirstGapTime" (PyFloat arrival_time);;
               setUp ← call0 rfCavity "isDesignSetUp";
               if truthy setUp then
                 designArrivalTime ← call0 rfCavity "getDesignArrivalTime";
                 frequency ← lift (as_float frequency);
                 designArrivalTime ← lift (as_float designArrivalTime);
                 mret (math_fmod (frequency * (arrival_time - designArrivalTime) * 2 * math_pi + rfPhase)
                                 (2 * math_pi))
               else mret phase
             else
               first_gap_arr_time ← call0 rfCavity "getFirstGapTime";
               syncPart ← local "syncPart" syncPart;
               arrival_time ← syncPart_time syncPart;
               frequency ← lift (as_float frequency);
               first_gap_arr_time ← lift (as_float first_gap_arr_time);
               mret (math_fmod (frequency * (arrival_time - first_gap_arr_time) * 2 * math_pi + rfPhase)
                               (2 * math_pi)));
    BaseRF_Gap_kick bunch E0TL phase.

(** [BaseRF_Gap.trackDesignBunch(paramsDict)]. *)
Definition BaseRF_Gap_trackDesignBunch (self : AccNode) (paramsDict : ParamsDict) : M World unit :=
  let index := acc_activePartIndex self in
  length ← lift (getLength self index);
  let bunch := pd_bunch paramsDict in
  if (index =? 0)%Z || (index =? 2)%Z then
    BaseRF_Gap_drift_part self index length bunch
  else
    E0TL ← lift (getParam (acc_paramsDict self) "E0TL");
    rfCavity ← lift (getParam (acc_paramsDict self) "rfCavity");
    modePhase ← lift (getFloat (acc_paramsDict self) "modePhase");
    let modePhase := modePhase * math_pi in
    arrival_time ← syncPart_time bunch;
    frequency ← call0 rfCavity "getFrequency";
    designPhase ← call0 rfCavity "getDesignPhase";
    designPhase ← lift (as_float designPhase);
    let rfPhase := designPhase + modePhase in
    let phase := rfPhase in
    phase ← (if isFirstGap self then
               call1 rfCavity "setDesignArrivalTime" (PyFloat arrival_time);;
               mret phase
             else
               first_gap_arr_time ← call0 rfCavity "getDesignArrivalTime";
               frequency ← lift (as_float frequency);
               first_gap_arr_time ← lift (as_float first_gap_arr_time);
               mret (math_fmod (frequency * (arrival_time - first_gap_arr_time) * 2 * math_pi + rfPhase)
                               (2 * math_pi)));
    BaseRF_Gap_kick bunch E0TL phase.

(** [Drift.track(paramsDict)]. *)
Definition Drift_track (self : AccNode) (paramsDict : ParamsDict) : M World unit :=
  length ← lift (getLength self (acc_activePartIndex self));
  let bunch := pd_bunch paramsDict in
  TPB bunch (fun b => TPB_drift b length).

(** [for i in xrange(len(poleArr))]: the multipole kicks of a quad part,
    [scale] giving the strength from the entry of [klArr]. *)
Definition multipoles (bunch : nat) (poleArr klArr skewArr : pyval)
    (scale : Q -> result Q) (kernel : Bunch -> Q -> Q -> Q -> Bunch) : M World unit :=
  poles ← lift (as_list poleArr);
  for_each (range (Z.of_nat (List.length poles))) (fun i =>
    pole ← lift (list_get poles i);
    kls ← lift (as_list klArr);
    k ← lift (list_get kls i);
    k ← lift (scale k);
    skews ← lift (as_list skewArr);
    skew ← lift (list_get skews i);
    TPB bunch (fun b => kernel b pole k skew)).

(** [Quad.track(paramsDict)]. *)
Definition Quad_track (self : AccNode) (paramsDict : ParamsDict) : M World unit :=
  let bunch := pd_bunch paramsDict in
  b ← read_bunch bunch;
  let p := momentum (syncParticle b) in
  dBdr ← lift (getFloat (acc_paramsDict self) "dB/dr");
  kq ← lift (py_div dBdr (3.33564 * p));
  let nParts := acc_nParts self in
  let index := acc_activePartIndex self in
  length ← lift (getLength self index);
  poleArr ← lift (getParam (acc_paramsDict self) "poles");
  klArr ← lift (getParam (acc_paramsDict self) "kls");
  skewArr ← lift (getParam (acc_paramsDict self) "skews");
  if (index =? 0)%Z then
    TPB bunch (fun b => TPB_quad1 b length kq)
  else if (0 <? index)%Z && (index <? nParts - 1)%Z then
    TPB bunch (fun b => TPB_quad2 b (length / 2));;
    multipoles bunch poleArr klArr skewArr
      (fun kl => py_div kl (inject_Z (nParts - 1))) TPB_multp;;
    TPB bunch (fun b => TPB_quad2 b (length / 2));;
    TPB bunch (fun b => TPB_quad1 b length kq)
  else if (index =? nParts - 1)%Z then
    TPB bunch (fun b => TPB_quad2 b length);;
    multipoles bunch poleArr klArr skewArr
      (fun kl => py_div (kl * kq * length) (inject_Z (nParts - 1))) TPB_multp;;
    TPB bunch (fun b => TPB_quad2 b length);;
    TPB bunch (fun b => TPB_quad1 b length kq)
  else mret tt.

(** [DCorrectorH.track] and [DCorrectorV.track]: [horizontal] tells
    which of the two kicks is given. *)
Definition DCorrector_track (horizontal : bool) (self : AccNode) (paramsDict : ParamsDict)
  : M World unit :=
  let nParts := acc_nParts self in
  effLength ← lift (getFloat (acc_paramsDict self) "effLength");
  length ← lift (py_div effLength (inject_Z nParts));
  field ← lift (getParam (acc_paramsDict self) "B");
  let bunch := pd_bunch paramsDict in
  b ← read_bunch bunch;
  let p := momentum (syncParticle b) in
  let q := bunch_charge b in
  field ← lift (as_float field);
  kick ← lift (py_div (q * field * length * 0.299792) p);
  if horizontal then TPB bunch (fun b => TPB_kick b kick 0 0)
  else TPB bunch (fun b => TPB_kick b 0 kick 0).

(** [TiltElement.track(paramsDict)]. *)
Definition TiltElement_track (self : TiltElement) (paramsDict : ParamsDict) : M World unit :=
  if negb (Qeq_bool (tilt_angle self) 0) then
    let bunch := pd_bunch paramsDict in
    TPB bunch (fun b => TPB_rotatexy b (tilt_angle self))
  else mret tt.

(** The functions [fringeIN] and [fringeOUT] of [Quad.__init__]; [node]
    is the fringe field, whose parameter bag is the parent's. *)
Definition quad_fringe (which : FringeFunction) (node : FringeField) (paramsDict : ParamsDict)
  : M World unit :=
  let usage := fringe_usage node in
  if negb usage then mret tt
  else
    let bunch := pd_bunch paramsDict in
    b ← read_bunch bunch;
    let p := momentum (syncParticle b) in
    parent ← match pd_parentNode paramsDict with
             | Some parent => mret parent
             | None => raise (KeyError "parentNode")
             end;
    dBdr ← lift (getFloat (acc_paramsDict parent) "dB/dr");
    kq ← lift (py_div dBdr (3.335640952 * p));
    poleArr ← lift (getParam (acc_paramsDict parent) "poles");
    klArr ← lift (getParam (acc_paramsDict parent) "kls");
    skewArr ← lift (getParam (acc_paramsDict parent) "skews");
    length ← lift (getLength parent (-1));
    TPB bunch (fun b => match which with
                        | fringeIN => TPB_quadfringeIN b kq
                        | fringeOUT => TPB_quadfringeOUT b kq
                        end);;
    if Qeq_bool length 0 then mret tt
    else multipoles bunch poleArr klArr skewArr (fun kl => Ok (kl * kq))
           match which with
           | fringeIN => TPB_multpfringeIN
           | fringeOUT => TPB_multpfringeOUT
           end.

(** [FringeField.track(paramsDict)]. *)
Definition FringeField_track (self : FringeField) (paramsDict : ParamsDict) : M World unit :=
  match fringe_trackFunc self with
  | Some f => quad_fringe f self paramsDict
  | None => mret tt
  end.

(** What the lattice walks over: a node at one of its parts, or one of
    the entrance and exit children of a node. *)
Inductive Trackable : Type :=
| T_Node (n : AccNode)
| T_Tilt (t : TiltElement)
| T_Fringe (f : FringeField).

(** [node.track(paramsDict)], by the class of the node. *)
Definition track (node : Trackable) (paramsDict : ParamsDict) : M World unit :=
  match node with
  | T_Node n =>
      match cls n with
      | BaseLinacNode_cls | MarkerLinacNode_cls => mret tt
      | Drift_cls => Drift_track n paramsDict
      | Quad_cls => Quad_track n paramsDict
      | DCorrectorH_cls => DCorrector_track true n paramsDict
      | DCorrectorV_cls => DCorrector_track false n paramsDict
      | BaseRF_Gap_cls => BaseRF_Gap_track n paramsDict
      end
  | T_Tilt t => TiltElement_track t paramsDict
  | T_Fringe f => FringeField_track f paramsDict
  end.

(** [node.trackDesignBunch(paramsDict)]: [track], but for the RF gap. *)
Definition trackDesignBunch (node : Trackable) (paramsDict : ParamsDict) : M World unit :=
  match node with
  | T_Node n =>
      match cls n with
      | BaseRF_Gap_cls => BaseRF_Gap_trackDesignBunch n paramsDict
      | _ => track node paramsDict
      end
  | _ => track node paramsDict
  end.

End Tracking.

(** The walk of the library ([trackActions]) over one node: its entrance
    children, then each part followed by the children attached after
    it, then its exit children; every step comes with the parent the
    walk announces for it. *)
Fixpoint node_visits (parent : option AccNode) (n : AccNode)
  : list (Trackable * option AccNode) :=
  let entrance :=
    match tiltNodes n with Some (tiltNodeIN, _) => [(T_Tilt tiltNodeIN, Some n)] | None => [] end
    ++ match fringeFields n with Some (fringeFieldIN, _) => [(T_Fringe fringeFieldIN, Some n)] | None => [] end in
  let body :=
    flat_map (fun i =>
      (T_Node (set_activePartIndex i n), parent)
      :: flat_map (fun c => if (fst c =? i)%Z then node_visits (Some n) (snd c) else [])
           (bodyChildren n))
      (range (acc_nParts n)) in
  let exit :=
    match fringeFields n with Some (_, fringeFieldOUT) => [(T_Fringe fringeFieldOUT, Some n)] | None => [] end
    ++ match tiltNodes n with Some (_, tiltNodeOUT) => [(T_Tilt tiltNodeOUT, Some n)] | None => [] end in
  entrance ++ body ++ exit.

(** [AccLattice.trackActions] with one action at the body of the nodes. *)
Definition trackActions (action : Trackable -> ParamsDict -> M World unit) (bunch : nat)
  : M World unit :=
  w ← get;
  for_each (flat_map (node_visits None) (lat_nodes (lattice w)))
    (fun v => action (fst v) (mkParamsDict bunch (snd v))).

(** [Bunch()] as a new object of the store. *)
Definition new_bunch : M World nat :=
  w ← get;
  let bunch := fresh (dom (bunches w)) in
  put (mkWorld (<[bunch := Bunch_new]> (bunches w)) (lattice w));;
  mret bunch.

Section LatticeTracking.

Context `{K : TransportKernel}.

(** [LinacAccLattice.trackBunch(bunch)]. *)
Definition LinacAccLattice_trackBunch (bunch : nat) : M World unit :=
  syncPart_set_time bunch 0;;
  trackActions track bunch.

(** [LinacAccLattice.trackDesignBunch(bunch_in)]. *)
Definition LinacAccLattice_trackDesignBunch (bunch_in : nat) : M World unit :=
  bunch ← new_bunch;
  src ← read_bunch bunch_in;
  TPB bunch (copyEmptyBunchTo src);;
  syncPart_set_time bunch 0;;
  trackActions trackDesignBunch bunch.

End LatticeTracking.

(** ** The lattice factory *)

(** The parsed elements ([linac_parser], which is not among the sources):
    an element has a name and a parameter bag that holds its type, its
    position, its length and what its type needs; [getType()] and
    [getLength()] read the parameters "type" and "length". *)
Record ParserNode : Type := mkParserNode {
  pn_name : string;
  pn_paramsDict : gmap string pyval
}.

(** A parsed sequence: name, parameter bag (length, RF frequency), elements. *)
Record ParserSeq : Type := mkParserSeq {
  ps_name : string;
  ps_paramsDict : gmap string pyval;
  ps_nodes : list ParserNode
}.

(** [LinacStructTree]: a name and the parsed sequences. *)
Record LinacStructTree : Type := mkLinacStructTree {
  lt_name : string;
  lt_seqs : list ParserSeq
}.

Definition as_str (v : pyval) : result string :=
  match v with
  | PyStr s => Ok s
  | _ => Raise TypeError
  end.

(** [v != 0.]: only a number can be equal to zero. *)
Definition py_ne_zero (v : pyval) : bool :=
  match v with
  | PyFloat x => negb (Qeq_bool x 0)
  | PyBool b => b
  | _ => true
  end.

Definition pn_getType (node : ParserNode) : result string :=
  match getParam (pn_paramsDict node) "type" with
  | Ok v => as_str v
  | Raise e => Raise e
  end.

(** [float(node.getParam(key))]. *)
Definition pn_float (node : ParserNode) (key : string) : result Q :=
  match getParam (pn_paramsDict node) key with
  | Ok v => float v
  | Raise e => Raise e
  end.

(** The state of one run of [getLinacAccLattice]: the object ids given
    out so far, and the local variables of the method that are mutated.
    A thin element is kept with its place in the element list, which
    stands for its identity. *)
Record Factory : Type := mkFactory {
  next_oid : nat;
  accRF_Cavs : list RF_Cavity;
  rf_cav_names : list string;
  thinNodes : list (nat * ParserNode);
  usedThinNodes : list (nat * ParserNode);
  accSeq : Sequence;
  linacAccLattice : LinacAccLattice
}.

Definition set_next_oid (k : nat) (f : Factory) : Factory :=
  mkFactory k (accRF_Cavs f) (rf_cav_names f) (thinNodes f) (usedThinNodes f)
    (accSeq f) (linacAccLattice f).

Definition set_accRF_Cavs (c : list RF_Cavity) (f : Factory) : Factory :=
  mkFactory (next_oid f) c (rf_cav_names f) (thinNodes f) (usedThinNodes f)
    (accSeq f) (linacAccLattice f).

Definition set_rf_cav_names (l : list string) (f : Factory) : Factory :=
  mkFactory (next_oid f) (accRF_Cavs f) l (thinNodes f) (usedThinNodes f)
    (accSeq f) (linacAccLattice f).

Definition set_thinNodes (l : list (nat * ParserNode)) (f : Factory) : Factory :=
  mkFactory (next_oid f) (accRF_Cavs f) (rf_cav_names f) l (usedThinNodes f)
    (accSeq f) (linacAccLattice f).

Definition set_usedThinNodes (l : list (nat * ParserNode)) (f : Factory) : Factory :=
  mkFactory (next_oid f) (accRF_Cavs f) (rf_cav_names f) (thinNodes f) l
    (accSeq f) (linacAccLattice f).

Definition set_accSeq (s : Sequence) (f : Factory) : Factory :=
  mkFactory (next_oid f) (accRF_Cavs f) (rf_cav_names f) (thinNodes f) (usedThinNodes f)
    s (linacAccLattice f).

Definition set_linacAccLattice (l : LinacAccLattice) (f : Factory) : Factory :=
  mkFactory (next_oid f) (accRF_Cavs f) (rf_cav_names f) (thinNodes f) (usedThinNodes f)
    (accSeq f) l.

Definition modify {S} (f : S -> S) : M S unit := s ← get; put (f s).

(** The identity of the next object that is created. *)
Definition new_oid : M Factory nat :=
  f ← get; put (set_next_oid (S (next_oid f)) f);; mret (next_oid f).

(** A method of a node run on the node [n]. *)
Definition on_node {S} (m : M AccNode unit) (n : AccNode) : M S AccNode :=
  match m n with
  | (Ok _, n') => mret n'
  | (Raise e, _) => raise e
  end.

(** [updateParamsDict(params)]: the entries of [params] win. *)
Definition updateParamsDict (params : gmap string pyval) (self : AccNode) : AccNode :=
  set_paramsDict (params ∪ acc_paramsDict self) self.

(** [self.zeroDistance]. *)
Definition zeroDistance : Q := 0.00001.

(** [accSeq.getNodes()]. *)
Definition getNodes : M Factory (list AccNode) :=
  f ← get; mret (linacNodes (accSeq f)).

(** [accSeq.addNode(node, index)]. *)
Definition accSeq_addNode (node : AccNode) (index : Z) : M Factory unit :=
  modify (fun f => set_accSeq (Sequence_addNode node index (accSeq f)) f).

(** [l.index(node)], nodes being compared by identity. *)
Fixpoint index_of (id : nat) (l : list AccNode) : result Z :=
  match l with
  | [] => Raise ValueError
  | n :: rest =>
      if decide (oid n = id) then Ok 0%Z
      else match index_of id rest with
           | Ok i => Ok (i + 1)%Z
           | Raise e => Raise e
           end
  end.

(** [l.remove(node)], nodes being compared by identity. *)
Fixpoint remove_node (id : nat) (l : list AccNode) : result (list AccNode) :=
  match l with
  | [] => Raise ValueError
  | n :: rest =>
      if decide (oid n = id) then Ok rest
      else match remove_node id rest with
           | Ok rest' => Ok (n :: rest')
           | Raise e => Raise e
           end
  end.

(** [node.getParam("pos")] as a number. *)
Definition node_pos (n : AccNode) : result Q := getFloat (acc_paramsDict n) "pos".

(** [RF_Cavity.addRF_GapNode(rfGap)] for the cavity number [c]: the gap
    is appended, told its cavity, and flagged first when it is alone. *)
Definition addRF_GapNode (c : nat) (cav : RF_Cavity) (rfGap : AccNode) : RF_Cavity * AccNode :=
  let gaps := rfGaps cav ++ [oid rfGap] in
  let cav := mkRF_Cavity (cav_name cav) (cav_paramsDict cav) gaps in
  let rfGap := node_setParam "rfCavity" (PyCavity c) rfGap in
  if decide (List.length gaps = 1%nat) then (cav, set_isFirstGap true rfGap)
  else (cav, set_isFirstGap false rfGap).

(** The branch of the element loop for a "QUAD". *)
Definition make_quad (node : ParserNode) : M Factory unit :=
  id ← new_oid;
  let accNode := Quad_init id (pn_name node) in
  let accNode := updateParamsDict (pn_paramsDict node) accNode in
  L ← lift (pn_float node "length");
  accNode ← on_node (setLength L (-1)) accNode;
  field ← lift (pn_float node "field");
  let accNode := node_setParam "dB/dr" (PyFloat field) accNode in
  field ← lift (pn_float node "field");
  let accNode := node_setParam "field" (PyFloat field) accNode in
  accSeq_addNode accNode (-1).

(** The branch of the element loop for an "RFGAP"; [seq] is the parsed
    sequence the element belongs to. *)
Definition make_rf_gap (seq : ParserSeq) (node : ParserNode) : M Factory unit :=
  id ← new_oid;
  let accNode := BaseRF_Gap_init id (pn_name node) in
  let accNode := updateParamsDict (pn_paramsDict node) accNode in
  gapOffset ← lift (pn_float node "gapOffset");
  let accNode := node_setParam "gapOffset" (PyFloat gapOffset) accNode in
  gapLength ← lift (pn_float node "gapLength");
  accNode ← on_node (setLength gapLength (-1)) accNode;
  amp ← lift (pn_float node "amp");
  let accNode := node_setParam "amp" (PyFloat amp) accNode in
  E0TL ← lift (pn_float node "E0TL");
  let accNode := node_setParam "E0TL" (PyFloat (0.001 * E0TL)) accNode in
  let accNode := node_setParam "length" (PyFloat gapLength) accNode in
  let accNode := node_setParam "gapLength" (PyFloat gapLength) accNode in
  modePhase ← lift (pn_float node "modePhase");
  let accNode := node_setParam "modePhase" (PyFloat modePhase) accNode in
  rf_cav_name ← lift (getParam (pn_paramsDict node) "parentCvaity");
  rf_cav_name ← lift (as_str rf_cav_name);
  f ← get;
  accNode ← (if bool_decide (rf_cav_name ∈ rf_cav_names f) then mret accNode
             else
               firstPhase ← lift (getParam (acc_paramsDict accNode) "firstPhase");
               firstPhase ← lift (float firstPhase);
               let accNode := node_setParam "firstPhase" (PyFloat ((math_pi / 180) * firstPhase)) accNode in
               modify (fun f => set_rf_cav_names (rf_cav_names f ++ [rf_cav_name]) f);;
               let accRF_Cav := RF_Cavity_init rf_cav_name in
               firstPhase ← lift (getParam (acc_paramsDict accNode) "firstPhase");
               let accRF_Cav := cav_setParam "designPhase" firstPhase accRF_Cav in
               let accRF_Cav := cav_setParam "phase" firstPhase accRF_Cav in
               let accRF_Cav := cav_setParam "designAmp" (PyFloat 1) accRF_Cav in
               let accRF_Cav := cav_setParam "Amp" (PyFloat 1) accRF_Cav in
               rfFrequency ← lift (getParam (ps_paramsDict seq) "rfFrequency");
               let accRF_Cav := cav_setParam "frequency" rfFrequency accRF_Cav in
               modify (fun f => set_accRF_Cavs (accRF_Cavs f ++ [accRF_Cav]) f);;
               mret accNode);
  f ← get;
  let last := (Z.of_nat (List.length (accRF_Cavs f)) - 1)%Z in
  accRF_Cav ← lift (list_get (accRF_Cavs f) last);
  let '(accRF_Cav, accNode) := addRF_GapNode (Z.to_nat last) accRF_Cav accNode in
  modify (fun f => set_accRF_Cavs (<[Z.to_nat last := accRF_Cav]> (accRF_Cavs f)) f);;
  accSeq_addNode accNode (-1).

(** The body of the element loop (lines 210-256): [i] is the place of
    the element in the list. *)
Definition classify (seq : ParserSeq) (i : nat) (node : ParserNode) : M Factory unit :=
  pos ← lift (pn_float node "pos");
  let node := mkParserNode (pn_name node) (setParam (pn_paramsDict node) "pos" (PyFloat pos)) in
  type ← lift (pn_getType node);
  if String.eqb type "QUAD" then make_quad node
  else if String.eqb type "RFGAP" then make_rf_gap seq node
  else
    length ← lift (getParam (pn_paramsDict node) "length");
    (if py_ne_zero length
     then orbitFinalize "The LinacLatticeFactory method getLinacAccLattice(names): there is a strange element!"
     else mret tt);;
    modify (fun f => set_thinNodes (thinNodes f ++ [(i, node)]) f).

(** A new drift of the sequence, with its length and centre. *)
Definition new_drift (L pos : Q) : M Factory AccNode :=
  f ← get;
  id ← new_oid;
  let drift := Drift_init id (seq_name (accSeq f) ++ ":drift") in
  drift ← on_node (setLength L (-1)) drift;
  mret (node_setParam "pos" (PyFloat pos) drift).

Definition seq_length : M Factory Q :=
  f ← get; lift (getFloat (seq_paramsDict (accSeq f)) "length").

(** The drift before the first node (lines 264-280). *)
Definition drift_before_first (firstNode : AccNode) : M Factory unit :=
  L ← lift (getLength firstNode (-1));
  pos ← lift (node_pos firstNode);
  if Qlt_le_dec zeroDistance (Qabs (L / 2 - pos)) then
    if Qlt_le_dec pos (L / 2) then
      orbitFinalize "The LinacLatticeFactory method getLinacAccLattice(names): the first node is too long!"
    else
      let length := pos - L / 2 in
      drift ← new_drift length (length / 2);
      accSeq_addNode drift 0
  else mret tt.

(** The drift after the last node (lines 283-303). *)
Definition drift_after_last (lastNode : AccNode) : M Factory unit :=
  L ← lift (getLength lastNode (-1));
  pos ← lift (node_pos lastNode);
  seqL ← seq_length;
  if Qlt_le_dec zeroDistance (Qabs (L / 2 + pos - seqL)) then
    if Qlt_le_dec seqL (L / 2 + pos) then
      orbitFinalize "The LinacLatticeFactory method getLinacAccLattice(names): the last node is too long!"
    else
      let length := seqL - (pos + L / 2) in
      drift ← new_drift length (pos + (L + length) / 2);
      accSeq_addNode drift (-1)
  else mret tt.

(** The body of the loop over the pairs of neighbours (lines 305-326). *)
Definition drift_between (accNode0 accNode1 : AccNode) : M Factory unit :=
  pos1 ← lift (node_pos accNode1);
  L1 ← lift (getLength accNode1 (-1));
  pos0 ← lift (node_pos accNode0);
  L0 ← lift (getLength accNode0 (-1));
  let dist := pos1 - L1 / 2 - (pos0 + L0 / 2) in
  if Qlt_le_dec dist 0 then
    orbitFinalize "The LinacLatticeFactory method getLinacAccLattice(names): two nodes are overlapping!"
  else if Qlt_le_dec zeroDistance dist then
    drift ← new_drift dist (pos0 + (L0 + dist) / 2);
    nodes ← getNodes;
    ind_of_node ← lift (index_of (oid accNode1) nodes);
    accSeq_addNode drift ind_of_node
  else mret tt.

(** The neighbours of a list: [(l[i], l[i+1])] for [i] in [range(len(l)-1)]. *)
Fixpoint pairs {A} (l : list A) : list (A * A) :=
  match l with
  | a :: (b :: _) as rest => (a, b) :: pairs rest
  | _ => []
  end.

(** [l[len(l)-1]]. *)
Definition list_last {A} (l : list A) : result A :=
  match l with
  | [] => Raise IndexError
  | _ => list_get l (Z.of_nat (List.length l) - 1)
  end.

(** The drifts of a sequence (lines 260-326). *)
Definition insert_drifts : M Factory unit :=
  copyAccNodes ← getNodes;
  firstNode ← lift (list_get copyAccNodes 0);
  lastNode ← lift (list_last copyAccNodes);
  drift_before_first firstNode;;
  drift_after_last lastNode;;
  for_each (pairs copyAccNodes) (fun p => drift_between (fst p) (snd p)).

(** ** Thin elements (lines 334-409) *)

(** The node made for a thin element: a dipole corrector, or a marker. *)
Definition make_thin (node : ParserNode) : M Factory AccNode :=
  type ← lift (pn_getType node);
  if String.eqb type "DCV" || String.eqb type "DCH" then
    id ← new_oid;
    let accNode := if String.eqb type "DCV" then DCorrectorV_init id (pn_name node)
                   else DCorrectorH_init id (pn_name node) in
    effLength ← lift (pn_float node "effLength");
    mret (node_setParam "effLength" (PyFloat effLength) accNode)
  else
    id ← new_oid;
    let accNode := MarkerLinacNode_init id (pn_name node) in
    mret (updateParamsDict (pn_paramsDict node) accNode).

(** [addChildNode(node, BODY, part_index, AFTER)] of the library: the
    child joins the children kept after that part; a negative index
    counts from the last part. *)
Definition addChildNode (child : AccNode) (part_index : Z) (self : AccNode) : result AccNode :=
  let k := acc_nParts self in
  if ((part_index <? - k) || (k <=? part_index))%Z then Raise IndexError
  else
    let i := if (part_index <? 0)%Z then (part_index + k)%Z else part_index in
    Ok (set_bodyChildren (bodyChildren self ++ [(i, child)]) self).

(** The change of the node with identity [id] where it stands in the
    sequence: the list holds the object itself. *)
Fixpoint update_node (id : nat) (change : AccNode -> result AccNode) (l : list AccNode)
  : result (list AccNode) :=
  match l with
  | [] => Ok []
  | n :: rest =>
      if decide (oid n = id) then
        match change n with
        | Ok n' => Ok (n' :: rest)
        | Raise e => Raise e
        end
      else match update_node id change rest with
           | Ok rest' => Ok (n :: rest')
           | Raise e => Raise e
           end
  end.

(** The test of the loop over the quads for one thin element
    (lines 341-356); the position, length and parts of a quad do not
    change while the loop runs. *)
Definition place_in_quad (node : nat * ParserNode) (quad : AccNode) : M Factory unit :=
  position ← lift (getFloat (pn_paramsDict (snd node)) "pos");
  pos ← lift (node_pos quad);
  L ← lift (getLength quad (-1));
  let nParts := acc_nParts quad in
  if (if Qlt_le_dec (Qabs (position - pos)) zeroDistance then true else false)
     || ((if Qlt_le_dec (pos - L / 2) position then true else false)
         && (if Qlt_le_dec position (pos + L / 2) then true else false))
  then
    accNode ← make_thin (snd node);
    let accNode := node_setParam "pos" (PyFloat pos) accNode in
    f ← get;
    nodes ← lift (update_node (oid quad) (addChildNode accNode (nParts / 2 - 1)%Z) (linacNodes (accSeq f)));
    put (set_accSeq (mkSequence (seq_name (accSeq f)) (seq_paramsDict (accSeq f)) nodes) f);;
    modify (fun f => set_usedThinNodes (usedThinNodes f ++ [node]) f)
  else mret tt.

(** [thinNodes.remove(node)], elements being compared by identity. *)
Fixpoint remove_thin (id : nat) (l : list (nat * ParserNode)) : result (list (nat * ParserNode)) :=
  match l with
  | [] => Raise ValueError
  | n :: rest =>
      if decide (fst n = id) then Ok rest
      else match remove_thin id rest with
           | Ok rest' => Ok (n :: rest')
           | Raise e => Raise e
           end
  end.

(** [for node in usedThinNodes: thinNodes.remove(node)]. *)
Definition remove_used : M Factory unit :=
  f ← get;
  for_each (usedThinNodes f) (fun node =>
    f ← get;
    rest ← lift (remove_thin (fst node) (thinNodes f));
    put (set_thinNodes rest f)).

(** The thin elements that lie in a quad become its children
    (lines 334-359). *)
Definition place_in_quads : M Factory unit :=
  nodes ← getNodes;
  let accQuads := filter (fun accNode => cls accNode = Quad_cls) nodes in
  modify (set_usedThinNodes []);;
  f ← get;
  for_each (thinNodes f) (fun node =>
    for_each accQuads (fun quad => place_in_quad node quad));;
  remove_used.

(** [isinstance(accNode, Drift)]. *)
Definition is_Drift (n : AccNode) : bool := bool_decide (cls n = Drift_cls).

(** [accNode.getParam("pos") - accNode.getLength()/2.0]. *)
Definition leading_edge (n : AccNode) : result Q :=
  match node_pos n with
  | Ok pos =>
      match getLength n (-1) with
      | Ok L => Ok (pos - L / 2)
      | Raise e => Raise e
      end
  | Raise e => Raise e
  end.

(** The [while] loop of [__getDriftThinNode], at most [fuel] rounds. *)
Fixpoint search_loop (fuel : nat) (position : Q) (nodes : list AccNode)
    (ind_start ind_stop : Z) : result Z :=
  if (1 <? ind_stop - ind_start)%Z then
    match fuel with
    | O => Raise OutOfFuel
    | S fuel =>
        let ind := ((ind_stop + ind_start) / 2)%Z in
        match list_get nodes ind with
        | Ok accNode =>
            match leading_edge accNode with
            | Ok pos =>
                if Qlt_le_dec pos position
                then search_loop fuel position nodes ind ind_stop
                else search_loop fuel position nodes ind_start ind
            | Raise e => Raise e
            end
        | Raise e => Raise e
        end
    end
  else Ok ind_start.

(** [__getDriftThinNode(position, accSeq)]: None, or the drift found. *)
Definition getDriftThinNode (position : Q) (nodes : list AccNode) : result (option AccNode) :=
  let resNode : option AccNode := None in
  let ind_start := 0%Z in
  let ind_stop := (Z.of_nat (List.length nodes) - 1)%Z in
  match search_loop (List.length nodes) position nodes ind_start ind_stop with
  | Raise e => Raise e
  | Ok ind_start =>
      match list_get nodes ind_start with
      | Raise e => Raise e
      | Ok found =>
          let resNode := if is_Drift found then Some found else resNode in
          match resNode with
          | Some _ => Ok resNode
          | None =>
              match list_last nodes with
              | Raise e => Raise e
              | Ok accNode =>
                  if is_Drift accNode then
                    match leading_edge accNode with
                    | Raise e => Raise e
                    | Ok pos => if Qle_bool pos position then Ok (Some accNode) else Ok resNode
                    end
                  else Ok resNode
              end
          end
      end
  end.

(** The body of the loop that puts a thin element at a drift
    (lines 364-399). *)
Definition place_in_drift (node : nat * ParserNode) : M Factory unit :=
  position ← lift (getFloat (pn_paramsDict (snd node)) "pos");
  nodes ← getNodes;
  driftNode ← lift (getDriftThinNode position nodes);
  match driftNode with
  | None => mret tt
  | Some driftNode =>
      modify (fun f => set_usedThinNodes (usedThinNodes f ++ [node]) f);;
      pos ← lift (node_pos driftNode);
      L ← lift (getLength driftNode (-1));
      nodes ← getNodes;
      ind_insertion ← lift (index_of (oid driftNode) nodes);
      accNode ← make_thin (snd node);
      let accNode := node_setParam "pos" (PyFloat position) accNode in
      if Qlt_le_dec (Qabs (position - (pos - L / 2))) zeroDistance then
        accSeq_addNode accNode ind_insertion
      else if Qlt_le_dec (Qabs (position - (pos + L / 2))) zeroDistance then
        accSeq_addNode accNode (ind_insertion + 1)
      else
        let length0 := position - (pos - L / 2) in
        drift0 ← new_drift length0 ((pos - L / 2) + length0 / 2);
        let length1 := (pos + L / 2) - position in
        drift1 ← new_drift length1 ((pos + L / 2) - length1 / 2);
        f ← get;
        rest ← lift (remove_node (oid driftNode) (linacNodes (accSeq f)));
        put (set_accSeq (mkSequence (seq_name (accSeq f)) (seq_paramsDict (accSeq f)) rest) f);;
        accSeq_addNode drift0 ind_insertion;;
        accSeq_addNode accNode (ind_insertion + 1);;
        accSeq_addNode drift1 (ind_insertion + 2)
  end.

(** The thin elements left are put at the drifts (lines 363-404). *)
Definition place_in_drifts : M Factory unit :=
  modify (set_usedThinNodes []);;
  f ← get;
  for_each (thinNodes f) place_in_drift;;
  remove_used.

(** The nodes of the sequence go to the lattice (lines 411-418). *)
Definition assemble : M Factory unit :=
  nodes ← getNodes;
  for_each nodes (fun accNode =>
    pos ← lift (getParam (acc_paramsDict accNode) "pos");
    L ← lift (getLength accNode (-1));
    modify (fun f => set_linacAccLattice (addNode accNode (linacAccLattice f)) f));;
  modify (fun f => set_linacAccLattice (addSequence (accSeq f) (linacAccLattice f)) f).

(** [for i, x in enumerate(l)]. *)
Definition enumerate {A} (l : list A) : list (nat * A) := zip (seq 0 (List.length l)) l.

(** The body of the loop over the sequences (lines 196-419): it takes
    the position of the sequence and gives the position of the next. *)
Definition build_sequence (seqPosition : Q) (seq : ParserSeq) : M Factory Q :=
  let accSeq := Sequence_init (ps_name seq) in
  length ← lift (match getParam (ps_paramsDict seq) "length" with
                 | Ok v => float v
                 | Raise e => Raise e
                 end);
  let accSeq := seq_setParam "length" (PyFloat length) accSeq in
  let accSeq := seq_setParam "position" (PyFloat seqPosition) accSeq in
  let seqPosition := seqPosition + length in
  modify (set_accSeq accSeq);;
  modify (set_rf_cav_names []);;
  modify (set_thinNodes []);;
  for_each (enumerate (ps_nodes seq)) (fun node => classify seq (fst node) (snd node));;
  insert_drifts;;
  place_in_quads;;
  place_in_drifts;;
  assemble;;
  mret seqPosition.

(** [l.index(x)] on names. *)
Fixpoint index_name (name : string) (l : list string) : result Z :=
  match l with
  | [] => Raise ValueError
  | x :: rest =>
      if String.eqb x name then Ok 0%Z
      else match index_name name rest with
           | Ok i => Ok (i + 1)%Z
           | Raise e => Raise e
           end
  end.

(** The check that the names follow each other (lines 159-176). *)
Fixpoint check_names (seqencesLocalNames names : list string) (ind_old : Z) (count : Z)
  : result unit :=
  match names with
  | [] => Ok tt
  | name :: rest =>
      match index_name name seqencesLocalNames with
      | Raise e => Raise e
      | Ok ind =>
          if (ind <? 0)%Z || ((0 <? count)%Z && negb (ind =? ind_old + 1)%Z)
          then Raise (OrbitFinalize "The LinacLatticeFactory method getLinacAccLattice(names): sequence names array is wrong!")
          else check_names seqencesLocalNames rest ind (count + 1)%Z
      end
  end.

(** The loop over the sequences, the position being carried along. *)
Fixpoint build_sequences (seqPosition : Q) (seqs : list ParserSeq) : M Factory unit :=
  match seqs with
  | [] => mret tt
  | seq :: rest =>
      seqPosition ← build_sequence seqPosition seq;
      build_sequences seqPosition rest
  end.

(** [LinacLatticeFactory.getLinacAccLattice(names)]. *)
Definition getLinacAccLattice (ltree : LinacStructTree) (names : list string)
  : result LinacAccLattice :=
  match names with
  | [] => Raise (OrbitFinalize "The LinacLatticeFactory method getLinacAccLattice(names): you have to specify the names array!")
  | name0 :: _ =>
      let seqencesLocalNames := ps_name <$> lt_seqs ltree in
      match check_names seqencesLocalNames names (-1) 0 with
      | Raise e => Raise e
      | Ok _ =>
          match index_name name0 seqencesLocalNames with
          | Raise e => Raise e
          | Ok ind_start =>
              let sequences := take (List.length names) (drop (Z.to_nat ind_start) (lt_seqs ltree)) in
              let start := mkFactory 0 [] [] [] [] (Sequence_init "none")
                             (LinacAccLattice_init (lt_name ltree)) in
              match build_sequences 0 sequences start with
              | (Raise e, _) => Raise e
              | (Ok _, f) =>
                  Ok (fold_left (fun lat cav => addRF_Cavity cav lat) (accRF_Cavs f)
                        (linacAccLattice f))
              end
          end
      end
  end.

(** ** Notions the properties are stated with *)

(** The node [self] with the part lengths [arr]. *)
Definition with_lengthArr (arr : list Q) (self : AccNode) : AccNode :=
  set_parts (acc_nParts self) (acc_length self) arr self.

(** The sum of a list of lengths. *)
Definition sum_Q (l : list Q) : Q := fold_right Qplus 0 l.

(** A transport kernel that leaves the bunch as it is; the examples are
    run with it. *)
Definition still_kernel : TransportKernel :=
  {| TPB_drift := fun b _ => b;
     TPB_quad1 := fun b _ _ => b;
     TPB_quad2 := fun b _ => b;
     TPB_multp := fun b _ _ _ => b;
     TPB_kick := fun b _ _ _ => b;
     TPB_rotatexy := fun b _ => b;
     TPB_quadfringeIN := fun b _ => b;
     TPB_quadfringeOUT := fun b _ => b;
     TPB_multpfringeIN := fun b _ _ _ => b;
     TPB_multpfringeOUT := fun b _ _ _ => b;
     momentum := fun _ => 1;
     math_cos := fun _ => 1 |}.

(** The parameter "isDesignSetUp" of the cavity number [c], if any. *)
Definition design_flag (w : World) (c : nat) : option pyval :=
  cav ← rfCavities (lattice w) !! c; cav_paramsDict cav !! "isDesignSetUp".

(** The parameter [key] of the cavity number [c], if any. *)
Definition cavity_param (w : World) (c : nat) (key : string) : option pyval :=
  cav ← rfCavities (lattice w) !! c; cav_paramsDict cav !! key.

(** The bunch [b] with the kinetic energy [e] of its synchronous particle. *)
Definition with_kinEnergy (e : Q) (b : Bunch) : Bunch :=
  mkBunch (particles b) (mkSyncPart (sync_time (syncParticle b)) e)
    (bunch_charge b) (bunch_mass b).

(** The gap phase of the source: the phase the RF has reached [dt]
    after the reference time, from the reference phase [rfPhase]. *)
Definition gap_phase (frequency dt rfPhase : Q) : Q :=
  math_fmod (frequency * dt * 2 * math_pi + rfPhase) (2 * math_pi).

(** The bunch [b] with the time [t] of its synchronous particle. *)
Definition with_time (t : Q) (b : Bunch) : Bunch :=
  mkBunch (particles b) (mkSyncPart t (sync_kinEnergy (syncParticle b)))
    (bunch_charge b) (bunch_mass b).

(** From [w] to [w'] no bunch but [target] has changed, and no bunch
    was created or lost. *)
Definition only_bunch (target : nat) (w w' : World) : Prop :=
  (forall k, k <> target -> bunches w' !! k = bunches w !! k) /\
  (is_Some (bunches w' !! target) <-> is_Some (bunches w !! target)).

(** ** Examples *)

(** The parameter bag of a parsed element. *)
Definition params (l : list (string * pyval)) : gmap string pyval := list_to_map l.

Definition parsed_quad (name : string) (pos length field : Q) : ParserNode :=
  mkParserNode name
    (params [("type", PyStr "QUAD"); ("pos", PyFloat pos); ("length", PyFloat length);
             ("field", PyFloat field)]).

Definition parsed_gap (name cavity : string) (pos gapLength : Q) : ParserNode :=
  mkParserNode name
    (params [("type", PyStr "RFGAP"); ("pos", PyFloat pos); ("length", PyFloat gapLength);
             ("gapLength", PyFloat gapLength); ("gapOffset", PyFloat 0); ("amp", PyFloat 1);
             ("E0TL", PyFloat 2); ("modePhase", PyFloat 0); ("parentCvaity", PyStr cavity);
             ("firstPhase", PyFloat 90)]).

Definition parsed_marker (name : string) (pos : Q) : ParserNode :=
  mkParserNode name
    (params [("type", PyStr "MARKER"); ("pos", PyFloat pos); ("length", PyFloat 0)]).

(** One sequence of length 10 with the elements [nodes]. *)
Definition one_sequence (nodes : list ParserNode) : LinacStructTree :=
  mkLinacStructTree "linac"
    [mkParserSeq "SEQ" (params [("length", PyFloat 10); ("rfFrequency", PyFloat 400000000)])
       nodes].

(** The scenario of the specification: a quad, an RF gap, a marker. *)
Definition scenario_tree : LinacStructTree :=
  one_sequence [parsed_quad "Q1" 1 2 3; parsed_gap "G1" "C1" 5 0; parsed_marker "M1" 1].

Definition scenario_lattice : LinacAccLattice :=
  match getLinacAccLattice scenario_tree ["SEQ"%string] with
  | Ok lat => lat
  | Raise _ => LinacAccLattice_init "none"
  end.

Definition scenario_bunch : Bunch := mkBunch [[1; 0; 0; 0; 0; 0]] (mkSyncPart 7 1) 1 1.

(** The bunch number 0 and the lattice of the scenario. *)
Definition scenario_world : World := mkWorld {[ 0%nat := scenario_bunch ]} scenario_lattice.

(** Two cavities whose gaps alternate in the element list. *)
Definition interleaved_tree : LinacStructTree :=
  one_sequence [parsed_gap "G1" "A" 1 0; parsed_gap "G2" "B" 2 0; parsed_gap "G3" "A" 3 0].

Definition interleaved_lattice : LinacAccLattice :=
  match getLinacAccLattice interleaved_tree ["SEQ"%string] with
  | Ok lat => lat
  | Raise _ => LinacAccLattice_init "none"
  end.

(** What is to be seen of an RF gap: name, first-gap flag, cavity. *)
Definition gap_summary (n : AccNode) : string * bool * option pyval :=
  (acc_name n, isFirstGap n, acc_paramsDict n !! "rfCavity").

(** ** Tiling *)

(** [accNode.getParam("pos") + accNode.getLength()/2.0]. *)
Definition trailing_edge (n : AccNode) : result Q :=
  match node_pos n with
  | Ok pos =>
      match getLength n (-1) with
      | Ok L => Ok (pos + L / 2)
      | Raise e => Raise e
      end
  | Raise e => Raise e
  end.

(** The thin elements: markers and dipole correctors. *)
Definition is_thin (n : AccNode) : bool :=
  match cls n with
  | MarkerLinacNode_cls | DCorrectorH_cls | DCorrectorV_cls => true
  | _ => false
  end.

(** The quads, RF gaps and drifts of a node list. *)
Definition thick (nodes : list AccNode) : list AccNode :=
  filter (fun n => is_thin n = false) nodes.

(** The nodes lead from the position [from] to the position [to]: the
    leading edge of the first node is within [eps] of [from], the
    leading edge of every other node is within [eps] of the trailing
    edge of the node before it, and [to] is within [eps] of the last
    trailing edge. *)
Fixpoint chained (eps from : Q) (nodes : list AccNode) (to : Q) : Prop :=
  match nodes with
  | [] => Qabs (to - from) <= eps
  | n :: rest =>
      exists lead trail,
        leading_edge n = Ok lead /\ trailing_edge n = Ok trail /\
        Qabs (lead - from) <= eps /\ chained eps trail rest to
  end.

(** The extents of the nodes tile the interval from 0 to [L] within
    [eps], as far as their edges say: there is a node, and the nodes
    lead from 0 to [L].  The lengths are not looked at. *)
Definition tiles (eps L : Q) (nodes : list AccNode) : Prop :=
  nodes <> [] /\ chained eps 0 nodes L.

(** [chained], as a test. *)
Fixpoint chainedb (eps from : Q) (nodes : list AccNode) (to : Q) : bool :=
  match nodes with
  | [] => Qle_bool (Qabs (to - from)) eps
  | n :: rest =>
      match leading_edge n, trailing_edge n with
      | Ok lead, Ok trail => Qle_bool (Qabs (lead - from)) eps && chainedb eps trail rest to
      | _, _ => false
      end
  end.

(** The nodes lead from [from] exactly to the position [t]. *)
Fixpoint linked (eps from : Q) (nodes : list AccNode) (t : Q) : Prop :=
  match nodes with
  | [] => t == from
  | n :: rest =>
      exists lead trail,
        leading_edge n = Ok lead /\ trailing_edge n = Ok trail /\
        Qabs (lead - from) <= eps /\ linked eps trail rest t
  end.

(** An RF gap of length 1 at the end of the sequence and two markers
    on both sides of its leading edge, 9e-6 away from it. *)
Definition stacked_tree : LinacStructTree :=
  one_sequence [parsed_gap "G1" "C1" 9.5 1; parsed_marker "K" 9.000009;
                parsed_marker "J" 8.999991].

Definition stacked_lattice : LinacAccLattice :=
  match getLinacAccLattice stacked_tree ["SEQ"%string] with
  | Ok lat => lat
  | Raise _ => LinacAccLattice_init "none"
  end.

(** An RF gap from 9 to 10 and a marker in the middle of it. *)
Definition inside_tree : LinacStructTree :=
  one_sequence [parsed_gap "G1" "C1" 9.5 1; parsed_marker "K" 9.5].

Definition inside_lattice : LinacAccLattice :=
  match getLinacAccLattice inside_tree ["SEQ"%string] with
  | Ok lat => lat
  | Raise _ => LinacAccLattice_init "none"
  end.

(** The sequence parameter "length". *)
Definition Sequence_getLength (s : Sequence) : result Q := getFloat (seq_paramsDict s) "length".

(** The drift the factory makes in the state [f]. *)
Definition the_drift (f : Factory) (L pos : Q) : AccNode :=
  node_setParam "pos" (PyFloat pos)
    (set_parts 1 L (even_parts 1 L)
       (Drift_init (next_oid f) (seq_name (accSeq f) ++ ":drift"))).

(** The nodes of the sequence under construction. *)
Definition seq_nodes (f : Factory) : list AccNode := linacNodes (accSeq f).

(** The object ids of the nodes are distinct and were given out. *)
Definition distinct_oids (f : Factory) : Prop :=
  NoDup (oid <$> seq_nodes f) /\ Forall (fun n => (oid n < next_oid f)%nat) (seq_nodes f).

(** From [f] to [f'] the parameters of the sequence and the lattice
    built so far stay, and no object id is taken back. *)
Definition same_sequence (f f' : Factory) : Prop :=
  seq_paramsDict (accSeq f') = seq_paramsDict (accSeq f) /\
  linacAccLattice f' = linacAccLattice f /\
  (next_oid f <= next_oid f')%nat.

(** What the tiling of a node depends on: identity, class, position, length. *)
Definition geometry (n : AccNode) : nat * NodeClass * result Q * Q :=
  (oid n, cls n, node_pos n, acc_length n).

(** From [f] to [f'] the nodes of the sequence keep their place,
    identity, class, position and length. *)
Definition same_geometry (f f' : Factory) : Prop :=
  geometry <$> seq_nodes f' = geometry <$> seq_nodes f /\ same_sequence f f'.

(** The sequence under construction has the length [L], and its quads,
    RF gaps and drifts tile it. *)
Definition tiled (L : Q) (f : Factory) : Prop :=
  Sequence_getLength (accSeq f) = Ok L /\ distinct_oids f /\
  tiles zeroDistance L (thick (seq_nodes f)).

(** The sequences of a lattice are tiled by their quads, RF gaps and drifts. *)
Definition tiled_sequence (seq : Sequence) : Prop :=
  exists L, Sequence_getLength seq = Ok L /\ tiles zeroDistance L (thick (linacNodes seq)).

(** The object ids of the nodes [l] are distinct and below [k]. *)
Definition distinct_below (k : nat) (l : list AccNode) : Prop :=
  NoDup (oid <$> l) /\ Forall (fun n => (oid n < k)%nat) l.

(** [m] takes every state to a state related to it by [R], whether it
    returns or raises. *)
Definition preserves {S A} (R : S -> S -> Prop) (m : M S A) : Prop :=
  forall s, R s (snd (m s)).

(** The flags "isDesignSetUp" of all cavities are as before. *)
Definition same_design_flags (w w' : World) : Prop :=
  forall c, design_flag w' c = design_flag w c.

(** ** What the factory makes of the parsed elements *)

(** The quads and RF gaps of a node list: the nodes made from parsed
    elements that have a length. *)
Definition elements (nodes : list AccNode) : list AccNode :=
  filter (fun n => cls n = Quad_cls \/ cls n = BaseRF_Gap_cls) nodes.

(** Name, position and length of a node. *)
Definition outline (n : AccNode) : string * result Q * Q :=
  (acc_name n, node_pos n, acc_length n).

(** Name, position and length of a parsed "QUAD" or "RFGAP", as the
    element loop reads them (lines 211-225); None for another element. *)
Definition parsed_element (node : ParserNode) : option (string * result Q * Q) :=
  match pn_getType node, pn_float node "pos" with
  | Ok type, Ok pos =>
      if String.eqb type "QUAD" then
        match pn_float node "length" with
        | Ok L => Some (pn_name node, Ok pos, L)
        | Raise _ => None
        end
      else if String.eqb type "RFGAP" then
        match pn_float node "gapLength" with
        | Ok L => Some (pn_name node, Ok pos, L)
        | Raise _ => None
        end
      else None
  | _, _ => None
  end.

(** The parsed sequences the factory works on (lines 177-178). *)
Definition selected (ltree : LinacStructTree) (names : list string) : list ParserSeq :=
  match names with
  | [] => []
  | name0 :: _ =>
      match index_name name0 (ps_name <$> lt_seqs ltree) with
      | Ok ind_start => take (List.length names) (drop (Z.to_nat ind_start) (lt_seqs ltree))
      | Raise _ => []
      end
  end.

(** The sequences start where the one before them ends, the first at [p]. *)
Fixpoint positions_from (p : Q) (seqs : list Sequence) : Prop :=
  match seqs with
  | [] => True
  | s :: rest =>
      getFloat (seq_paramsDict s) "position" = Ok p /\
      exists L, Sequence_getLength s = Ok L /\ positions_from (p + L) rest
  end.

(** The nodes follow each other from [from] to [to] without overlap: no
    leading edge lies before [from] or before the trailing edge of the
    node before it, and the last trailing edge does not lie beyond [to]. *)
Fixpoint within (from : Q) (nodes : list AccNode) (to : Q) : Prop :=
  match nodes with
  | [] => from <= to
  | n :: rest =>
      exists lead trail,
        leading_edge n = Ok lead /\ trailing_edge n = Ok trail /\
        from <= lead /\ within trail rest to
  end.

(** A parsed element the element loop takes: its position is a number,
    and it is a "QUAD", an "RFGAP", or an element of length zero. *)
Definition accepted (node : ParserNode) : Prop :=
  exists pos type,
    pn_float node "pos" = Ok pos /\ pn_getType node = Ok type /\
    (type = "QUAD"%string \/ type = "RFGAP"%string \/
     exists length, getParam (pn_paramsDict node) "length" = Ok length /\
                    py_ne_zero length = false).

(** A sequence of the lattice and the parsed sequence it is made from. *)
Definition built_from (s : Sequence) (p : ParserSeq) : Prop :=
  seq_name s = ps_name p /\
  (match getParam (ps_paramsDict p) "length" with
   | Ok v => float v
   | Raise e => Raise e
   end) = Sequence_getLength s /\
  outline <$> elements (linacNodes s) = omap parsed_element (ps_nodes p) /\
  (exists L, Sequence_getLength s = Ok L /\
             within (- zeroDistance) (elements (linacNodes s)) (L + zeroDistance)) /\
  Forall accepted (ps_nodes p) /\
  omap parsed_element (ps_nodes p) <> [].

(** From [f] to [f'] the sequence keeps its name, its quads and RF gaps
    keep their order, names, positions and lengths, and the cavities
    stay as they are. *)
Definition same_elements (f f' : Factory) : Prop :=
  seq_name (accSeq f') = seq_name (accSeq f) /\
  outline <$> elements (seq_nodes f') = outline <$> elements (seq_nodes f) /\
  accRF_Cavs f' = accRF_Cavs f.

(** A linac of three sequences; the cavity C1 is named in two of them. *)
Definition linac_tree : LinacStructTree :=
  mkLinacStructTree "linac"
    [mkParserSeq "MEBT" (params [("length", PyFloat 4); ("rfFrequency", PyFloat 400000000)])
       [parsed_quad "Q1" 1 2 3; parsed_marker "M1" 3.5];
     mkParserSeq "DTL" (params [("length", PyFloat 10); ("rfFrequency", PyFloat 400000000)])
       [parsed_quad "Q2" 1 2 3; parsed_gap "G1" "C1" 5 0; parsed_marker "M2" 1];
     mkParserSeq "CCL" (params [("length", PyFloat 6); ("rfFrequency", PyFloat 800000000)])
       [parsed_gap "G2" "C1" 3 1; parsed_gap "G3" "C1" 5 1]].

Definition linac_lattice : LinacAccLattice :=
  match getLinacAccLattice linac_tree ["DTL"; "CCL"]%string with
  | Ok lat => lat
  | Raise _ => LinacAccLattice_init "none"
  end.

(** The cavity a parsed "RFGAP" names. *)
Definition gap_cavity (node : ParserNode) : option string :=
  match pn_getType node with
  | Ok type =>
      if String.eqb type "RFGAP" then
        match getParam (pn_paramsDict node) "parentCvaity" with
        | Ok (PyStr name) => Some name
        | _ => None
        end
      else None
  | Raise _ => None
  end.

(** The names of [l] that are not in [seen], each where it comes first. *)
Fixpoint first_seen (seen : list string) (l : list string) : list string :=
  match l with
  | [] => []
  | x :: rest =>
      if bool_decide (x ∈ seen) then first_seen seen rest
      else x :: first_seen (seen ++ [x]) rest
  end.

(** The cavities the gaps of a parsed sequence name, in the order in
    which they are named first. *)
Definition cavity_names (p : ParserSeq) : list string :=
  first_seen [] (omap gap_cavity (ps_nodes p)).

(** A cavity of 400 MHz with the design phase 1, and the bunch number 0
    with it. *)
Definition kick_cavity : RF_Cavity :=
  cav_setParam "designPhase" (PyFloat 1)
    (cav_setParam "frequency" (PyFloat 400000000) (RF_Cavity_init "C1")).

Definition kick_world : World :=
  mkWorld {[ 0%nat := scenario_bunch ]}
    (addRF_Cavity kick_cavity (LinacAccLattice_init "linac")).

(** An RF gap of this cavity at its part 1, the first gap or a later one. *)
Definition kick_gap (first : bool) : AccNode :=
  set_activePartIndex 1
    (set_isFirstGap first
       (node_setParam "rfCavity" (PyCavity 0)
          (node_setParam "modePhase" (PyFloat 0)
             (node_setParam "E0TL" (PyFloat 0.002) (BaseRF_Gap_init 0 "G1"))))).

(** The setters of [RF_Cavity], each with the getter that goes with it
    (lines 1196-1258). *)
Definition RF_Cavity_accessors : list (string * string) :=
  [ ("setDesignSetUp", "istDesignSetUp");
    ("setFirstGapTime", "getFirstGapTime");
    ("setDesignArrivalTime", "getDesignArrivalTime");
    ("setDesignPhase", "getDesignPhase");
    ("setDesignAmp", "getDesignAmp");
    ("setPhase", "getPhase");
    ("setAmp", "getAmp");
    ("setFrequency", "getFrequency") ]%string.

(** A transport kernel for a particle at rest: the momentum is 0. *)
Definition rest_kernel : TransportKernel :=
  {| TPB_drift := fun b _ => b;
     TPB_quad1 := fun b _ _ => b;
     TPB_quad2 := fun b _ => b;
     TPB_multp := fun b _ _ _ => b;
     TPB_kick := fun b _ _ _ => b;
     TPB_rotatexy := fun b _ => b;
     TPB_quadfringeIN := fun b _ => b;
     TPB_quadfringeOUT := fun b _ => b;
     TPB_multpfringeIN := fun b _ _ _ => b;
     TPB_multpfringeOUT := fun b _ _ _ => b;
     momentum := fun _ => 0;
     math_cos := fun _ => 1 |}.

(** From [w] to [w'] the lattice, with its nodes, sequences and
    cavities, is the same. *)
Definition same_lattice (w w' : World) : Prop := lattice w' = lattice w.

(** The RF gap of the lattice of the scenario. *)
Definition scenario_gap : AccNode :=
  default (BaseRF_Gap_init 0 "G1")
    (head (filter (fun n => cls n = BaseRF_Gap_cls) (lat_nodes scenario_lattice))).

(** The factory at the marker of [inside_tree]: the state in which the
    loop that puts the thin elements at the drifts (line 364) starts. *)
Definition inside_factory : Factory :=
  let start := mkFactory 0 [] [] [] [] (Sequence_init "none") (LinacAccLattice_init "linac") in
  match lt_seqs inside_tree with
  | seq :: _ =>
      let accSeq := seq_setParam "position" (PyFloat 0)
                      (seq_setParam "length" (PyFloat 10) (Sequence_init (ps_name seq))) in
      snd ((modify (set_accSeq accSeq);;
            modify (set_rf_cav_names []);;
            modify (set_thinNodes []);;
            for_each (enumerate (ps_nodes seq)) (fun node => classify seq (fst node) (snd node));;
            insert_drifts;;
            place_in_quads;;
            modify (set_usedThinNodes [])) start)
  | [] => start
  end.

(** The marker K, as the loop meets it, and the drift from 0 to 9. *)
Definition inside_marker : nat * ParserNode :=
  default (0%nat, parsed_marker "K" 9.5) (head (thinNodes inside_factory)).

Definition inside_drift : AccNode :=
  default (Drift_init 0 "none") (head (seq_nodes inside_factory)).

(** The cavity has no design reference: its flag "isDesignSetUp" is False. *)
Definition no_design_reference (cav : RF_Cavity) : Prop :=
  cav_paramsDict cav !! "isDesignSetUp" = Some (PyBool false).

(** ** Extents *)

(** A result, reduced to lowest terms, for display. *)
Definition reduced (r : result Q) : option Q :=
  match r with
  | Ok x => Some (Qred x)
  | Raise _ => None
  end.

(** Name, leading edge, trailing edge and length of a node. *)
Definition extent (n : AccNode) : string * option Q * option Q * Q :=
  (acc_name n, reduced (leading_edge n), reduced (trailing_edge n), Qred (acc_length n)).

(** The RF gap and the marker of [inside_tree], moved to the middle of
    the sequence: a quad follows the gap, which is not the last node. *)
Definition between_tree : LinacStructTree :=
  one_sequence [parsed_gap "G1" "C1" 4.5 1; parsed_quad "Q1" 8 2 3; parsed_marker "K" 4.5].

(** The nodes lie apart between [from] and [to]: no node begins before
    [from], none ends before it begins, each begins where the one before
    it ends or later, and the last ends at [to] or before. *)
Fixpoint apart (from : Q) (nodes : list AccNode) (to : Q) : Prop :=
  match nodes with
  | [] => from <= to
  | n :: rest =>
      exists lead trail,
        leading_edge n = Ok lead /\ trailing_edge n = Ok trail /\
        from <= lead /\ lead <= trail /\ apart trail rest to
  end.

(** A parsed element the element loop can take, whatever [float] makes
    of its position: it has a position that is a number, a bool or a
    string, and it is a "QUAD", an "RFGAP", or an element whose length
    equals zero. *)
Definition taken (node : ParserNode) : Prop :=
  exists pos type,
    getParam (pn_paramsDict node) "pos" = Ok pos /\
    match pos with
    | PyFloat _ | PyBool _ | PyStr _ => True
    | _ => False
    end /\
    pn_getType node = Ok type /\
    (type = "QUAD"%string \/ type = "RFGAP"%string \/
     exists length, getParam (pn_paramsDict node) "length" = Ok length /\
                    py_ne_zero length = false).

(** The element is a "QUAD" or an "RFGAP". *)
Definition thick_element (node : ParserNode) : Prop :=
  pn_getType node = Ok "QUAD"%string \/ pn_getType node = Ok "RFGAP"%string.

(** The extents of the nodes of the lattice the factory returns, if it
    returns one. *)
Definition returned_extents (ltree : LinacStructTree) (names : list string)
  : option (list (string * option Q * option Q * Q)) :=
  match getLinacAccLattice ltree names with
  | Ok lat => Some (extent <$> lat_nodes lat)
  | Raise _ => None
  end.

(** ** Part lengths on the numbers of Python 2

    The lengths of a node are Python numbers: ints and floats, the
    floats being the doubles of IEEE 754 (binary64, rounding to nearest
    even), which are Rocq's primitive floats.  [Quad.initialize] and the
    methods of the library class [AccNode] it calls are given here on
    these numbers, on the part of a node they work on: the part count,
    the length and the list of part lengths. *)

Module Py2.

(** A Python 2 number: an int (or long) or a float. *)
Inductive num : Type :=
| Int (i : Z)
| Float (x : PrimFloat.float).

(** The double nearest to an integer. *)
Definition double_of_Z (i : Z) : PrimFloat.float :=
  FloatOps.SF2Prim (SpecFloat.binary_normalize FloatOps.prec FloatOps.emax i 0 false).

(** A number as a float, for an operation with a float: an int too
    large for a double raises [OverflowError]. *)
Definition to_float (a : num) : result PrimFloat.float :=
  match a with
  | Float x => Ok x
  | Int i =>
      let x := double_of_Z i in
      if PrimFloat.is_infinity x then Raise OverflowError else Ok x
  end.

(** [a / b]: the floor of the quotient for two ints, the quotient of
    the doubles otherwise; a divisor equal to zero raises. *)
Definition div (a b : num) : result num :=
  match a, b with
  | Int i, Int j =>
      if (j =? 0)%Z then Raise ZeroDivisionError else Ok (Int (i / j))
  | _, _ =>
      match to_float a, to_float b with
      | Ok x, Ok y =>
          if PrimFloat.is_zero y then Raise ZeroDivisionError
          else Ok (Float (PrimFloat.div x y))
      | Raise e, _ => Raise e
      | _, Raise e => Raise e
      end
  end.

(** [a + b]. *)
Definition add (a b : num) : result num :=
  match a, b with
  | Int i, Int j => Ok (Int (i + j))
  | _, _ =>
      match to_float a, to_float b with
      | Ok x, Ok y => Ok (Float (PrimFloat.add x y))
      | Raise e, _ => Raise e
      | _, Raise e => Raise e
      end
  end.


(** [a == b]. *)
Definition eqb (a b : num) : bool :=
  match a, b with
  | Int i, Int j => (i =? j)%Z
  | _, _ =>
      match to_float a, to_float b with
      | Ok x, Ok y => PrimFloat.eqb x y
      | _, _ => false
      end
  end.

(** What [AccNode] keeps of the lengths of a node. *)
Record Lengths : Type := mkLengths {
  nParts : Z;
  length : num;
  lengthArr : list num
}.

(** The parts share the node's length evenly. *)
Definition even_parts (k : Z) (L : num) : result (list num) :=
  if (k <=? 0)%Z then Ok []
  else match div L (Int k) with
       | Ok part => Ok (replicate (Z.to_nat k) part)
       | Raise e => Raise e
       end.

(** [AccNode.__init__]: one part, all lengths the float zero. *)
Definition AccNode_init : Lengths := mkLengths 1 (Float PrimFloat.zero) [Float PrimFloat.zero].

(** [setnParts(n)]. *)
Definition setnParts (k : Z) : M Lengths unit :=
  self ← get;
  arr ← lift (even_parts k (length self));
  put (mkLengths k (length self) arr).

(** [getLength(index = -1)]. *)
Definition getLength (self : Lengths) (index : Z) : result num :=
  if (index <? 0)%Z then Ok (length self)
  else list_get (lengthArr self) index.

(** [setLength(L, index = -1)]. *)
Definition setLength (L : num) (index : Z) : M Lengths unit :=
  self ← get;
  if (index <? 0)%Z then
    arr ← lift (even_parts (nParts self) L);
    put (mkLengths (nParts self) L arr)
  else
    arr ← lift (list_set (lengthArr self) index L);
    put (mkLengths (nParts self) (length self) arr).

(** [Quad.initialize()] (lines 822-845); [2.0] is the double of 2. *)
Definition Quad_initialize : M Lengths unit :=
  self ← get;
  let nParts := nParts self in
  (if (nParts <? 2)%Z && negb (nParts mod 2 =? 0)%Z
   then orbitFinalize "The Quad Combined Function class instance should have no less than 2 and even number of parts!"
   else mret tt);;
  total ← lift (getLength self (-1));
  step ← lift (div total (Int (nParts - 1)));
  lengthIN ← lift (div step (Float PrimFloat.two));
  total ← lift (getLength self (-1));
  step ← lift (div total (Int (nParts - 1)));
  lengthOUT ← lift (div step (Float PrimFloat.two));
  lengthStep ← lift (add lengthIN lengthOUT);
  setLength lengthIN 0;;
  setLength lengthOUT (nParts - 1);;
  for_each (range (nParts - 2)) (fun i => setLength lengthStep (i + 1)).

(** A quad as [Quad.__init__] leaves it (two parts), then given the
    length [L] and [n] parts. *)
Definition quad (L : num) (n : Z) : result Lengths :=
  match (setnParts 2;; setLength L (-1);; setnParts n) AccNode_init with
  | (Ok _, self) => Ok self
  | (Raise e, _) => Raise e
  end.


End Py2.




(** * Properties *)

(** ** Reasoning about the monad *)

Lemma bind_unfold {S A B} (m : M S A) (f : A -> M S B) (s : S) :
  (m ≫= f) s = match m s with
               | (Ok a, s') => f a s'
               | (Raise e, s') => (Raise e, s')
               end.
Proof. reflexivity. Qed.

Lemma bind_Ok_inv {S A B} (m : M S A) (f : A -> M S B) (s s' : S) (b : B) :
  (m ≫= f) s = (Ok b, s') ->
  exists a s1, m s = (Ok a, s1) /\ f a s1 = (Ok b, s').
Proof.
  rewrite bind_unfold. destruct (m s) as [[a|e] s1]; intros H.
  - exists a, s1. split; [reflexivity | exact H].
  - discriminate H.
Qed.

Lemma lift_Ok_inv {S A} (r : result A) (s s' : S) (a : A) :
  lift r s = (Ok a, s') -> r = Ok a /\ s' = s.
Proof. unfold lift. intros H. inversion H. split; reflexivity. Qed.

Lemma for_each_app {S A} (l1 l2 : list A) (body : A -> M S unit) (s : S) :
  for_each (l1 ++ l2) body s =
  match for_each l1 body s with
  | (Ok _, s') => for_each l2 body s'
  | (Raise e, s') => (Raise e, s')
  end.
Proof.
  revert s. induction l1 as [|x l1 IH]; intros s; simpl.
  - reflexivity.
  - rewrite !bind_unfold. destruct (body x s) as [[[]|e] s1]; [apply IH | reflexivity].
Qed.

(** ** The lattice getters *)

Lemma getRF_Cavity_loop_first (name : string) (cavs : list RF_Cavity) :
  match getRF_Cavity_loop name cavs with
  | Some cav =>
      exists before after,
        cavs = before ++ cav :: after /\ cav_name cav = name /\
        Forall (fun c => cav_name c <> name) before
  | None => Forall (fun c => cav_name c <> name) cavs
  end.
Proof.
  induction cavs as [|cav rest IH]; simpl.
  - constructor.
  - case_bool_decide as Hname.
    + exists [], rest. repeat split; [congruence | constructor].
    + destruct (getRF_Cavity_loop name rest) as [found|].
      * destruct IH as (before & after & -> & Hfound & Hbefore).
        exists (cav :: before), after. repeat split; [exact Hfound|].
        constructor; [congruence | exact Hbefore].
      * constructor; [congruence | exact IH].
Qed.

Lemma getSequence_loop_first (name : string) (seqs : list Sequence) :
  match getSequence_loop name seqs with
  | Some seq =>
      exists before after,
        seqs = before ++ seq :: after /\ seq_name seq = name /\
        Forall (fun s => seq_name s <> name) before
  | None => Forall (fun s => seq_name s <> name) seqs
  end.
Proof.
  induction seqs as [|seq rest IH]; simpl.
  - constructor.
  - case_bool_decide as Hname.
    + exists [], rest. repeat split; [congruence | constructor].
    + destruct (getSequence_loop name rest) as [found|].
      * destruct IH as (before & after & -> & Hfound & Hbefore).
        exists (seq :: before), after. repeat split; [exact Hfound|].
        constructor; [congruence | exact Hbefore].
      * constructor; [congruence | exact IH].
Qed.

(** C10. [getRF_Cavity(name)] and [getSequence(name)] return the first
    stored cavity, or sequence, whose name is [name]: the stored list
    splits around the result into a part that holds no such name and the
    rest.  When no stored cavity, or sequence, has the name they return
    None; they are total functions and raise nothing. *)
Theorem getRF_Cavity_getSequence_first_or_None (self : LinacAccLattice) (name : string) :
  match getRF_Cavity self name with
  | Some cav =>
      exists before after,
        rfCavities self = before ++ cav :: after /\ cav_name cav = name /\
        Forall (fun c => cav_name c <> name) before
  | None => Forall (fun c => cav_name c <> name) (rfCavities self)
  end /\
  match getSequence self name with
  | Some seq =>
      exists before after,
        sequences self = before ++ seq :: after /\ seq_name seq = name /\
        Forall (fun s => seq_name s <> name) before
  | None => Forall (fun s => seq_name s <> name) (sequences self)
  end.
Proof.
  split.
  - apply getRF_Cavity_loop_first.
  - apply getSequence_loop_first.
Qed.

(** ** Tilt angles *)

Lemma no_params_attribute (c : NodeClass) :
  mangle "LinacNode" "__params" ∉ instance_attributes c.
Proof.
  intros Hin. apply list_elem_of_In in Hin.
  destruct c; vm_compute in Hin; intuition discriminate.
Qed.

(** C8, at the failing call.  [setTiltAngle(angle)] raises AttributeError
    on every node and for every angle, before it reaches the two tilt
    children: its first statement reads the attribute
    [_LinacNode__params], which no constructor assigns.  The node, and
    with it both tilt angles, is left as it was. *)
Theorem setTiltAngle_raises (self : AccNode) (angle : Q) :
  LinacNode_setTiltAngle angle self
  = (Raise (AttributeError "_LinacNode__params"), self).
Proof.
  unfold LinacNode_setTiltAngle. rewrite bind_unfold. simpl.
  rewrite bind_unfold. unfold getattr.
  rewrite bool_decide_eq_false_2 by apply no_params_attribute.
  reflexivity.
Qed.

(** After construction the two tilt children carry the angles 0 and -0. *)
Lemma LinacNode_init_tilt_angles (id : nat) (c : NodeClass) (name : string) :
  exists tiltNodeIN tiltNodeOUT,
    tiltNodes (LinacNode_init id c name) = Some (tiltNodeIN, tiltNodeOUT) /\
    tilt_angle tiltNodeIN = 0 /\ tilt_angle tiltNodeOUT = - 0.
Proof. eexists _, _. split; [reflexivity|]. split; reflexivity. Qed.

Lemma ret_unfold {S A} (a : A) (s : S) : (mret a : M S A) s = (Ok a, s).
Proof. reflexivity. Qed.

Lemma get_unfold {S} (s : S) : get s = (Ok s, s).
Proof. reflexivity. Qed.

Lemma put_unfold {S} (s s0 : S) : put s s0 = (Ok tt, s).
Proof. reflexivity. Qed.

Lemma lift_unfold {S A} (r : result A) (s : S) : lift r s = (r, s).
Proof. reflexivity. Qed.

Lemma raise_unfold {S A} (e : exn) (s : S) : (raise e : M S A) s = (Raise e, s).
Proof. reflexivity. Qed.

Lemma modify_unfold {S} (f : S -> S) (s : S) : modify f s = (Ok tt, f s).
Proof. reflexivity. Qed.

Ltac mstep :=
  rewrite bind_unfold;
  rewrite ?ret_unfold, ?get_unfold, ?put_unfold, ?lift_unfold, ?raise_unfold, ?modify_unfold;
  cbv beta iota.

(** ** Splitting a node into parts *)


Lemma with_lengthArr_id (self : AccNode) : with_lengthArr (acc_lengthArr self) self = self.
Proof. destruct self; reflexivity. Qed.

Lemma with_lengthArr_twice (a b : list Q) (self : AccNode) :
  with_lengthArr a (with_lengthArr b self) = with_lengthArr a self.
Proof. reflexivity. Qed.

Lemma lengthArr_with_lengthArr (a : list Q) (self : AccNode) :
  acc_lengthArr (with_lengthArr a self) = a.
Proof. reflexivity. Qed.

Lemma setLength_part (x : Q) (i : Z) (self : AccNode) :
  (0 <= i)%Z -> (Z.to_nat i < List.length (acc_lengthArr self))%nat ->
  setLength x i self = (Ok tt, with_lengthArr (<[Z.to_nat i := x]> (acc_lengthArr self)) self).
Proof.
  intros Hi Hlen. unfold setLength. rewrite bind_unfold. simpl.
  destruct (Z.ltb_spec i 0) as [Hneg|_]; [lia|].
  rewrite bind_unfold. unfold lift, list_set.
  destruct (Z.ltb_spec i 0) as [Hneg|_]; [lia|].
  destruct (decide _) as [_|Hbad]; [reflexivity | contradiction].
Qed.

Lemma insert_after_replicate (x a0 : Q) (k : nat) (rest : list Q) :
  (k < List.length rest)%nat ->
  <[S k := x]> ([a0] ++ replicate k x ++ drop k rest)
  = [a0] ++ replicate (S k) x ++ drop (S k) rest.
Proof.
  intros Hk. simpl. f_equal.
  rewrite insert_app_r_alt by (rewrite length_replicate; lia).
  rewrite length_replicate, Nat.sub_diag.
  destruct (lookup_lt_is_Some_2 rest k Hk) as [r Hr].
  rewrite (drop_S _ _ _ Hr). simpl.
  change (x :: replicate k x ++ drop (S k) rest)
    with (replicate (S k) x ++ drop (S k) rest).
  rewrite replicate_S_end, <- app_assoc. reflexivity.
Qed.

Lemma setLength_loop (x : Q) (k : nat) (self : AccNode) :
  (k < List.length (acc_lengthArr self))%nat ->
  for_each (range (Z.of_nat k)) (fun i => setLength x (i + 1)) self
  = (Ok tt, with_lengthArr
              (take 1 (acc_lengthArr self) ++ replicate k x ++ drop (S k) (acc_lengthArr self))
              self).
Proof.
  induction k as [|k IH]; intros Hk.
  - simpl. rewrite take_drop, with_lengthArr_id. reflexivity.
  - unfold range in *. rewrite Nat2Z.id in *. rewrite seq_S, fmap_app, for_each_app.
    rewrite IH by lia. simpl for_each.
    rewrite bind_unfold.
    destruct (acc_lengthArr self) as [|a0 rest] eqn:Harr; [simpl in Hk; lia|].
    simpl in Hk.
    rewrite setLength_part.
    + replace (Z.to_nat (Z.of_nat k + 1)) with (S k) by lia.
      rewrite lengthArr_with_lengthArr, with_lengthArr_twice.
      f_equal. f_equal.
      apply (insert_after_replicate x a0 k rest). lia.
    + lia.
    + rewrite lengthArr_with_lengthArr. simpl.
      rewrite !length_app, length_replicate, length_drop. lia.
Qed.


Lemma sum_Q_app (l1 l2 : list Q) : sum_Q (l1 ++ l2) == sum_Q l1 + sum_Q l2.
Proof.
  induction l1 as [|x l1 IH]; simpl.
  - ring.
  - rewrite IH. ring.
Qed.

Lemma sum_Q_replicate (k : nat) (x : Q) : sum_Q (replicate k x) == inject_Z (Z.of_nat k) * x.
Proof.
  induction k as [|k IH].
  - simpl. ring.
  - rewrite Nat2Z.inj_succ. unfold Z.succ. rewrite inject_Z_plus. simpl. rewrite IH. ring.
Qed.

Lemma Quad_initialize_parts (self : AccNode) :
  (2 <= acc_nParts self)%Z ->
  List.length (acc_lengthArr self) = Z.to_nat (acc_nParts self) ->
  let part := acc_length self / inject_Z (acc_nParts self - 1) / 2 in
  Quad_initialize self
  = (Ok tt, with_lengthArr
              ([part] ++ replicate (Z.to_nat (acc_nParts self - 2)) (part + part) ++ [part])
              self).
Proof.
  intros Hn Hlen part. unfold Quad_initialize.
  mstep. destruct (Z.ltb_spec (acc_nParts self) 2) as [Hlt|_]; [lia|].
  cbv [andb]. mstep. mstep. cbv [getLength Z.ltb Z.compare Z.opp Pos.compare]. cbv iota.
  mstep. unfold py_div.
  destruct (Qeq_bool (inject_Z (acc_nParts self - 1)) 0) eqn:Hz.
  { apply Qeq_bool_eq in Hz. unfold Qeq in Hz. simpl in Hz. lia. }
  mstep. rewrite setLength_part by (simpl; lia). cbv iota.
  mstep. rewrite setLength_part.
  2: lia.
  2: { rewrite lengthArr_with_lengthArr, length_insert. lia. }
  cbv iota.
  rewrite lengthArr_with_lengthArr, with_lengthArr_twice.
  replace (acc_nParts self - 2)%Z with (Z.of_nat (Z.to_nat (acc_nParts self - 2))) at 1 by lia.
  rewrite setLength_loop.
  2: { rewrite lengthArr_with_lengthArr, !length_insert. lia. }
  rewrite lengthArr_with_lengthArr, with_lengthArr_twice.
  f_equal. f_equal.
  destruct (acc_lengthArr self) as [|a0 rest] eqn:Harr; [simpl in Hlen; lia|].
  simpl in Hlen.
  replace (Z.to_nat (acc_nParts self - 1)) with (S (Z.to_nat (acc_nParts self - 2))) by lia.
  assert (List.length rest = S (Z.to_nat (acc_nParts self - 2))) as Hrest by lia.
  generalize dependent (Z.to_nat (acc_nParts self - 2)). intros k Hk.
  fold part. change (Z.to_nat 0) with 0%nat. simpl. f_equal. f_equal.
  rewrite (drop_S _ part k) by (apply list_lookup_insert_eq; lia).
  rewrite drop_ge by (rewrite length_insert; lia).
  reflexivity.
Qed.

Lemma Quad_parts_sum (L : Q) (n : Z) :
  (2 <= n)%Z ->
  let part := L / inject_Z (n - 1) / 2 in
  sum_Q ([part] ++ replicate (Z.to_nat (n - 2)) (part + part) ++ [part]) == L.
Proof.
  intros Hn part.
  rewrite !sum_Q_app, sum_Q_replicate. simpl. rewrite Z2Nat.id by lia.
  subst part.
  assert (inject_Z (n - 2) == inject_Z (n - 1) - 1) as ->.
  { replace (n - 2)%Z with ((n - 1) + (-1))%Z by lia. rewrite inject_Z_plus. reflexivity. }
  assert (~ inject_Z (n - 1) == 0) as Hnz.
  { unfold Qeq. simpl. lia. }
  set (d := inject_Z (n - 1)) in *.
  field. exact Hnz.
Qed.

Lemma Quad_initialize_small (self : AccNode) :
  (acc_nParts self < 2)%Z ->
  List.length (acc_lengthArr self) = Z.to_nat (acc_nParts self) ->
  exists e, fst (Quad_initialize self) = Raise e.
Proof.
  intros Hn Hlen. unfold Quad_initialize. mstep.
  destruct (Z.ltb_spec (acc_nParts self) 2) as [_|Hge]; [|lia].
  destruct (negb (acc_nParts self mod 2 =? 0)%Z) eqn:Hodd; cbv [andb].
  - mstep. eexists. reflexivity.
  - mstep. mstep. cbv [getLength Z.ltb Z.compare Z.opp Pos.compare]. cbv iota.
    mstep. destruct (py_div _ _) as [step|e]; [|eexists; reflexivity].
    mstep. unfold setLength. mstep. cbv [Z.ltb Z.compare]. cbv iota. mstep.
    unfold list_set. cbv [Z.ltb Z.compare]. cbv iota.
    destruct (decide _) as [Hlt|_]; [|eexists; reflexivity].
    exfalso. apply negb_false_iff, Z.eqb_eq in Hodd.
    assert (acc_nParts self <> 1)%Z by (intros H1; rewrite H1 in Hodd; discriminate).
    change (Z.to_nat 0) with 0%nat in Hlt. lia.
Qed.

(** In exact arithmetic: a quad of length L whose [initialize()] succeeds has a part
    count n of at least 2; its parts 0 and n-1 have the length
    L/(n-1)/2, every part between them has a length equal to L/(n-1)
    (twice the length of an edge part), there are n parts and their
    lengths add up to L. *)
Lemma Quad_initialize_exact_lengths (self self' : AccNode) :
  List.length (acc_lengthArr self) = Z.to_nat (acc_nParts self) ->
  Quad_initialize self = (Ok tt, self') ->
  let n := acc_nParts self in
  let L := acc_length self in
  (2 <= n)%Z /\
  acc_lengthArr self' !! 0%nat = Some (L / inject_Z (n - 1) / 2) /\
  acc_lengthArr self' !! Z.to_nat (n - 1) = Some (L / inject_Z (n - 1) / 2) /\
  (forall i : nat, (0 < i < Z.to_nat (n - 1))%nat ->
     exists x, acc_lengthArr self' !! i = Some x /\ x == L / inject_Z (n - 1) /\
               L / inject_Z (n - 1) / 2 == x / 2) /\
  List.length (acc_lengthArr self') = Z.to_nat n /\
  sum_Q (acc_lengthArr self') == L.
Proof.
  intros Hlen Hinit n L.
  assert (2 <= n)%Z as Hn.
  { destruct (Z.le_gt_cases 2 n) as [Hn|Hn]; [exact Hn|].
    destruct (Quad_initialize_small self ltac:(subst n; lia) Hlen) as [e He].
    rewrite Hinit in He. discriminate He. }
  rewrite (Quad_initialize_parts self Hn Hlen) in Hinit.
  injection Hinit as <-. rewrite lengthArr_with_lengthArr.
  fold n L. set (part := L / inject_Z (n - 1) / 2).
  split; [exact Hn|]. split; [reflexivity|]. split; [|split; [|split]].
  - change ([part] ++ replicate (Z.to_nat (n - 2)) (part + part) ++ [part])
      with (part :: (replicate (Z.to_nat (n - 2)) (part + part) ++ [part])).
    replace (Z.to_nat (n - 1)) with (S (Z.to_nat (n - 2))) by lia.
    simpl. rewrite lookup_app_r by (rewrite length_replicate; lia).
    rewrite length_replicate, Nat.sub_diag. reflexivity.
  - intros i [Hi0 Hi]. exists (part + part). split; [|split].
    + destruct i as [|i]; [lia|]. simpl.
      rewrite lookup_app_l by (rewrite length_replicate; lia).
      apply lookup_replicate_2. lia.
    + subst part. field. unfold Qeq. simpl. lia.
    + subst part. field. unfold Qeq. simpl. lia.
  - simpl. rewrite length_app, length_replicate. simpl. lia.
  - apply Quad_parts_sum. exact Hn.
Qed.

(** A quad of length 3 in four parts. *)
Lemma Quad_initialize_exact_lengths_example :
  let self := setnParts 4 (snd (setLength 3 (-1) (Quad_init 0 "quad"))) in
  let self' := snd (Quad_initialize self) in
  (2 <= 4)%Z /\
  acc_lengthArr self' !! 0%nat = Some (3 / inject_Z (4 - 1) / 2) /\
  acc_lengthArr self' !! Z.to_nat (4 - 1) = Some (3 / inject_Z (4 - 1) / 2) /\
  (forall i : nat, (0 < i < Z.to_nat (4 - 1))%nat ->
     exists x, acc_lengthArr self' !! i = Some x /\ x == 3 / inject_Z (4 - 1) /\
               3 / inject_Z (4 - 1) / 2 == x / 2) /\
  List.length (acc_lengthArr self') = Z.to_nat 4 /\
  sum_Q (acc_lengthArr self') == 3.
Proof.
  intros self self'.
  apply (Quad_initialize_exact_lengths self self'); reflexivity.
Defined.

(** C5, at a failing input.  A quad with three parts passes the test of
    [initialize()] (the test stops a part count that is below 2 and odd
    at once, so only 1 and the negative odd counts): no error is
    raised and the three parts get the lengths L/4, L/2, L/4. *)
Theorem Quad_initialize_accepts_three_parts (id : nat) (name : string) (L : Q) :
  let quad := setnParts 3 (snd (setLength L (-1) (Quad_init id name))) in
  fst (Quad_initialize quad) = Ok tt /\
  acc_lengthArr (snd (Quad_initialize quad))
  = [L / inject_Z 2 / 2; L / inject_Z 2 / 2 + L / inject_Z 2 / 2; L / inject_Z 2 / 2].
Proof.
  intros quad.
  rewrite (Quad_initialize_parts quad); [|vm_compute; discriminate | reflexivity].
  split; reflexivity.
Qed.

(** Every part count of at least 2, odd or even, is accepted. *)
Lemma Quad_initialize_accepts_from_two (self : AccNode) :
  (2 <= acc_nParts self)%Z ->
  List.length (acc_lengthArr self) = Z.to_nat (acc_nParts self) ->
  fst (Quad_initialize self) = Ok tt.
Proof. intros Hn Hlen. rewrite (Quad_initialize_parts self Hn Hlen). reflexivity. Qed.

(** ** The three parts of an RF gap *)

Lemma BaseRF_Gap_initialize_wrong_parts (self : AccNode) :
  acc_nParts self <> 3%Z ->
  BaseRF_Gap_initialize self
  = (Raise (OrbitFinalize "The simple Rf gap should have 3 parts!"), self).
Proof.
  intros Hn. unfold BaseRF_Gap_initialize. mstep.
  destruct (Z.eqb_spec (acc_nParts self) 3) as [H3|_]; [contradiction|].
  cbv [negb]. mstep. reflexivity.
Qed.

Lemma BaseRF_Gap_initialize_three (self : AccNode) :
  acc_nParts self = 3%Z ->
  List.length (acc_lengthArr self) = 3%nat ->
  BaseRF_Gap_initialize self
  = (Ok tt, with_lengthArr [acc_length self / 2; 0; acc_length self / 2] self).
Proof.
  intros Hn Hlen. unfold BaseRF_Gap_initialize. mstep.
  rewrite Hn. cbv [Z.eqb Pos.eqb negb]. mstep. mstep.
  cbv [getLength Z.ltb Z.compare Z.opp Pos.compare]. cbv iota.
  destruct (acc_lengthArr self) as [|a [|b [|c [|d rest]]]] eqn:Harr; try discriminate Hlen.
  mstep. rewrite setLength_part by (rewrite ?Harr; simpl; lia). cbv iota.
  mstep. rewrite setLength_part by (rewrite ?lengthArr_with_lengthArr, ?Harr; simpl; lia).
  cbv iota.
  rewrite setLength_part by (rewrite ?lengthArr_with_lengthArr, ?Harr; simpl; lia).
  rewrite !lengthArr_with_lengthArr, !with_lengthArr_twice, Harr. reflexivity.
Qed.

Lemma setLength_not_fatal (x : Q) (i : Z) (self : AccNode) (msg : string) :
  fst (setLength x i self) <> Raise (OrbitFinalize msg).
Proof.
  unfold setLength. mstep. destruct (i <? 0)%Z.
  - rewrite put_unfold. discriminate.
  - mstep. unfold list_set. destruct (i <? 0)%Z; [discriminate|].
    destruct (decide _); [rewrite put_unfold|]; discriminate.
Qed.

Lemma seq_not_fatal {S} (m1 m2 : M S unit) (msg : string) (s : S) :
  fst (m1 s) <> Raise (OrbitFinalize msg) ->
  (forall s1, fst (m2 s1) <> Raise (OrbitFinalize msg)) ->
  fst ((m1 ;; m2) s) <> Raise (OrbitFinalize msg).
Proof.
  intros H1 H2. rewrite bind_unfold. destruct (m1 s) as [[[]|e] s1]; [apply H2 | exact H1].
Qed.

Lemma BaseRF_Gap_initialize_not_fatal (self : AccNode) (msg : string) :
  acc_nParts self = 3%Z ->
  fst (BaseRF_Gap_initialize self) <> Raise (OrbitFinalize msg).
Proof.
  intros Hn. unfold BaseRF_Gap_initialize. mstep.
  rewrite Hn. cbv [Z.eqb Pos.eqb negb]. mstep. mstep.
  cbv [getLength Z.ltb Z.compare Z.opp Pos.compare]. cbv iota.
  apply seq_not_fatal; [apply setLength_not_fatal|]. intros s1.
  apply seq_not_fatal; [apply setLength_not_fatal|]. intros s2.
  apply setLength_not_fatal.
Qed.

Section GapParts.

Context `{K : TransportKernel}.

Lemma TPB_unfold (bunch : nat) (f : Bunch -> Bunch) (w : World) (b : Bunch) :
  bunches w !! bunch = Some b ->
  TPB bunch f w = (Ok tt, mkWorld (<[bunch := f b]> (bunches w)) (lattice w)).
Proof.
  intros Hb. unfold TPB, read_bunch, write_bunch.
  cbv [mbind M_bind mret M_ret get put]. rewrite Hb. reflexivity.
Qed.

Lemma BaseRF_Gap_drift_part_runs (self : AccNode) (index : Z) (length : Q)
    (bunch : nat) (gapOffset : option Q) (w : World) (b : Bunch) :
  acc_paramsDict self !! "gapOffset" = PyFloat <$> gapOffset ->
  bunches w !! bunch = Some b ->
  BaseRF_Gap_drift_part self index length bunch w
  = (Ok tt, mkWorld (<[bunch := TPB_drift b (length + (if (index =? 2)%Z
                                                       then - default 0 gapOffset
                                                       else default 0 gapOffset))]>
                       (bunches w)) (lattice w)).
Proof.
  intros Hoff Hb. unfold BaseRF_Gap_drift_part, hasParam, getParam.
  rewrite Hoff. destruct gapOffset as [off|]; simpl.
  - mstep. mstep. simpl. rewrite (TPB_unfold _ _ w b Hb). reflexivity.
  - mstep. mstep. simpl. rewrite (TPB_unfold _ _ w b Hb). reflexivity.
Qed.

(** C7. [BaseRF_Gap.initialize()] stops with the fatal error exactly
    when the part count is not 3.  With three parts (and the three part
    lengths [setnParts] gives) it succeeds and the parts get the lengths
    L/2, 0, L/2; tracking, in either mode, then drifts the bunch over
    L/2 + gapOffset at part 0 and over L/2 - gapOffset at part 2, the
    offset being 0 when the gap has no such parameter. *)
Theorem BaseRF_Gap_three_parts (self : AccNode) :
  ((exists msg, fst (BaseRF_Gap_initialize self) = Raise (OrbitFinalize msg))
   <-> acc_nParts self <> 3%Z) /\
  (acc_nParts self = 3%Z -> List.length (acc_lengthArr self) = 3%nat ->
   exists self',
     BaseRF_Gap_initialize self = (Ok tt, self') /\
     acc_lengthArr self' = [acc_length self / 2; 0; acc_length self / 2] /\
     forall (gapOffset : option Q) (paramsDict : ParamsDict) (w : World) (b : Bunch),
       acc_paramsDict self !! "gapOffset" = PyFloat <$> gapOffset ->
       bunches w !! pd_bunch paramsDict = Some b ->
       let offset := default 0 gapOffset in
       let drifted (x : Q) :=
         (Ok tt, mkWorld (<[pd_bunch paramsDict := TPB_drift b x]> (bunches w)) (lattice w)) in
       BaseRF_Gap_track (set_activePartIndex 0 self') paramsDict w
         = drifted (acc_length self / 2 + offset) /\
       BaseRF_Gap_track (set_activePartIndex 2 self') paramsDict w
         = drifted (acc_length self / 2 - offset) /\
       BaseRF_Gap_trackDesignBunch (set_activePartIndex 0 self') paramsDict w
         = drifted (acc_length self / 2 + offset) /\
       BaseRF_Gap_trackDesignBunch (set_activePartIndex 2 self') paramsDict w
         = drifted (acc_length self / 2 - offset)).
Proof.
  split.
  - split.
    + intros [msg Hmsg]. intros H3.
      exact (BaseRF_Gap_initialize_not_fatal self msg H3 Hmsg).
    + intros Hn. eexists. rewrite (BaseRF_Gap_initialize_wrong_parts self Hn). reflexivity.
  - intros Hn Hlen. eexists. split; [apply BaseRF_Gap_initialize_three; assumption|].
    split; [reflexivity|].
    intros gapOffset paramsDict w b Hoff Hb offset drifted.
    repeat split.
    + unfold BaseRF_Gap_track. mstep. simpl.
      erewrite BaseRF_Gap_drift_part_runs; [reflexivity | exact Hoff | exact Hb].
    + unfold BaseRF_Gap_track. mstep. simpl.
      erewrite BaseRF_Gap_drift_part_runs; [reflexivity | exact Hoff | exact Hb].
    + unfold BaseRF_Gap_trackDesignBunch. mstep. simpl.
      erewrite BaseRF_Gap_drift_part_runs; [reflexivity | exact Hoff | exact Hb].
    + unfold BaseRF_Gap_trackDesignBunch. mstep. simpl.
      erewrite BaseRF_Gap_drift_part_runs; [reflexivity | exact Hoff | exact Hb].
Qed.

End GapParts.

(** ** What a computation leaves unchanged *)

Section Preservation.

Context {S : Type} (R : S -> S -> Prop).
Hypothesis R_refl : forall s, R s s.
Hypothesis R_trans : forall s1 s2 s3, R s1 s2 -> R s2 s3 -> R s1 s3.

Lemma preserves_ret {A} (a : A) : preserves R (mret a).
Proof. intros s. apply R_refl. Qed.

Lemma preserves_raise {A} (e : exn) : preserves R (raise e : M S A).
Proof. intros s. apply R_refl. Qed.

Lemma preserves_lift {A} (r : result A) : preserves R (lift r).
Proof. intros s. apply R_refl. Qed.

Lemma preserves_get : preserves R get.
Proof. intros s. apply R_refl. Qed.

Lemma preserves_local {A} (var : string) (v : option A) : preserves R (local var v).
Proof. destruct v; intros s; apply R_refl. Qed.

Lemma preserves_bind {A B} (m : M S A) (f : A -> M S B) :
  preserves R m -> (forall a, preserves R (f a)) -> preserves R (m ≫= f).
Proof.
  intros Hm Hf s. rewrite bind_unfold. specialize (Hm s).
  destruct (m s) as [[a|e] s1]; simpl in Hm.
  - eapply R_trans; [exact Hm | apply Hf].
  - exact Hm.
Qed.

Lemma preserves_for_each {A} (l : list A) (body : A -> M S unit) :
  (forall x, preserves R (body x)) -> preserves R (for_each l body).
Proof.
  intros Hbody. induction l as [|x l IH]; simpl.
  - apply preserves_ret.
  - apply preserves_bind; [apply Hbody | intros _; exact IH].
Qed.

End Preservation.

Ltac preserve_step :=
  first
    [ apply preserves_ret; assumption
    | apply preserves_raise; assumption
    | apply preserves_lift; assumption
    | apply preserves_get; assumption
    | apply preserves_local; assumption
    | apply preserves_for_each; [assumption | assumption | intros ?]
    | apply preserves_bind; [assumption | | intros ?] ].

(** ** The RF gap kick *)

Lemma no_frequency_method (obj : pyval) (w : World) :
  call0 obj "frequency" w = (Raise (AttributeError "frequency"), w).
Proof. destruct obj; reflexivity. Qed.

Section GapKick.

Context `{K : TransportKernel}.

Lemma BaseRF_Gap_track_kick_raises (self : AccNode) (paramsDict : ParamsDict) (w : World) :
  acc_activePartIndex self = 1%Z ->
  exists e, BaseRF_Gap_track self paramsDict w = (Raise e, w).
Proof.
  intros Hindex. unfold BaseRF_Gap_track. rewrite Hindex.
  destruct (getLength self 1) as [length|e]; mstep; [|eexists; reflexivity].
  change ((1 =? 0)%Z || (1 =? 2)%Z) with false. cbv iota.
  destruct (getParam (acc_paramsDict self) "E0TL") as [E0TL|e]; mstep;
    [|eexists; reflexivity].
  destruct (getFloat (acc_paramsDict self) "modePhase") as [modePhase|e]; mstep;
    [|eexists; reflexivity].
  destruct (getParam (acc_paramsDict self) "rfCavity") as [rfCavity|e]; mstep;
    [|eexists; reflexivity].
  rewrite bind_unfold, no_frequency_method. eexists. reflexivity.
Qed.

Lemma BaseRF_Gap_track_kick_AttributeError (self : AccNode) (paramsDict : ParamsDict)
    (w : World) (length modePhase : Q) (E0TL rfCavity : pyval) :
  acc_activePartIndex self = 1%Z ->
  acc_lengthArr self !! 1%nat = Some length ->
  acc_paramsDict self !! "E0TL" = Some E0TL ->
  acc_paramsDict self !! "modePhase" = Some (PyFloat modePhase) ->
  acc_paramsDict self !! "rfCavity" = Some rfCavity ->
  BaseRF_Gap_track self paramsDict w = (Raise (AttributeError "frequency"), w).
Proof.
  intros Hindex Hlen HE Hmode Hcav. unfold BaseRF_Gap_track. rewrite Hindex.
  assert (getLength self 1 = Ok length) as ->.
  { unfold getLength, list_get. change (Z.to_nat 1) with 1%nat. rewrite Hlen. reflexivity. }
  mstep. change ((1 =? 0)%Z || (1 =? 2)%Z) with false. cbv iota.
  unfold getFloat, getParam. rewrite HE, Hmode, Hcav.
  mstep. simpl as_float. mstep. mstep.
  rewrite bind_unfold, no_frequency_method. reflexivity.
Qed.

End GapKick.

(** ** The design pass through an RF gap *)

Lemma same_design_flags_refl (w : World) : same_design_flags w w.
Proof. intros c. reflexivity. Qed.

Lemma same_design_flags_trans (w1 w2 w3 : World) :
  same_design_flags w1 w2 -> same_design_flags w2 w3 -> same_design_flags w1 w3.
Proof. intros H12 H23 c. rewrite H23. apply H12. Qed.

Lemma read_bunch_state (bunch : nat) (w : World) : snd (read_bunch bunch w) = w.
Proof. unfold read_bunch. mstep. destruct (bunches w !! bunch); reflexivity. Qed.

Lemma cavity_getParam_state (c : nat) (key : string) (w : World) :
  snd (cavity_getParam c key w) = w.
Proof. unfold cavity_getParam. mstep. destruct (rfCavities (lattice w) !! c); reflexivity. Qed.

Lemma call0_state (obj : pyval) (meth : string) (w : World) : snd (call0 obj meth w) = w.
Proof.
  destruct obj; try reflexivity. unfold call0.
  destruct (lookup_method meth RF_Cavity_class) as [[key|key|]|]; try reflexivity.
  apply cavity_getParam_state.
Qed.

Lemma TPB_lattice (bunch : nat) (f : Bunch -> Bunch) (w : World) :
  lattice (snd (TPB bunch f w)) = lattice w.
Proof.
  unfold TPB, read_bunch, write_bunch. cbv [mbind M_bind mret M_ret get put].
  destruct (bunches w !! bunch); reflexivity.
Qed.

Lemma flags_read_bunch (bunch : nat) : preserves same_design_flags (read_bunch bunch).
Proof. intros w. rewrite read_bunch_state. apply same_design_flags_refl. Qed.

Lemma flags_call0 (obj : pyval) (meth : string) : preserves same_design_flags (call0 obj meth).
Proof. intros w. rewrite call0_state. apply same_design_flags_refl. Qed.

Lemma flags_TPB (bunch : nat) (f : Bunch -> Bunch) : preserves same_design_flags (TPB bunch f).
Proof. intros w c. unfold design_flag. rewrite TPB_lattice. reflexivity. Qed.

Lemma flags_cavity_setParam (c : nat) (key : string) (v : pyval) :
  key <> "isDesignSetUp" -> preserves same_design_flags (cavity_setParam c key v).
Proof.
  intros Hkey w c'. unfold cavity_setParam. mstep.
  destruct (rfCavities (lattice w) !! c) as [cav|] eqn:Hcav; [|reflexivity].
  rewrite put_unfold. unfold design_flag. simpl.
  destruct (decide (c = c')) as [->|Hne].
  - rewrite list_lookup_insert_eq by (eapply lookup_lt_Some; exact Hcav).
    rewrite Hcav. simpl. unfold setParam. rewrite lookup_insert_ne by exact Hkey. reflexivity.
  - rewrite list_lookup_insert_ne by exact Hne. reflexivity.
Qed.

Lemma flags_set_design_arrival (obj v : pyval) :
  preserves same_design_flags (call1 obj "setDesignArrivalTime" v).
Proof.
  destruct obj; try (intros w; apply same_design_flags_refl).
  change (call1 (PyCavity c) "setDesignArrivalTime" v)
    with (cavity_setParam c "designArrivalTime" v).
  apply flags_cavity_setParam. discriminate.
Qed.

Ltac flags_step :=
  first
    [ apply flags_TPB
    | apply flags_call0
    | apply flags_read_bunch
    | apply flags_set_design_arrival
    | apply (preserves_ret same_design_flags same_design_flags_refl)
    | apply (preserves_raise same_design_flags same_design_flags_refl)
    | apply (preserves_lift same_design_flags same_design_flags_refl)
    | apply (preserves_bind same_design_flags same_design_flags_trans); [|intros ?]
    | match goal with
      | |- preserves _ (if ?b then _ else _) => destruct b
      | |- preserves _ (match ?x with _ => _ end) => destruct x
      end ].

Section GapDesign.

Context `{K : TransportKernel}.

Lemma BaseRF_Gap_trackDesignBunch_flags (self : AccNode) (paramsDict : ParamsDict) :
  preserves same_design_flags (BaseRF_Gap_trackDesignBunch self paramsDict).
Proof.
  unfold BaseRF_Gap_trackDesignBunch, BaseRF_Gap_drift_part, BaseRF_Gap_kick,
    syncPart_time, syncPart_kinEnergy, syncPart_set_kinEnergy.
  repeat flags_step.
Qed.

End GapDesign.

Section GapDesignRun.

Context `{K : TransportKernel}.

Lemma call0_getter (c : nat) (meth key : string) (w : World) (cav : RF_Cavity) (v : pyval) :
  lookup_method meth RF_Cavity_class = Some (Getter key) ->
  rfCavities (lattice w) !! c = Some cav ->
  cav_paramsDict cav !! key = Some v ->
  call0 (PyCavity c) meth w = (Ok v, w).
Proof.
  intros Hmeth Hc Hkey. unfold call0. rewrite Hmeth. unfold cavity_getParam.
  mstep. rewrite Hc. unfold getParam. rewrite Hkey. reflexivity.
Qed.

Lemma call1_setter (c : nat) (meth key : string) (v : pyval) (w : World) (cav : RF_Cavity) :
  lookup_method meth RF_Cavity_class = Some (Setter key) ->
  rfCavities (lattice w) !! c = Some cav ->
  call1 (PyCavity c) meth v w
  = (Ok tt, mkWorld (bunches w)
              (set_rfCavities (<[c := cav_setParam key v cav]> (rfCavities (lattice w)))
                 (lattice w))).
Proof.
  intros Hmeth Hc. unfold call1. rewrite Hmeth. unfold cavity_setParam.
  mstep. rewrite Hc. reflexivity.
Qed.

Lemma syncPart_time_run (bunch : nat) (w : World) (b : Bunch) :
  bunches w !! bunch = Some b ->
  syncPart_time bunch w = (Ok (sync_time (syncParticle b)), w).
Proof.
  intros Hb. unfold syncPart_time, read_bunch. cbv [mbind M_bind mret M_ret get].
  rewrite Hb. reflexivity.
Qed.

Lemma BaseRF_Gap_kick_run (bunch : nat) (E0TL phase : Q) (w : World) (b : Bunch) :
  bunches w !! bunch = Some b ->
  BaseRF_Gap_kick bunch (PyFloat E0TL) phase w
  = (Ok tt, mkWorld (<[bunch := with_kinEnergy (sync_kinEnergy (syncParticle b)
                                                + E0TL * math_cos phase) b]> (bunches w))
              (lattice w)).
Proof.
  intros Hb. unfold BaseRF_Gap_kick, syncPart_kinEnergy, syncPart_set_kinEnergy,
    TPB, read_bunch, write_bunch.
  cbv [mbind M_bind mret M_ret get put lift as_float]. rewrite Hb. cbv beta iota.
  rewrite Hb. reflexivity.
Qed.

(** X14. The design pass through the kick part of the first gap of the
    cavity [c]: the arrival time is stored as the design arrival time
    of the cavity, the phase is the design phase plus the mode phase
    times pi, and the synchronous particle gains E0TL times the cosine
    of this phase. *)
Lemma BaseRF_Gap_trackDesignBunch_first (self : AccNode) (paramsDict : ParamsDict) (w : World)
    (length E0TL modePhase designPhase : Q) (frequency : pyval)
    (c : nat) (cav : RF_Cavity) (b : Bunch) :
  acc_activePartIndex self = 1%Z ->
  isFirstGap self = true ->
  acc_lengthArr self !! 1%nat = Some length ->
  acc_paramsDict self !! "E0TL" = Some (PyFloat E0TL) ->
  acc_paramsDict self !! "modePhase" = Some (PyFloat modePhase) ->
  acc_paramsDict self !! "rfCavity" = Some (PyCavity c) ->
  rfCavities (lattice w) !! c = Some cav ->
  cav_paramsDict cav !! "frequency" = Some frequency ->
  cav_paramsDict cav !! "designPhase" = Some (PyFloat designPhase) ->
  bunches w !! pd_bunch paramsDict = Some b ->
  BaseRF_Gap_trackDesignBunch self paramsDict w
  = (Ok tt,
     mkWorld
       (<[pd_bunch paramsDict :=
            with_kinEnergy (sync_kinEnergy (syncParticle b)
                            + E0TL * math_cos (designPhase + modePhase * math_pi)) b]>
          (bunches w))
       (set_rfCavities
          (<[c := cav_setParam "designArrivalTime" (PyFloat (sync_time (syncParticle b))) cav]>
             (rfCavities (lattice w)))
          (lattice w))).
Proof.
  intros Hindex Hfirst Hlen HE Hmode Hcav Hc Hfreq Hphase Hb.
  unfold BaseRF_Gap_trackDesignBunch. rewrite Hindex, Hfirst.
  assert (getLength self 1 = Ok length) as ->.
  { unfold getLength, list_get. change (Z.to_nat 1) with 1%nat. rewrite Hlen. reflexivity. }
  mstep. change ((1 =? 0)%Z || (1 =? 2)%Z) with false. cbv iota.
  unfold getFloat, getParam. rewrite HE, Hmode, Hcav. simpl as_float.
  mstep. mstep. mstep.
  rewrite bind_unfold, (syncPart_time_run _ w b Hb). cbv beta iota.
  rewrite bind_unfold, (call0_getter c "getFrequency" "frequency" w cav frequency eq_refl Hc Hfreq).
  cbv beta iota.
  rewrite bind_unfold, (call0_getter c "getDesignPhase" "designPhase" w cav _ eq_refl Hc Hphase).
  cbv beta iota. mstep. simpl as_float. cbv beta iota.
  rewrite bind_unfold. rewrite bind_unfold.
  rewrite (call1_setter c "setDesignArrivalTime" "designArrivalTime" _ w cav eq_refl Hc). cbv beta iota.
  rewrite ret_unfold. cbv beta iota.
  rewrite BaseRF_Gap_kick_run with (b := b) by exact Hb. reflexivity.
Qed.

(** X15. The design pass through the kick part of a later gap of the
    cavity [c]: the phase is taken from the time since the design
    arrival time of the cavity, the synchronous particle gains E0TL
    times its cosine, and the cavity is left as it is. *)
Lemma BaseRF_Gap_trackDesignBunch_later (self : AccNode) (paramsDict : ParamsDict) (w : World)
    (length E0TL modePhase designPhase frequency designArrivalTime : Q)
    (c : nat) (cav : RF_Cavity) (b : Bunch) :
  acc_activePartIndex self = 1%Z ->
  isFirstGap self = false ->
  acc_lengthArr self !! 1%nat = Some length ->
  acc_paramsDict self !! "E0TL" = Some (PyFloat E0TL) ->
  acc_paramsDict self !! "modePhase" = Some (PyFloat modePhase) ->
  acc_paramsDict self !! "rfCavity" = Some (PyCavity c) ->
  rfCavities (lattice w) !! c = Some cav ->
  cav_paramsDict cav !! "frequency" = Some (PyFloat frequency) ->
  cav_paramsDict cav !! "designPhase" = Some (PyFloat designPhase) ->
  cav_paramsDict cav !! "designArrivalTime" = Some (PyFloat designArrivalTime) ->
  bunches w !! pd_bunch paramsDict = Some b ->
  BaseRF_Gap_trackDesignBunch self paramsDict w
  = (Ok tt,
     mkWorld
       (<[pd_bunch paramsDict :=
            with_kinEnergy
              (sync_kinEnergy (syncParticle b)
               + E0TL * math_cos (gap_phase frequency
                                    (sync_time (syncParticle b) - designArrivalTime)
                                    (designPhase + modePhase * math_pi))) b]>
          (bunches w))
       (lattice w)).
Proof.
  intros Hindex Hfirst Hlen HE Hmode Hcav Hc Hfreq Hphase Htime Hb.
  unfold BaseRF_Gap_trackDesignBunch. rewrite Hindex, Hfirst.
  assert (getLength self 1 = Ok length) as ->.
  { unfold getLength, list_get. change (Z.to_nat 1) with 1%nat. rewrite Hlen. reflexivity. }
  mstep. change ((1 =? 0)%Z || (1 =? 2)%Z) with false. cbv iota.
  unfold getFloat, getParam. rewrite HE, Hmode, Hcav. simpl as_float.
  mstep. mstep. mstep.
  rewrite bind_unfold, (syncPart_time_run _ w b Hb). cbv beta iota.
  rewrite bind_unfold, (call0_getter c "getFrequency" "frequency" w cav _ eq_refl Hc Hfreq).
  cbv beta iota.
  rewrite bind_unfold, (call0_getter c "getDesignPhase" "designPhase" w cav _ eq_refl Hc Hphase).
  cbv beta iota. mstep. simpl as_float. cbv beta iota.
  rewrite bind_unfold. rewrite bind_unfold.
  rewrite (call0_getter c "getDesignArrivalTime" "designArrivalTime" w cav _ eq_refl Hc Htime). cbv beta iota.
  mstep. simpl as_float. cbv beta iota. mstep. simpl as_float. cbv beta iota.
  rewrite ret_unfold. cbv beta iota.
  rewrite BaseRF_Gap_kick_run with (b := b) by exact Hb. reflexivity.
Qed.

End GapDesignRun.

(** The literal case: 400 MHz and 1.25 ns after the reference time, from
    the reference phase 0, the gap phase is [math.pi]. *)
Lemma gap_phase_half_period : gap_phase 400000000 0.00000000125 0 == math_pi.
Proof. vm_compute. reflexivity. Qed.

(** C1, at the failing steps.  The design pass through an RF gap
    leaves the flag "isDesignSetUp" of every cavity as it was (the gap
    stores the design arrival time with [setDesignArrivalTime] and never
    calls [setDesignSetUp]), so no cavity becomes design-referenced; and
    the operational pass through the kick part (part 1) of any gap
    raises an exception before it stores an arrival time or computes a
    phase, and leaves bunch and cavities as they were: it asks the
    cavity for [frequency()], a method [RF_Cavity] does not have. *)
Theorem first_gap_passes `{K : TransportKernel}
    (self : AccNode) (paramsDict : ParamsDict) (w : World) :
  (forall c, design_flag (snd (BaseRF_Gap_trackDesignBunch self paramsDict w)) c
             = design_flag w c) /\
  (exists e, BaseRF_Gap_track (set_activePartIndex 1 (set_isFirstGap true self)) paramsDict w
             = (Raise e, w)) /\
  (forall length modePhase E0TL rfCavity,
     acc_lengthArr self !! 1%nat = Some length ->
     acc_paramsDict self !! "E0TL" = Some E0TL ->
     acc_paramsDict self !! "modePhase" = Some (PyFloat modePhase) ->
     acc_paramsDict self !! "rfCavity" = Some rfCavity ->
     BaseRF_Gap_track (set_activePartIndex 1 (set_isFirstGap true self)) paramsDict w
     = (Raise (AttributeError "frequency"), w)).
Proof.
  split; [|split].
  - apply BaseRF_Gap_trackDesignBunch_flags.
  - apply BaseRF_Gap_track_kick_raises. reflexivity.
  - intros length modePhase E0TL rfCavity Hlen HE Hmode Hcav.
    eapply BaseRF_Gap_track_kick_AttributeError; [reflexivity | exact Hlen | exact HE | exact Hmode | exact Hcav].
Qed.

(** C2, at the failing step.  The operational pass through the kick
    part (part 1) of a gap that is not the first gap of its cavity
    raises an exception and leaves bunch and cavities as they were; no
    phase is computed.  With the parameters the factory gives a gap the
    exception is the AttributeError of [rfCavity.frequency()]. *)
Theorem later_gap_track_raises `{K : TransportKernel}
    (self : AccNode) (paramsDict : ParamsDict) (w : World) :
  (exists e, BaseRF_Gap_track (set_activePartIndex 1 (set_isFirstGap false self)) paramsDict w
             = (Raise e, w)) /\
  (forall length modePhase E0TL rfCavity,
     acc_lengthArr self !! 1%nat = Some length ->
     acc_paramsDict self !! "E0TL" = Some E0TL ->
     acc_paramsDict self !! "modePhase" = Some (PyFloat modePhase) ->
     acc_paramsDict self !! "rfCavity" = Some rfCavity ->
     BaseRF_Gap_track (set_activePartIndex 1 (set_isFirstGap false self)) paramsDict w
     = (Raise (AttributeError "frequency"), w)).
Proof.
  split.
  - apply BaseRF_Gap_track_kick_raises. reflexivity.
  - intros length modePhase E0TL rfCavity Hlen HE Hmode Hcav.
    eapply BaseRF_Gap_track_kick_AttributeError; [reflexivity | exact Hlen | exact HE | exact Hmode | exact Hcav].
Qed.

(** ** The bunch a pass works on *)

Lemma only_bunch_refl (target : nat) (w : World) : only_bunch target w w.
Proof. split; [reflexivity | reflexivity]. Qed.

Lemma only_bunch_trans (target : nat) (w1 w2 w3 : World) :
  only_bunch target w1 w2 -> only_bunch target w2 w3 -> only_bunch target w1 w3.
Proof.
  intros [H12 D12] [H23 D23]. split.
  - intros k Hk. rewrite (H23 k Hk). apply H12. exact Hk.
  - rewrite D23. exact D12.
Qed.

Lemma only_read_bunch (target bunch : nat) : preserves (only_bunch target) (read_bunch bunch).
Proof. intros w. rewrite read_bunch_state. apply only_bunch_refl. Qed.

Lemma only_call0 (target : nat) (obj : pyval) (meth : string) :
  preserves (only_bunch target) (call0 obj meth).
Proof. intros w. rewrite call0_state. apply only_bunch_refl. Qed.

Lemma cavity_setParam_bunches (c : nat) (key : string) (v : pyval) (w : World) :
  bunches (snd (cavity_setParam c key v w)) = bunches w.
Proof.
  unfold cavity_setParam. mstep. destruct (rfCavities (lattice w) !! c); reflexivity.
Qed.

Lemma call1_bunches (obj : pyval) (meth : string) (v : pyval) (w : World) :
  bunches (snd (call1 obj meth v w)) = bunches w.
Proof.
  destruct obj; try reflexivity. unfold call1.
  destruct (lookup_method meth RF_Cavity_class) as [[key|key|]|]; try reflexivity.
  apply cavity_setParam_bunches.
Qed.

Lemma only_call1 (target : nat) (obj : pyval) (meth : string) (v : pyval) :
  preserves (only_bunch target) (call1 obj meth v).
Proof.
  intros w. unfold only_bunch. rewrite call1_bunches. split; [reflexivity | reflexivity].
Qed.

Lemma only_TPB (target : nat) (f : Bunch -> Bunch) : preserves (only_bunch target) (TPB target f).
Proof.
  intros w. unfold TPB, read_bunch, write_bunch. cbv [mbind M_bind mret M_ret get put].
  destruct (bunches w !! target) as [b|] eqn:Hb; cbn [snd].
  - split; cbn [bunches].
    + intros k Hk. rewrite lookup_insert_ne by congruence. reflexivity.
    + rewrite lookup_insert_eq, Hb. split; intros _; eexists; reflexivity.
  - apply only_bunch_refl.
Qed.

Ltac only_step target :=
  first
    [ apply only_TPB
    | apply only_call0
    | apply only_call1
    | apply only_read_bunch
    | apply (preserves_ret (only_bunch target) (only_bunch_refl target))
    | apply (preserves_raise (only_bunch target) (only_bunch_refl target))
    | apply (preserves_lift (only_bunch target) (only_bunch_refl target))
    | apply (preserves_local (only_bunch target) (only_bunch_refl target))
    | apply (preserves_for_each (only_bunch target) (only_bunch_refl target)
               (only_bunch_trans target)); intros ?
    | apply (preserves_bind (only_bunch target) (only_bunch_trans target)); [|intros ?]
    | match goal with
      | |- preserves _ (if ?b then _ else _) => destruct b
      | |- preserves _ (match ?x with _ => _ end) => destruct x
      end ].

Section OnlyTheBunch.

Context `{K : TransportKernel}.

Lemma track_only_bunch (node : Trackable) (paramsDict : ParamsDict) :
  preserves (only_bunch (pd_bunch paramsDict)) (track node paramsDict).
Proof.
  destruct node as [n|t|f]; simpl.
  - destruct (cls n);
      unfold Drift_track, Quad_track, DCorrector_track, BaseRF_Gap_track,
        BaseRF_Gap_drift_part, BaseRF_Gap_kick, multipoles,
        syncPart_time, syncPart_kinEnergy, syncPart_set_kinEnergy;
      repeat only_step (pd_bunch paramsDict).
  - unfold TiltElement_track. repeat only_step (pd_bunch paramsDict).
  - unfold FringeField_track, quad_fringe, multipoles.
    repeat only_step (pd_bunch paramsDict).
Qed.

End OnlyTheBunch.

Section Passes.

Context `{K : TransportKernel}.

Lemma trackDesignBunch_only_bunch (node : Trackable) (paramsDict : ParamsDict) :
  preserves (only_bunch (pd_bunch paramsDict)) (trackDesignBunch node paramsDict).
Proof.
  destruct node as [n|t|f]; try apply track_only_bunch.
  unfold trackDesignBunch. destruct (cls n) eqn:Hcls; try apply track_only_bunch.
  unfold BaseRF_Gap_trackDesignBunch, BaseRF_Gap_drift_part, BaseRF_Gap_kick,
    syncPart_time, syncPart_kinEnergy, syncPart_set_kinEnergy.
  repeat only_step (pd_bunch paramsDict).
Qed.

Lemma trackActions_only_bunch (action : Trackable -> ParamsDict -> M World unit) (bunch : nat) :
  (forall node paramsDict, preserves (only_bunch (pd_bunch paramsDict)) (action node paramsDict)) ->
  preserves (only_bunch bunch) (trackActions action bunch).
Proof.
  intros Haction. unfold trackActions.
  apply (preserves_bind (only_bunch bunch) (only_bunch_trans bunch)).
  - apply (preserves_get (only_bunch bunch) (only_bunch_refl bunch)).
  - intros w0.
    apply (preserves_for_each (only_bunch bunch) (only_bunch_refl bunch) (only_bunch_trans bunch)).
    intros v. apply (Haction (fst v) (mkParamsDict bunch (snd v))).
Qed.

Lemma syncPart_set_time_run (bunch : nat) (t : Q) (w : World) (b : Bunch) :
  bunches w !! bunch = Some b ->
  syncPart_set_time bunch t w
  = (Ok tt, mkWorld (<[bunch := with_time t b]> (bunches w)) (lattice w)).
Proof. intros Hb. unfold syncPart_set_time. rewrite (TPB_unfold _ _ w b Hb). reflexivity. Qed.

Lemma LinacAccLattice_trackBunch_run (bunch : nat) (w : World) (b : Bunch) :
  bunches w !! bunch = Some b ->
  LinacAccLattice_trackBunch bunch w
  = trackActions track bunch (mkWorld (<[bunch := with_time 0 b]> (bunches w)) (lattice w)).
Proof.
  intros Hb. unfold LinacAccLattice_trackBunch.
  rewrite bind_unfold, (syncPart_set_time_run bunch 0 w b Hb). reflexivity.
Qed.

Lemma read_bunch_run (bunch : nat) (w : World) (b : Bunch) :
  bunches w !! bunch = Some b -> read_bunch bunch w = (Ok b, w).
Proof. intros Hb. unfold read_bunch. mstep. rewrite Hb. reflexivity. Qed.

Lemma fresh_bunch_is_new (w : World) : bunches w !! fresh (dom (bunches w)) = None.
Proof. apply not_elem_of_dom. apply is_fresh. Qed.

Lemma LinacAccLattice_trackDesignBunch_run (bunch_in : nat) (w : World) (b : Bunch) :
  bunches w !! bunch_in = Some b ->
  LinacAccLattice_trackDesignBunch bunch_in w
  = trackActions trackDesignBunch (fresh (dom (bunches w)))
      (mkWorld (<[fresh (dom (bunches w)) := with_time 0 (copyEmptyBunchTo b Bunch_new)]>
                  (bunches w))
         (lattice w)).
Proof.
  intros Hb. set (copy := fresh (dom (bunches w))).
  assert (copy <> bunch_in) as Hne.
  { intros Heq. pose proof (fresh_bunch_is_new w) as Hnew. fold copy in Hnew.
    rewrite Heq, Hb in Hnew. discriminate Hnew. }
  assert (new_bunch w = (Ok copy, mkWorld (<[copy := Bunch_new]> (bunches w)) (lattice w)))
    as Hnew by reflexivity.
  unfold LinacAccLattice_trackDesignBunch.
  rewrite bind_unfold, Hnew. cbv beta iota.
  rewrite bind_unfold.
  rewrite (read_bunch_run bunch_in _ b)
    by (cbn [bunches]; rewrite lookup_insert_ne by exact Hne; exact Hb).
  cbv beta iota. rewrite bind_unfold.
  rewrite (TPB_unfold copy _ _ Bunch_new) by (cbn [bunches]; apply lookup_insert_eq).
  cbv beta iota. cbn [bunches lattice].
  rewrite bind_unfold.
  rewrite (syncPart_set_time_run copy 0 _ (copyEmptyBunchTo b Bunch_new))
    by (cbn [bunches]; apply lookup_insert_eq).
  cbv beta iota. cbn [bunches lattice].
  rewrite !insert_insert_eq. reflexivity.
Qed.

(** C9. For a bunch [bunch_in] of the store, [trackDesignBunch] creates
    a new bunch object, makes it the empty copy of [bunch_in] at time 0
    and walks the lattice with that copy: every bunch that was in the
    store, [bunch_in] with its particle coordinates among them, is
    unchanged afterwards, whether the pass completes or raises.
    [trackBunch] walks the lattice with [bunch_in] itself, after setting
    its time to 0: it creates no bunch and changes no other bunch. *)
Theorem trackDesignBunch_tracks_a_copy (bunch_in : nat) (w : World) (b : Bunch) :
  bunches w !! bunch_in = Some b ->
  let design := snd (LinacAccLattice_trackDesignBunch bunch_in w) in
  let operational := snd (LinacAccLattice_trackBunch bunch_in w) in
  let copy := fresh (dom (bunches w)) in
  bunches design !! bunch_in = Some b /\
  (forall k, is_Some (bunches w !! k) -> bunches design !! k = bunches w !! k) /\
  bunches w !! copy = None /\
  is_Some (bunches design !! copy) /\
  LinacAccLattice_trackDesignBunch bunch_in w
    = trackActions trackDesignBunch copy
        (mkWorld (<[copy := mkBunch [] (mkSyncPart 0 (sync_kinEnergy (syncParticle b)))
                              (bunch_charge b) (bunch_mass b)]> (bunches w))
           (lattice w)) /\
  LinacAccLattice_trackBunch bunch_in w
    = trackActions track bunch_in
        (mkWorld (<[bunch_in := with_time 0 b]> (bunches w)) (lattice w)) /\
  (forall k, k <> bunch_in -> bunches operational !! k = bunches w !! k) /\
  (forall k, is_Some (bunches operational !! k) <-> is_Some (bunches w !! k)).
Proof.
  intros Hb design operational copy.
  pose proof (fresh_bunch_is_new w) as Hnew. fold copy in Hnew.
  assert (copy <> bunch_in) as Hne.
  { intros Heq. rewrite Heq, Hb in Hnew. discriminate Hnew. }
  pose proof (LinacAccLattice_trackDesignBunch_run bunch_in w b Hb) as Hdesign.
  fold copy in Hdesign.
  pose proof (LinacAccLattice_trackBunch_run bunch_in w b Hb) as Hoper.
  pose proof (trackActions_only_bunch trackDesignBunch copy trackDesignBunch_only_bunch
                (mkWorld (<[copy := with_time 0 (copyEmptyBunchTo b Bunch_new)]> (bunches w))
                   (lattice w))) as [Hothers Hcopy].
  rewrite <- Hdesign in Hothers, Hcopy. fold design in Hothers, Hcopy.
  cbn [bunches] in Hothers, Hcopy.
  pose proof (trackActions_only_bunch track bunch_in track_only_bunch
                (mkWorld (<[bunch_in := with_time 0 b]> (bunches w)) (lattice w)))
    as [Hoper_others Hoper_in].
  rewrite <- Hoper in Hoper_others, Hoper_in. fold operational in Hoper_others, Hoper_in.
  cbn [bunches] in Hoper_others, Hoper_in.
  assert (forall k, is_Some (bunches w !! k) -> bunches design !! k = bunches w !! k) as Hkept.
  { intros k Hk. assert (k <> copy) as Hkc.
    { intros ->. rewrite Hnew in Hk. destruct Hk as [? Hk]. discriminate Hk. }
    rewrite (Hothers k Hkc). apply lookup_insert_ne. congruence. }
  split; [rewrite Hkept by (rewrite Hb; eexists; reflexivity); exact Hb|].
  split; [exact Hkept|]. split; [exact Hnew|].
  split; [apply Hcopy; rewrite lookup_insert_eq; eexists; reflexivity|].
  split; [exact Hdesign|]. split; [exact Hoper|]. split.
  - intros k Hk. rewrite (Hoper_others k Hk). apply lookup_insert_ne. congruence.
  - intros k. destruct (decide (k = bunch_in)) as [->|Hk].
    + rewrite Hoper_in, lookup_insert_eq, Hb. split; intros _; eexists; reflexivity.
    + rewrite (Hoper_others k Hk), lookup_insert_ne by congruence. reflexivity.
Qed.

End Passes.

(** The design pass over the lattice of the scenario leaves the bunch
    it is given as it was. *)
Lemma trackDesignBunch_tracks_a_copy_witness :
  bunches (snd (@LinacAccLattice_trackDesignBunch still_kernel 0 scenario_world)) !! 0%nat
  = Some scenario_bunch.
Proof.
  exact (proj1 (@trackDesignBunch_tracks_a_copy still_kernel 0%nat scenario_world
                  scenario_bunch eq_refl)).
Defined.

(** The two passes on the lattice of the scenario: the design pass
    completes, stores the design arrival time of cavity "C1" and leaves
    its flag False; the operational pass that follows stops with the
    AttributeError at the RF gap and never stores a first-gap time. *)
Example scenario_passes :
  let design := @LinacAccLattice_trackDesignBunch still_kernel 0 scenario_world in
  let operational := @LinacAccLattice_trackBunch still_kernel 0 (snd design) in
  fst design = Ok tt /\
  cavity_param (snd design) 0 "designArrivalTime" = Some (PyFloat 0) /\
  design_flag (snd design) 0 = Some (PyBool false) /\
  fst operational = Raise (AttributeError "frequency") /\
  cavity_param (snd operational) 0 "firstGapTime" = Some (PyFloat 0).
Proof. vm_compute. repeat split; reflexivity. Qed.

(** ** The cavity a gap joins *)

(** C4, at a failing input.  For the elements G1 of cavity "A", G2 of
    cavity "B", G3 of cavity "A", in this order, the factory builds the
    cavities "A" and "B"; G3, which names "A", is added to "B", the
    cavity made last: "A" keeps the gap G1 alone, "B" holds G2 and G3,
    and the cavity G3 refers to is "B". *)
Theorem interleaved_gap_joins_last_cavity :
  getLinacAccLattice interleaved_tree ["SEQ"%string] = Ok interleaved_lattice /\
  (fun cav => (cav_name cav, rfGaps cav)) <$> rfCavities interleaved_lattice
  = [("A"%string, [0%nat]); ("B"%string, [1%nat; 2%nat])] /\
  gap_summary <$> filter (fun n => cls n = BaseRF_Gap_cls) (lat_nodes interleaved_lattice)
  = [("G1"%string, true, Some (PyCavity 0));
     ("G2"%string, true, Some (PyCavity 1));
     ("G3"%string, false, Some (PyCavity 1))].
Proof. vm_compute. repeat split; reflexivity. Qed.

(** ** Tiling of a sequence *)

Lemma chainedb_chained (eps from : Q) (nodes : list AccNode) (to : Q) :
  chained eps from nodes to <-> chainedb eps from nodes to = true.
Proof.
  revert from. induction nodes as [|n rest IH]; intros from; simpl.
  - symmetry. apply Qle_bool_iff.
  - split.
    + intros (lead & trail & -> & -> & Hlead & Hrest).
      apply andb_true_iff. split; [apply Qle_bool_iff; exact Hlead | apply IH; exact Hrest].
    + destruct (leading_edge n) as [lead|]; [|discriminate].
      destruct (trailing_edge n) as [trail|]; [|discriminate].
      intros [Hlead Hrest]%andb_true_iff. exists lead, trail.
      repeat split; [apply Qle_bool_iff; exact Hlead | apply IH; exact Hrest].
Qed.

(** The sequence of length 10 built from an RF gap
    from 9 to 10 and two markers at 9.000009 and 8.999991 is returned
    with the nodes drift, J, K, G1.  The two markers stand next to each
    other and 1.8e-5 apart, more than [zeroDistance]: the extents of
    the nodes of the sequence do not tile it. *)
Lemma stacked_thin_elements_break_tiling :
  getLinacAccLattice stacked_tree ["SEQ"%string] = Ok stacked_lattice /\
  exists seq, sequences stacked_lattice = [seq] /\
              acc_name <$> linacNodes seq = ["SEQ:drift"; "J"; "K"; "G1"]%string /\
              Sequence_getLength seq = Ok 10 /\
              ~ tiles zeroDistance 10 (linacNodes seq).
Proof.
  split; [vm_compute; reflexivity|].
  eexists. split; [vm_compute; reflexivity|].
  split; [vm_compute; reflexivity|]. split; [vm_compute; reflexivity|].
  intros [_ Hchain]. apply chainedb_chained in Hchain.
  vm_compute in Hchain. discriminate Hchain.
Qed.

(** A marker in the middle of an RF gap is put at the drift before
    the gap, which is cut in two at the marker: the first part runs
    from 0 to the marker, beyond the leading edge of the gap, and the
    second part back to that edge, with a negative length. *)
Lemma marker_inside_gap_makes_negative_drift :
  getLinacAccLattice inside_tree ["SEQ"%string] = Ok inside_lattice /\
  exists seq,
    sequences inside_lattice = [seq] /\
    (fun n => (acc_name n, Qred (acc_length n))) <$> linacNodes seq
    = [("SEQ:drift", 19 # 2); ("K", 0); ("SEQ:drift", -1 # 2); ("G1", 1)]%string /\
    tiles zeroDistance 10 (linacNodes seq).
Proof.
  split; [vm_compute; reflexivity|].
  eexists. split; [vm_compute; reflexivity|]. split; [vm_compute; reflexivity|].
  split; [discriminate|]. apply chainedb_chained. vm_compute. reflexivity.
Qed.

Lemma Qabs_le_Qeq (x y eps : Q) : x == y -> Qabs x <= eps -> Qabs y <= eps.
Proof. intros Heq H. rewrite <- Heq. exact H. Qed.

Lemma chained_from_Qeq (eps from from' : Q) (nodes : list AccNode) (to : Q) :
  from == from' -> chained eps from nodes to -> chained eps from' nodes to.
Proof.
  intros Heq. destruct nodes as [|n rest]; cbn [chained linked app].
  - apply Qabs_le_Qeq. rewrite Heq. reflexivity.
  - intros (lead & trail & Hl & Ht & Hlead & Hrest). exists lead, trail.
    repeat split; try assumption. revert Hlead. apply Qabs_le_Qeq. rewrite Heq. reflexivity.
Qed.

Lemma linked_chained_app (eps from m : Q) (l1 l2 : list AccNode) (to : Q) :
  linked eps from l1 m -> chained eps m l2 to -> chained eps from (l1 ++ l2) to.
Proof.
  revert from. induction l1 as [|n rest IH]; intros from; cbn [chained linked app].
  - intros Hm Hchain. eapply chained_from_Qeq; [exact Hm | exact Hchain].
  - intros (lead & trail & Hl & Ht & Hlead & Hrest) Hchain. exists lead, trail.
    repeat split; try assumption. apply IH; assumption.
Qed.

Lemma chained_app_inv (eps from : Q) (l1 l2 : list AccNode) (to : Q) :
  chained eps from (l1 ++ l2) to ->
  exists m, linked eps from l1 m /\ chained eps m l2 to.
Proof.
  revert from. induction l1 as [|n rest IH]; intros from; cbn [chained linked app].
  - intros Hchain. exists from. split; [reflexivity | exact Hchain].
  - intros (lead & trail & Hl & Ht & Hlead & Hrest).
    destruct (IH trail Hrest) as (m & Hlink & Hchain).
    exists m. split; [|exact Hchain]. exists lead, trail. repeat split; assumption.
Qed.

(** The edges of a node from its position and length. *)
Lemma edges_of_pos (n : AccNode) (pos : Q) :
  node_pos n = Ok pos ->
  leading_edge n = Ok (pos - acc_length n / 2) /\
  trailing_edge n = Ok (pos + acc_length n / 2).
Proof. intros Hpos. unfold leading_edge, trailing_edge. rewrite Hpos. split; reflexivity. Qed.

Lemma leading_edge_pos (n : AccNode) (lead : Q) :
  leading_edge n = Ok lead ->
  exists pos, node_pos n = Ok pos /\ lead = pos - acc_length n / 2.
Proof.
  unfold leading_edge. destruct (node_pos n) as [pos|e]; [|discriminate].
  simpl. intros [= <-]. exists pos. split; reflexivity.
Qed.

Lemma trailing_edge_pos (n : AccNode) (trail : Q) :
  trailing_edge n = Ok trail ->
  exists pos, node_pos n = Ok pos /\ trail = pos + acc_length n / 2.
Proof.
  unfold trailing_edge. destruct (node_pos n) as [pos|e]; [|discriminate].
  simpl. intros [= <-]. exists pos. split; reflexivity.
Qed.

(** *** The state of the factory *)

Lemma new_drift_run (L pos : Q) (f : Factory) :
  new_drift L pos f = (Ok (the_drift f L pos), set_next_oid (S (next_oid f)) f).
Proof. reflexivity. Qed.

Lemma the_drift_pos (f : Factory) (L pos : Q) : node_pos (the_drift f L pos) = Ok pos.
Proof.
  unfold node_pos, getFloat, getParam, the_drift, node_setParam, setParam. simpl.
  rewrite lookup_insert_eq. reflexivity.
Qed.

Lemma the_drift_edges (f : Factory) (L pos : Q) :
  leading_edge (the_drift f L pos) = Ok (pos - L / 2) /\
  trailing_edge (the_drift f L pos) = Ok (pos + L / 2).
Proof. exact (edges_of_pos (the_drift f L pos) pos (the_drift_pos f L pos)). Qed.

Lemma accSeq_addNode_run (node : AccNode) (index : Z) (f : Factory) :
  accSeq_addNode node index f = (Ok tt, set_accSeq (Sequence_addNode node index (accSeq f)) f).
Proof. reflexivity. Qed.

Lemma index_of_here (l1 : list AccNode) (n : AccNode) (l2 : list AccNode) :
  oid n ∉ (oid <$> l1) ->
  index_of (oid n) (l1 ++ n :: l2) = Ok (Z.of_nat (List.length l1)).
Proof.
  induction l1 as [|x l1 IH]; simpl; intros Hnot.
  - destruct (decide (oid n = oid n)) as [_|Hne]; [reflexivity | contradiction].
  - destruct (decide (oid x = oid n)) as [Heq|_].
    + exfalso. apply Hnot. rewrite Heq. left.
    + rewrite IH by (intros Hin; apply Hnot; right; exact Hin).
      f_equal. lia.
Qed.

Lemma index_of_split (id : nat) (l : list AccNode) (i : Z) :
  index_of id l = Ok i ->
  exists l1 n l2, l = l1 ++ n :: l2 /\ oid n = id /\ i = Z.of_nat (List.length l1) /\
                  id ∉ (oid <$> l1).
Proof.
  revert i. induction l as [|x l IH]; simpl; intros i; [discriminate|].
  destruct (decide (oid x = id)) as [Heq|Hne].
  - intros [= <-]. exists [], x, l. repeat split; [exact Heq | apply not_elem_of_nil].
  - destruct (index_of id l) as [j|e]; [|discriminate]. intros [= <-].
    destruct (IH j eq_refl) as (l1 & n & l2 & -> & Hn & -> & Hnot).
    exists (x :: l1), n, l2. repeat split; [exact Hn | simpl; lia |].
    simpl. intros [Heq|Hin]%elem_of_cons; [congruence | contradiction].
Qed.

Lemma remove_node_split (id : nat) (l1 : list AccNode) (n : AccNode) (l2 : list AccNode) :
  oid n = id -> id ∉ (oid <$> l1) ->
  remove_node id (l1 ++ n :: l2) = Ok (l1 ++ l2).
Proof.
  intros Hn. induction l1 as [|x l1 IH]; simpl; intros Hnot.
  - destruct (decide (oid n = id)) as [_|Hne]; [reflexivity | contradiction].
  - destruct (decide (oid x = id)) as [Heq|_].
    + exfalso. apply Hnot. rewrite Heq. left.
    + rewrite IH by (intros Hin; apply Hnot; right; exact Hin). reflexivity.
Qed.

Lemma insert_at_length {A} (l1 : list A) (x : A) (l2 : list A) :
  list_insert_at (List.length l1) x (l1 ++ l2) = l1 ++ x :: l2.
Proof. unfold list_insert_at. rewrite take_app_length, drop_app_length. reflexivity. Qed.

Lemma addNode_at (node : AccNode) (s : Sequence) (l1 l2 : list AccNode) :
  linacNodes s = l1 ++ l2 ->
  linacNodes (Sequence_addNode node (Z.of_nat (List.length l1)) s) = l1 ++ node :: l2.
Proof.
  intros Hs. unfold Sequence_addNode.
  destruct (Z.ltb_spec (Z.of_nat (List.length l1)) 0) as [Hneg|_]; [lia|].
  simpl. rewrite Nat2Z.id, Hs. apply insert_at_length.
Qed.

Lemma addNode_end (node : AccNode) (s : Sequence) :
  linacNodes (Sequence_addNode node (-1) s) = linacNodes s ++ [node].
Proof. reflexivity. Qed.

Lemma same_sequence_refl (f : Factory) : same_sequence f f.
Proof. repeat split; reflexivity. Qed.

Lemma same_sequence_trans (f1 f2 f3 : Factory) :
  same_sequence f1 f2 -> same_sequence f2 f3 -> same_sequence f1 f3.
Proof.
  intros (Hp12 & Hl12 & Ho12) (Hp23 & Hl23 & Ho23).
  repeat split; [congruence | congruence | lia].
Qed.

Lemma the_drift_facts (f : Factory) (L pos : Q) :
  oid (the_drift f L pos) = next_oid f /\ cls (the_drift f L pos) = Drift_cls /\
  acc_length (the_drift f L pos) = L /\ is_thin (the_drift f L pos) = false.
Proof. repeat split; reflexivity. Qed.

(** *** The drift between two neighbours *)

Lemma drift_between_eq (accNode0 accNode1 : AccNode) (f : Factory) (pos0 pos1 : Q) :
  node_pos accNode1 = Ok pos1 ->
  node_pos accNode0 = Ok pos0 ->
  let dist := pos1 - acc_length accNode1 / 2 - (pos0 + acc_length accNode0 / 2) in
  drift_between accNode0 accNode1 f
  = if Qlt_le_dec dist 0 then
      (Raise (OrbitFinalize "The LinacLatticeFactory method getLinacAccLattice(names): two nodes are overlapping!"), f)
    else if Qlt_le_dec zeroDistance dist then
      match index_of (oid accNode1) (seq_nodes f) with
      | Ok ind_of_node =>
          (Ok tt,
           set_accSeq (Sequence_addNode
                         (the_drift f dist (pos0 + (acc_length accNode0 + dist) / 2))
                         ind_of_node (accSeq f))
             (set_next_oid (S (next_oid f)) f))
      | Raise e => (Raise e, set_next_oid (S (next_oid f)) f)
      end
    else (Ok tt, f).
Proof.
  intros Hpos1 Hpos0 dist. unfold drift_between. cbv [mbind M_bind lift].
  rewrite Hpos1. cbv beta iota.
  change (getLength accNode1 (-1)) with (Ok (acc_length accNode1)). cbv beta iota.
  rewrite Hpos0. cbv beta iota.
  change (getLength accNode0 (-1)) with (Ok (acc_length accNode0)). cbv beta iota.
  fold dist. destruct (Qlt_le_dec dist 0); [reflexivity|].
  destruct (Qlt_le_dec zeroDistance dist); [|reflexivity].
  rewrite new_drift_run. cbv beta iota. unfold getNodes, seq_nodes.
  cbv [mbind M_bind mret M_ret get lift]. cbn [accSeq set_next_oid].
  destruct (index_of (oid accNode1) (linacNodes (accSeq f))); reflexivity.
Qed.

(** The three cases of [drift_between], for nodes with a position: the
    gap is the leading edge of the second node minus the trailing edge
    of the first. *)
Lemma drift_between_cases (accNode0 accNode1 : AccNode) (f : Factory) (lead1 trail0 : Q) :
  leading_edge accNode1 = Ok lead1 ->
  trailing_edge accNode0 = Ok trail0 ->
  let dist := lead1 - trail0 in
  (dist < 0 ->
   drift_between accNode0 accNode1 f
   = (Raise (OrbitFinalize "The LinacLatticeFactory method getLinacAccLattice(names): two nodes are overlapping!"), f)) /\
  (0 <= dist -> dist <= zeroDistance -> drift_between accNode0 accNode1 f = (Ok tt, f)) /\
  (zeroDistance < dist ->
   exists drift,
     oid drift = next_oid f /\ cls drift = Drift_cls /\ acc_length drift = dist /\
     (exists lead trail, leading_edge drift = Ok lead /\ trailing_edge drift = Ok trail /\
                         lead == trail0 /\ trail == lead1) /\
     drift_between accNode0 accNode1 f
     = match index_of (oid accNode1) (seq_nodes f) with
       | Ok ind_of_node =>
           (Ok tt, set_accSeq (Sequence_addNode drift ind_of_node (accSeq f))
                     (set_next_oid (S (next_oid f)) f))
       | Raise e => (Raise e, set_next_oid (S (next_oid f)) f)
       end).
Proof.
  intros Hlead Htrail dist.
  destruct (leading_edge_pos _ _ Hlead) as (pos1 & Hpos1 & ->).
  destruct (trailing_edge_pos _ _ Htrail) as (pos0 & Hpos0 & ->).
  rewrite (drift_between_eq accNode0 accNode1 f pos0 pos1 Hpos1 Hpos0). fold dist.
  assert (zeroDistance == 1 # 100000) as Heps by reflexivity.
  split; [|split].
  - intros Hneg. destruct (Qlt_le_dec dist 0) as [_|Hge]; [reflexivity|].
    exfalso. apply (Qlt_not_le _ _ Hneg Hge).
  - intros Hge Hle. destruct (Qlt_le_dec dist 0) as [Hneg|_].
    { exfalso. apply (Qlt_not_le _ _ Hneg Hge). }
    destruct (Qlt_le_dec zeroDistance dist) as [Hgt|_]; [|reflexivity].
    exfalso. apply (Qlt_not_le _ _ Hgt Hle).
  - intros Hgt. destruct (Qlt_le_dec dist 0) as [Hneg|_].
    { exfalso. rewrite Heps in Hgt. lra. }
    destruct (Qlt_le_dec zeroDistance dist) as [_|Hle];
      [|exfalso; apply (Qlt_not_le _ _ Hgt Hle)].
    exists (the_drift f dist (pos0 + (acc_length accNode0 + dist) / 2)).
    destruct (the_drift_facts f dist (pos0 + (acc_length accNode0 + dist) / 2))
      as (Hoid & Hcls & HL & _).
    destruct (the_drift_edges f dist (pos0 + (acc_length accNode0 + dist) / 2))
      as (Hld & Htd).
    split; [exact Hoid|]. split; [exact Hcls|]. split; [exact HL|]. split.
    + eexists _, _. split; [exact Hld|]. split; [exact Htd|].
      subst dist. split; field.
    + reflexivity.
Qed.

Lemma drift_between_inv (accNode0 accNode1 : AccNode) (f f1 : Factory) :
  drift_between accNode0 accNode1 f = (Ok tt, f1) ->
  exists lead1 trail1 trail0,
    leading_edge accNode1 = Ok lead1 /\ trailing_edge accNode1 = Ok trail1 /\
    trailing_edge accNode0 = Ok trail0 /\
    ((f1 = f /\ Qabs (lead1 - trail0) <= zeroDistance) \/
     (exists drift ind_of_node lead trail,
        index_of (oid accNode1) (seq_nodes f) = Ok ind_of_node /\
        f1 = set_accSeq (Sequence_addNode drift ind_of_node (accSeq f))
               (set_next_oid (S (next_oid f)) f) /\
        oid drift = next_oid f /\ is_thin drift = false /\
        leading_edge drift = Ok lead /\ trailing_edge drift = Ok trail /\
        lead == trail0 /\ trail == lead1)).
Proof.
  intros Hrun.
  destruct (node_pos accNode1) as [pos1|e1] eqn:Hpos1.
  2: { unfold drift_between in Hrun. rewrite Hpos1 in Hrun. discriminate Hrun. }
  destruct (node_pos accNode0) as [pos0|e0] eqn:Hpos0.
  2: { unfold drift_between in Hrun. cbv [mbind M_bind lift] in Hrun.
       rewrite Hpos1 in Hrun. cbv beta iota in Hrun.
       change (getLength accNode1 (-1)) with (Ok (acc_length accNode1)) in Hrun.
       cbv beta iota in Hrun. rewrite Hpos0 in Hrun. discriminate Hrun. }
  destruct (edges_of_pos accNode1 pos1 Hpos1) as [Hlead1 Htrail1].
  destruct (edges_of_pos accNode0 pos0 Hpos0) as [_ Htrail0].
  rewrite (drift_between_eq accNode0 accNode1 f pos0 pos1 Hpos1 Hpos0) in Hrun.
  cbv zeta in Hrun.
  set (dist := pos1 - acc_length accNode1 / 2 - (pos0 + acc_length accNode0 / 2)) in *.
  eexists _, _, _. split; [exact Hlead1|]. split; [exact Htrail1|]. split; [exact Htrail0|].
  fold dist.
  destruct (Qlt_le_dec dist 0) as [Hneg|Hge]; [discriminate Hrun|].
  destruct (Qlt_le_dec zeroDistance dist) as [Hgt|Hle].
  - destruct (index_of (oid accNode1) (seq_nodes f)) as [i|e] eqn:Hind; [|discriminate Hrun].
    injection Hrun as <-.
    destruct (the_drift_edges f dist (pos0 + (acc_length accNode0 + dist) / 2)) as (Hld & Htd).
    right. eexists _, _, _, _. split; [reflexivity|]. split; [reflexivity|].
    split; [reflexivity|]. split; [reflexivity|]. split; [exact Hld|]. split; [exact Htd|].
    subst dist. split; field.
  - injection Hrun as <-. left. split; [reflexivity|].
    rewrite Qabs_pos by exact Hge. exact Hle.
Qed.

Lemma last_cons {A} (b : A) (l : list A) (a : A) : List.last (b :: l) a = List.last l b.
Proof.
  revert a b. induction l as [|x l IH]; intros a b; [reflexivity|].
  change (List.last (b :: x :: l) a) with (List.last (x :: l) a).
  rewrite (IH a x). symmetry. apply IH.
Qed.

Lemma distinct_oids_insert (f f1 : Factory) (l1 l2 : list AccNode) (d : AccNode) :
  distinct_oids f ->
  seq_nodes f = l1 ++ l2 ->
  seq_nodes f1 = l1 ++ d :: l2 ->
  oid d = next_oid f ->
  next_oid f1 = S (next_oid f) ->
  distinct_oids f1.
Proof.
  intros [Hnodup Hbound] Hf Hf1 Hd Hnext. unfold distinct_oids. rewrite Hf1, Hnext.
  rewrite Hf in Hnodup, Hbound. split.
  - rewrite fmap_app, fmap_cons. rewrite <- Permutation_middle. apply NoDup_cons. split.
    + rewrite <- fmap_app. intros (n & Hn & Hin)%list_elem_of_fmap.
      rewrite Forall_forall in Hbound. specialize (Hbound n Hin). lia.
    + rewrite <- fmap_app. exact Hnodup.
  - apply Forall_app in Hbound as [Hb1 Hb2]. apply Forall_app. split; [|apply Forall_cons; split].
    + eapply Forall_impl; [exact Hb1 | intros n Hn; simpl in Hn; lia].
    + lia.
    + eapply Forall_impl; [exact Hb2 | intros n Hn; simpl in Hn; lia].
Qed.

Lemma distinct_oids_not_before (f : Factory) (l1 : list AccNode) (n : AccNode) (l2 : list AccNode) :
  distinct_oids f -> seq_nodes f = l1 ++ n :: l2 -> oid n ∉ (oid <$> l1).
Proof.
  intros [Hnodup _] Hf. rewrite Hf, fmap_app, fmap_cons in Hnodup.
  apply NoDup_app in Hnodup as (_ & Hdisj & _).
  intros Hin. apply (Hdisj _ Hin). left.
Qed.

Lemma Sequence_addNode_params (node : AccNode) (index : Z) (s : Sequence) :
  seq_paramsDict (Sequence_addNode node index s) = seq_paramsDict s.
Proof. unfold Sequence_addNode. destruct (index <? 0)%Z; reflexivity. Qed.

Lemma same_sequence_add (node : AccNode) (index : Z) (f : Factory) :
  same_sequence f (set_accSeq (Sequence_addNode node index (accSeq f))
                     (set_next_oid (S (next_oid f)) f)).
Proof.
  split; [|split]; cbn [accSeq set_accSeq set_next_oid linacAccLattice next_oid].
  - apply Sequence_addNode_params.
  - reflexivity.
  - lia.
Qed.

(** The loop over the pairs of neighbours: between [a] and the rest of
    the thick nodes it leaves a list [mid] that leads from the trailing
    edge of [a] to the trailing edge of the last of them. *)
Lemma drift_between_loop (rest : list AccNode) :
  forall (a : AccNode) (front post : list AccNode) (f f' : Factory) (ta : Q),
    seq_nodes f = front ++ a :: rest ++ post ->
    distinct_oids f ->
    trailing_edge a = Ok ta ->
    Forall (fun n => is_thin n = false) rest ->
    for_each (pairs (a :: rest)) (fun p => drift_between (fst p) (snd p)) f = (Ok tt, f') ->
    exists mid tl,
      seq_nodes f' = front ++ a :: mid ++ post /\
      trailing_edge (List.last rest a) = Ok tl /\
      linked zeroDistance ta mid tl /\
      Forall (fun n => is_thin n = false) mid /\
      distinct_oids f' /\ same_sequence f f'.
Proof.
  induction rest as [|b rest IH]; intros a front post f f' ta Hnodes Hdistinct Hta Hthick Hrun.
  - cbn [pairs for_each] in Hrun. rewrite ret_unfold in Hrun. injection Hrun as <-.
    exists [], ta. split; [exact Hnodes|]. split; [exact Hta|].
    split; [cbn [linked]; reflexivity|]. split; [constructor|].
    split; [exact Hdistinct | apply same_sequence_refl].
  - change (pairs (a :: b :: rest)) with ((a, b) :: pairs (b :: rest)) in Hrun.
    cbn [for_each] in Hrun.
    apply bind_Ok_inv in Hrun as ([] & f1 & Hstep & Hrun). cbn [fst snd] in Hstep.
    destruct (drift_between_inv a b f f1 Hstep)
      as (lead1 & trail1 & trail0 & Hlead1 & Htrail1 & Htrail0 & Hcase).
    rewrite Hta in Htrail0. injection Htrail0 as <-.
    apply Forall_cons in Hthick as [Hb Hthick].
    rewrite last_cons.
    destruct Hcase as [[-> Hgap] | (d & i & ld & td & Hind & -> & Hoid & Hd & Hld & Htd & Hl & Ht)].
    + destruct (IH b (front ++ [a]) post f f' trail1) as (mid & tl & Hn' & Hlast & Hlinked & Hmid & Hdist' & Hsame);
        [rewrite <- app_assoc; exact Hnodes | exact Hdistinct | exact Htrail1 | exact Hthick | exact Hrun |].
      exists (b :: mid), tl. split; [rewrite Hn', <- app_assoc; reflexivity|].
      split; [exact Hlast|]. split; [|split; [|split; assumption]].
      * cbn [linked]. exists lead1, trail1. repeat split; assumption.
      * apply Forall_cons. split; assumption.
    + assert (seq_nodes f = (front ++ [a]) ++ b :: rest ++ post) as Hnodes2
        by (rewrite <- app_assoc; exact Hnodes).
      pose proof (distinct_oids_not_before f _ _ _ Hdistinct Hnodes2) as Hnot.
      rewrite Hnodes2, (index_of_here _ _ _ Hnot) in Hind. injection Hind as <-.
      set (f1 := set_accSeq (Sequence_addNode d (Z.of_nat (List.length (front ++ [a]))) (accSeq f))
                   (set_next_oid (S (next_oid f)) f)) in *.
      assert (seq_nodes f1 = (front ++ [a]) ++ d :: b :: rest ++ post) as Hnodes1.
      { unfold f1, seq_nodes. cbn [accSeq set_accSeq]. apply addNode_at. exact Hnodes2. }
      assert (distinct_oids f1) as Hdistinct1.
      { apply (distinct_oids_insert f f1 (front ++ [a]) (b :: rest ++ post) d);
          [exact Hdistinct | exact Hnodes2 | exact Hnodes1 | exact Hoid | reflexivity]. }
      destruct (IH b (front ++ [a; d]) post f1 f' trail1)
        as (mid & tl & Hn' & Hlast & Hlinked & Hmid & Hdist' & Hsame);
        [ rewrite Hnodes1, <- !app_assoc; reflexivity | exact Hdistinct1 | exact Htrail1
        | exact Hthick | exact Hrun |].
      exists (d :: b :: mid), tl. split; [rewrite Hn', <- !app_assoc; reflexivity|].
      split; [exact Hlast|]. split; [|split; [|split]].
      * cbn [linked]. exists ld, td. split; [exact Hld|]. split; [exact Htd|]. split.
        { apply (Qabs_le_Qeq 0); [rewrite Hl; ring | discriminate]. }
        exists lead1, trail1. split; [exact Hlead1|]. split; [exact Htrail1|]. split.
        { apply (Qabs_le_Qeq 0); [rewrite Ht; ring | discriminate]. }
        exact Hlinked.
      * apply Forall_cons. split; [exact Hd|]. apply Forall_cons. split; assumption.
      * exact Hdist'.
      * eapply same_sequence_trans; [apply same_sequence_add | exact Hsame].
Qed.

(** *** Running a computation backwards *)

Lemma ret_Ok_inv {S A} (a b : A) (s s' : S) :
  (mret a : M S A) s = (Ok b, s') -> b = a /\ s' = s.
Proof. rewrite ret_unfold. intros H. inversion H. split; reflexivity. Qed.

Lemma get_Ok_inv {S} (s s' a : S) : get s = (Ok a, s') -> a = s /\ s' = s.
Proof. rewrite get_unfold. intros H. inversion H. split; reflexivity. Qed.

Lemma put_Ok_inv {S} (x s s' : S) (u : unit) : put x s = (Ok u, s') -> s' = x.
Proof. rewrite put_unfold. intros H. inversion H. reflexivity. Qed.

Lemma modify_Ok_inv {S} (g : S -> S) (s s' : S) (u : unit) :
  modify g s = (Ok u, s') -> s' = g s.
Proof. rewrite modify_unfold. intros H. inversion H. reflexivity. Qed.

Lemma raise_Ok_inv {S A} (e : exn) (s s' : S) (a : A) :
  (raise e : M S A) s = (Ok a, s') -> False.
Proof. rewrite raise_unfold. intros H. discriminate H. Qed.

Lemma new_oid_Ok_inv (f f' : Factory) (id : nat) :
  new_oid f = (Ok id, f') -> id = next_oid f /\ f' = set_next_oid (S (next_oid f)) f.
Proof. intros H. inversion H. split; reflexivity. Qed.

Lemma getNodes_Ok_inv (f f' : Factory) (nodes : list AccNode) :
  getNodes f = (Ok nodes, f') -> nodes = seq_nodes f /\ f' = f.
Proof. intros H. inversion H. split; reflexivity. Qed.

Lemma on_node_Ok_inv {S} (m : M AccNode unit) (n n' : AccNode) (s s' : S) :
  on_node m n s = (Ok n', s') -> m n = (Ok tt, n') /\ s' = s.
Proof.
  unfold on_node. destruct (m n) as [[[]|e] n1]; intros H; inversion H.
  split; reflexivity.
Qed.

Lemma accSeq_addNode_Ok_inv (node : AccNode) (index : Z) (f f' : Factory) (u : unit) :
  accSeq_addNode node index f = (Ok u, f') ->
  f' = set_accSeq (Sequence_addNode node index (accSeq f)) f.
Proof. rewrite accSeq_addNode_run. intros H. inversion H. reflexivity. Qed.

(** One step of a run that returned: the first action and the rest. *)
Ltac inv_atom H :=
  lazymatch type of H with
  | lift _ _ = (Ok _, _) => apply lift_Ok_inv in H as [H ->]
  | get _ = (Ok _, _) => apply get_Ok_inv in H as [-> ->]
  | getNodes _ = (Ok _, _) => apply getNodes_Ok_inv in H as [-> ->]
  | new_oid _ = (Ok _, _) => apply new_oid_Ok_inv in H as [-> ->]
  | put _ _ = (Ok _, _) => apply put_Ok_inv in H as ->
  | modify _ _ = (Ok _, _) => apply modify_Ok_inv in H as ->
  | on_node _ _ _ = (Ok _, _) => apply on_node_Ok_inv in H as [H ->]
  | new_drift _ _ _ = (Ok _, _) => rewrite new_drift_run in H; injection H as <- <-
  | accSeq_addNode _ _ _ = (Ok _, _) => apply accSeq_addNode_Ok_inv in H as ->
  | _ => idtac
  end.

Ltac inv_bind H :=
  let a := fresh "a" in
  let s := fresh "s" in
  let H1 := fresh "Hrun" in
  apply bind_Ok_inv in H as (a & s & H1 & H); inv_atom H1.

Tactic Notation "bind_inv" hyp(H) "as" ident(a) ident(s) ident(H1) :=
  apply bind_Ok_inv in H as (a & s & H1 & H); inv_atom H1.

(** An invariant of the body of a loop is an invariant of the loop. *)
Lemma for_each_invariant {S A} (I : S -> Prop) (l : list A) (body : A -> M S unit) :
  (forall x s s', x ∈ l -> I s -> body x s = (Ok tt, s') -> I s') ->
  forall s s', I s -> for_each l body s = (Ok tt, s') -> I s'.
Proof.
  induction l as [|x l IH]; intros Hbody s s' HI Hrun; cbn [for_each] in Hrun.
  - apply ret_Ok_inv in Hrun as [_ ->]. exact HI.
  - apply bind_Ok_inv in Hrun as ([] & s1 & Hstep & Hrun).
    apply (IH (fun y t t' Hy => Hbody y t t' (list_elem_of_further _ _ _ Hy)) s1 s'); [|exact Hrun].
    apply (Hbody x s s1); [left | exact HI | exact Hstep].
Qed.

(** *** The drifts at the two ends *)

Lemma same_sequence_next (f : Factory) (k : nat) :
  (next_oid f <= k)%nat -> same_sequence f (set_next_oid k f).
Proof. intros Hk. split; [reflexivity|]. split; [reflexivity | exact Hk]. Qed.

Lemma drift_before_first_inv (a : AccNode) (f f1 : Factory) :
  drift_before_first a f = (Ok tt, f1) ->
  exists pre lead trail m,
    leading_edge a = Ok lead /\ trailing_edge a = Ok trail /\
    seq_nodes f1 = pre ++ seq_nodes f /\
    linked zeroDistance 0 pre m /\ Qabs (lead - m) <= zeroDistance /\
    Forall (fun n => is_thin n = false) pre /\
    (distinct_oids f -> distinct_oids f1) /\ same_sequence f f1.
Proof.
  intros Hrun. unfold drift_before_first in Hrun.
  inv_bind Hrun. change (getLength a (-1)) with (Ok (acc_length a)) in Hrun0.
  injection Hrun0 as <-.
  inv_bind Hrun. rename a0 into pos, Hrun0 into Hpos.
  destruct (edges_of_pos a pos Hpos) as [Hlead Htrail].
  destruct (Qlt_le_dec zeroDistance (Qabs (acc_length a / 2 - pos))) as [Hfar|Hnear].
  - destruct (Qlt_le_dec pos (acc_length a / 2)) as [Hlong|Hshort].
    { apply raise_Ok_inv in Hrun. destruct Hrun. }
    inv_bind Hrun. inv_atom Hrun. cbn [accSeq set_next_oid].
    set (length := pos - acc_length a / 2) in *.
    set (d := the_drift f length (length / 2)).
    destruct (the_drift_edges f length (length / 2)) as [Hld Htd]. fold d in Hld, Htd.
    exists [d], (pos - acc_length a / 2), (pos + acc_length a / 2), (length / 2 + length / 2).
    split; [exact Hlead|]. split; [exact Htrail|]. split.
    { unfold seq_nodes. cbn [accSeq set_accSeq set_next_oid].
      apply (addNode_at d (accSeq f) [] (linacNodes (accSeq f))). reflexivity. }
    split.
    { cbn [linked]. eexists _, _. split; [exact Hld|]. split; [exact Htd|]. split.
      - apply (Qabs_le_Qeq 0); [ring | discriminate].
      - reflexivity. }
    split.
    { apply (Qabs_le_Qeq 0); [unfold length; field | discriminate]. }
    split; [apply Forall_cons; split; [reflexivity | constructor]|].
    split.
    + intros Hdist.
      apply (distinct_oids_insert f _ [] (seq_nodes f) d Hdist); reflexivity.
    + apply same_sequence_add.
  - apply ret_Ok_inv in Hrun as [_ ->].
    exists [], (pos - acc_length a / 2), (pos + acc_length a / 2), 0.
    split; [exact Hlead|]. split; [exact Htrail|]. split; [reflexivity|].
    split; [cbn [linked]; reflexivity|]. split.
    { rewrite <- Qabs_opp. revert Hnear. apply Qabs_le_Qeq. ring. }
    split; [constructor|]. split; [tauto | apply same_sequence_refl].
Qed.

Lemma drift_after_last_inv (b : AccNode) (f f1 : Factory) :
  drift_after_last b f = (Ok tt, f1) ->
  exists post trail L,
    trailing_edge b = Ok trail /\ Sequence_getLength (accSeq f) = Ok L /\
    seq_nodes f1 = seq_nodes f ++ post /\
    chained zeroDistance trail post L /\
    Forall (fun n => is_thin n = false) post /\
    (distinct_oids f -> distinct_oids f1) /\ same_sequence f f1.
Proof.
  intros Hrun. unfold drift_after_last in Hrun.
  inv_bind Hrun. change (getLength b (-1)) with (Ok (acc_length b)) in Hrun0.
  injection Hrun0 as <-.
  inv_bind Hrun. rename a into pos, Hrun0 into Hpos.
  destruct (edges_of_pos b pos Hpos) as [_ Htrail].
  inv_bind Hrun. unfold seq_length in Hrun0. inv_bind Hrun0. inv_atom Hrun0.
  rename a into seqL, Hrun0 into HL.
  destruct (Qlt_le_dec zeroDistance (Qabs (acc_length b / 2 + pos - seqL))) as [Hfar|Hnear].
  - destruct (Qlt_le_dec seqL (acc_length b / 2 + pos)) as [Hlong|Hshort].
    { apply raise_Ok_inv in Hrun. destruct Hrun. }
    inv_bind Hrun. inv_atom Hrun. cbn [accSeq set_next_oid].
    set (length := seqL - (pos + acc_length b / 2)) in *.
    set (d := the_drift f length (pos + (acc_length b + length) / 2)).
    destruct (the_drift_edges f length (pos + (acc_length b + length) / 2)) as [Hld Htd].
    fold d in Hld, Htd.
    exists [d], (pos + acc_length b / 2), seqL.
    split; [exact Htrail|]. split; [exact HL|]. split; [reflexivity|]. split.
    { cbn [chained]. eexists _, _. split; [exact Hld|]. split; [exact Htd|]. split.
      - apply (Qabs_le_Qeq 0); [field | discriminate].
      - apply (Qabs_le_Qeq 0); [unfold length; field | discriminate]. }
    split; [apply Forall_cons; split; [reflexivity | constructor]|].
    split.
    + intros Hdist.
      apply (distinct_oids_insert f _ (seq_nodes f) [] d Hdist); try reflexivity.
      symmetry. apply app_nil_r.
    + apply (same_sequence_add d (-1) f).
  - apply ret_Ok_inv in Hrun as [_ ->].
    exists [], (pos + acc_length b / 2), seqL.
    split; [exact Htrail|]. split; [exact HL|]. split; [symmetry; apply app_nil_r|].
    split.
    { cbn [chained]. rewrite <- Qabs_opp. revert Hnear. apply Qabs_le_Qeq. ring. }
    split; [constructor|]. split; [tauto | apply same_sequence_refl].
Qed.

Lemma list_get_head {A} (l : list A) (x : A) :
  list_get l 0 = Ok x -> exists rest, l = x :: rest.
Proof.
  unfold list_get. simpl. destruct l as [|y rest]; simpl; [discriminate|].
  intros [= ->]. exists rest. reflexivity.
Qed.

Lemma list_get_elem_of {A} (l : list A) (i : Z) (x : A) : list_get l i = Ok x -> x ∈ l.
Proof.
  unfold list_get. destruct (i <? 0)%Z; [discriminate|].
  destruct (l !! Z.to_nat i) as [y|] eqn:Hy; [|discriminate].
  intros [= ->]. eapply list_elem_of_lookup_2. exact Hy.
Qed.

Lemma list_last_last {A} (a : A) (rest : list A) : list_last (a :: rest) = Ok (List.last rest a).
Proof.
  unfold list_last, list_get.
  destruct (Z.ltb_spec (Z.of_nat (List.length (a :: rest)) - 1) 0) as [Hneg|_];
    [simpl in Hneg; lia|].
  replace (Z.to_nat (Z.of_nat (List.length (a :: rest)) - 1)) with (List.length rest)
    by (simpl; lia).
  revert a. induction rest as [|b rest IH]; intros a; [reflexivity|].
  rewrite last_cons. change ((a :: b :: rest) !! List.length (b :: rest))
    with ((b :: rest) !! List.length rest). apply IH.
Qed.

Lemma list_last_elem_of {A} (l : list A) (x : A) : list_last l = Ok x -> x ∈ l.
Proof.
  unfold list_last. destruct l as [|a rest]; [discriminate|]. apply list_get_elem_of.
Qed.

Lemma same_sequence_length (f f' : Factory) :
  same_sequence f f' -> Sequence_getLength (accSeq f') = Sequence_getLength (accSeq f).
Proof. intros (Hp & _ & _). unfold Sequence_getLength. rewrite Hp. reflexivity. Qed.

(** The drifts make the nodes of the sequence tile it. *)
Lemma insert_drifts_inv (f f' : Factory) :
  insert_drifts f = (Ok tt, f') ->
  distinct_oids f ->
  Forall (fun n => is_thin n = false) (seq_nodes f) ->
  exists L,
    Sequence_getLength (accSeq f) = Ok L /\
    tiles zeroDistance L (seq_nodes f') /\
    Forall (fun n => is_thin n = false) (seq_nodes f') /\
    distinct_oids f' /\ same_sequence f f'.
Proof.
  intros Hrun Hdist Hthick. unfold insert_drifts in Hrun.
  inv_bind Hrun. inv_bind Hrun. rename a into firstNode.
  destruct (list_get_head _ _ Hrun0) as (rest & Hnodes).
  inv_bind Hrun. rename a into lastNode. rewrite Hnodes, list_last_last in Hrun1.
  injection Hrun1 as <-.
  inv_bind Hrun. destruct a. rename s into f1.
  inv_bind Hrun. destruct a. rename s into f2.
  destruct (drift_before_first_inv _ _ _ Hrun1)
    as (pre & lead & trail & m & Hlead & Htrail & Hn1 & Hpre & Hm & Hprethick & Hd1 & Hs1).
  destruct (drift_after_last_inv _ _ _ Hrun2)
    as (post & tl & L & Htl & HL & Hn2 & Hpost & Hpostthick & Hd2 & Hs2).
  rewrite Hn1, Hnodes, <- app_assoc in Hn2. cbn [app] in Hn2.
  rewrite Hnodes in Hthick, Hrun. apply Forall_cons in Hthick as [Hfirst Hrest].
  destruct (drift_between_loop rest firstNode pre post f2 f' trail Hn2 (Hd2 (Hd1 Hdist))
              Htrail Hrest Hrun)
    as (mid & tl' & Hn' & Htl' & Hmid & Hmidthick & Hd' & Hs').
  rewrite Htl in Htl'. injection Htl' as <-.
  exists L. split; [rewrite <- (same_sequence_length f f1 Hs1); exact HL|].
  split; [|split; [|split]].
  - rewrite Hn'. split; [destruct pre; discriminate|].
    apply (linked_chained_app _ _ m); [exact Hpre|].
    cbn [chained]. exists lead, trail. split; [exact Hlead|]. split; [exact Htrail|].
    split; [exact Hm|]. apply (linked_chained_app _ _ tl); assumption.
  - rewrite Hn'. apply Forall_app. split; [exact Hprethick|].
    apply Forall_cons. split; [exact Hfirst|]. apply Forall_app. split; assumption.
  - exact Hd'.
  - eapply same_sequence_trans; [exact Hs1|]. eapply same_sequence_trans; [exact Hs2 | exact Hs'].
Qed.

(** *** The element loop *)

Lemma added_node (f f' : Factory) (accNode : AccNode) :
  seq_nodes f' = seq_nodes f ++ [accNode] ->
  next_oid f' = S (next_oid f) ->
  oid accNode = next_oid f ->
  is_thin accNode = false ->
  seq_paramsDict (accSeq f') = seq_paramsDict (accSeq f) ->
  linacAccLattice f' = linacAccLattice f ->
  distinct_oids f -> Forall (fun n => is_thin n = false) (seq_nodes f) ->
  distinct_oids f' /\ Forall (fun n => is_thin n = false) (seq_nodes f') /\ same_sequence f f'.
Proof.
  intros Hnodes Hnext Hoid Hthin Hparams Hlat Hdist Hthick. split; [|split].
  - apply (distinct_oids_insert f f' (seq_nodes f) [] accNode Hdist);
      [symmetry; apply app_nil_r | exact Hnodes | exact Hoid | exact Hnext].
  - rewrite Hnodes. apply Forall_app. split; [exact Hthick|].
    apply Forall_cons. split; [exact Hthin | constructor].
  - split; [exact Hparams|]. split; [exact Hlat | lia].
Qed.

Lemma setLength_whole (L : Q) (n n' : AccNode) :
  setLength L (-1) n = (Ok tt, n') ->
  n' = set_parts (acc_nParts n) L (even_parts (acc_nParts n) L) n.
Proof. intros H. inversion H. reflexivity. Qed.

Lemma make_quad_inv (node : ParserNode) (f f' : Factory) :
  make_quad node f = (Ok tt, f') ->
  distinct_oids f -> Forall (fun n => is_thin n = false) (seq_nodes f) ->
  distinct_oids f' /\ Forall (fun n => is_thin n = false) (seq_nodes f') /\ same_sequence f f'.
Proof.
  intros Hrun. unfold make_quad in Hrun.
  inv_bind Hrun. inv_bind Hrun. inv_bind Hrun. apply setLength_whole in Hrun1. subst a0.
  inv_bind Hrun. inv_bind Hrun. inv_atom Hrun.
  eapply added_node; reflexivity.
Qed.

Lemma addRF_GapNode_node (c : nat) (cav : RF_Cavity) (rfGap : AccNode) :
  oid (snd (addRF_GapNode c cav rfGap)) = oid rfGap /\
  cls (snd (addRF_GapNode c cav rfGap)) = cls rfGap.
Proof. unfold addRF_GapNode. destruct (decide _); split; reflexivity. Qed.

Lemma make_rf_gap_inv (seq : ParserSeq) (node : ParserNode) (f f' : Factory) :
  make_rf_gap seq node f = (Ok tt, f') ->
  distinct_oids f -> Forall (fun n => is_thin n = false) (seq_nodes f) ->
  distinct_oids f' /\ Forall (fun n => is_thin n = false) (seq_nodes f') /\ same_sequence f f'.
Proof.
  intros Hrun. unfold make_rf_gap in Hrun.
  bind_inv Hrun as id s0 Hid. bind_inv Hrun as gapOffset s1 HgapOffset.
  bind_inv Hrun as gapLength s2 HgapLength. bind_inv Hrun as gap s3 Hgap.
  apply setLength_whole in Hgap. subst gap.
  bind_inv Hrun as amp s4 Hamp. bind_inv Hrun as E0TL s5 HE0TL.
  bind_inv Hrun as modePhase s6 HmodePhase. bind_inv Hrun as v s7 Hv.
  bind_inv Hrun as rf_cav_name s8 Hname. bind_inv Hrun as f0 s9 Hget.
  bind_inv Hrun as accNode0 f1 Hcav.
  assert (oid accNode0 = next_oid f /\ cls accNode0 = BaseRF_Gap_cls /\
          accSeq f1 = accSeq f /\ next_oid f1 = S (next_oid f) /\
          linacAccLattice f1 = linacAccLattice f) as (Hoid & Hcls & Hseq & Hnext & Hlat).
  { destruct (bool_decide _).
    - apply ret_Ok_inv in Hcav as [-> ->]. repeat split; reflexivity.
    - bind_inv Hcav as firstPhase t0 HfirstPhase. bind_inv Hcav as phase t1 Hphase.
      bind_inv Hcav as u0 t2 Hnames. bind_inv Hcav as firstPhase' t3 HfirstPhase'.
      bind_inv Hcav as rfFrequency t4 HrfFrequency. bind_inv Hcav as u1 t5 Hcavs.
      apply ret_Ok_inv in Hcav as [-> ->]. repeat split; reflexivity. }
  bind_inv Hrun as f2 s10 Hget2. bind_inv Hrun as cav s11 Hlast.
  destruct (addRF_GapNode_node (Z.to_nat (Z.of_nat (List.length (accRF_Cavs f1)) - 1)) cav accNode0)
    as [Hoid' Hcls'].
  destruct (addRF_GapNode _ cav accNode0) as [accRF_Cav accNode]. cbn [snd] in Hoid', Hcls'.
  bind_inv Hrun as u2 s12 Hset. inv_atom Hrun.
  intros Hdist Hthick.
  apply (added_node f _ accNode);
    cbn [seq_nodes accSeq set_accSeq set_accRF_Cavs next_oid linacAccLattice];
    try assumption.
  - rewrite Hseq. reflexivity.
  - congruence.
  - unfold is_thin. rewrite Hcls', Hcls. reflexivity.
  - rewrite Sequence_addNode_params, Hseq. reflexivity.
Qed.

Lemma classify_inv (seq : ParserSeq) (i : nat) (node : ParserNode) (f f' : Factory) :
  classify seq i node f = (Ok tt, f') ->
  distinct_oids f -> Forall (fun n => is_thin n = false) (seq_nodes f) ->
  distinct_oids f' /\ Forall (fun n => is_thin n = false) (seq_nodes f') /\ same_sequence f f'.
Proof.
  intros Hrun. unfold classify in Hrun.
  bind_inv Hrun as pos s0 Hpos. bind_inv Hrun as type s1 Htype.
  destruct (String.eqb type "QUAD"); [exact (make_quad_inv _ _ _ Hrun)|].
  destruct (String.eqb type "RFGAP"); [exact (make_rf_gap_inv _ _ _ _ Hrun)|].
  bind_inv Hrun as length s2 Hlength. bind_inv Hrun as u f1 Hstrange. inv_atom Hrun.
  assert (f1 = f) as ->.
  { destruct (py_ne_zero length); [apply raise_Ok_inv in Hstrange; destruct Hstrange|].
    apply ret_Ok_inv in Hstrange as [_ ->]. reflexivity. }
  intros Hdist Hthick. split; [exact Hdist|]. split; [exact Hthick|].
  split; [reflexivity|]. split; [reflexivity | apply Nat.le_refl].
Qed.

Lemma classify_loop (seq : ParserSeq) (l : list (nat * ParserNode)) (f f' : Factory) :
  for_each l (fun node => classify seq (fst node) (snd node)) f = (Ok tt, f') ->
  distinct_oids f -> Forall (fun n => is_thin n = false) (seq_nodes f) ->
  distinct_oids f' /\ Forall (fun n => is_thin n = false) (seq_nodes f') /\ same_sequence f f'.
Proof.
  intros Hrun Hdist Hthick.
  refine (for_each_invariant
            (fun s => distinct_oids s /\ Forall (fun n => is_thin n = false) (seq_nodes s) /\
                      same_sequence f s) l _ _ f f' _ Hrun).
  - intros x s s' _ (Hd & Ht & Hs) Hstep.
    destruct (classify_inv _ _ _ _ _ Hstep Hd Ht) as (Hd' & Ht' & Hs').
    split; [exact Hd'|]. split; [exact Ht'|]. eapply same_sequence_trans; eassumption.
  - split; [exact Hdist|]. split; [exact Hthick | apply same_sequence_refl].
Qed.

(** *** Thin elements in the quads *)

Lemma geometry_facts (n n' : AccNode) :
  geometry n' = geometry n ->
  oid n' = oid n /\ is_thin n' = is_thin n /\
  leading_edge n' = leading_edge n /\ trailing_edge n' = trailing_edge n.
Proof.
  unfold geometry. intros [= Hoid Hcls Hpos Hlen].
  unfold is_thin, leading_edge, trailing_edge.
  change (getLength n' (-1)) with (Ok (acc_length n')).
  change (getLength n (-1)) with (Ok (acc_length n)).
  rewrite Hoid, Hcls, Hpos, Hlen. repeat split; reflexivity.
Qed.

Lemma fmap_cons_inv {A B} (g : A -> B) (x y : A) (l l' : list A) :
  g <$> (x :: l) = g <$> (y :: l') -> g x = g y /\ g <$> l = g <$> l'.
Proof. rewrite !fmap_cons. intros H. split; congruence. Qed.

Lemma geometry_oids (l l' : list AccNode) :
  geometry <$> l' = geometry <$> l -> oid <$> l' = oid <$> l.
Proof.
  revert l'. induction l as [|n l IH]; intros [|n' l'] Hg; try discriminate Hg; [reflexivity|].
  apply fmap_cons_inv in Hg as [Hn Hl].
  destruct (geometry_facts n n' Hn) as (Hoid & _).
  rewrite !fmap_cons, Hoid, (IH l' Hl). reflexivity.
Qed.

Lemma geometry_thick (l l' : list AccNode) :
  geometry <$> l' = geometry <$> l -> geometry <$> thick l' = geometry <$> thick l.
Proof.
  revert l'. induction l as [|n l IH]; intros [|n' l'] Hg; try discriminate Hg; [reflexivity|].
  apply fmap_cons_inv in Hg as [Hn Hl].
  destruct (geometry_facts n n' Hn) as (_ & Hthin & _).
  unfold thick. rewrite !filter_cons.
  destruct (decide (is_thin n' = false)) as [H'|H'], (decide (is_thin n = false)) as [H|H];
    try congruence.
  - rewrite !fmap_cons. f_equal; [exact Hn | apply IH; exact Hl].
  - apply IH. exact Hl.
Qed.

Lemma geometry_chained (eps : Q) (l l' : list AccNode) (from to : Q) :
  geometry <$> l' = geometry <$> l -> chained eps from l to -> chained eps from l' to.
Proof.
  revert l' from. induction l as [|n l IH]; intros [|n' l'] from Hg; try discriminate Hg;
    [tauto|].
  apply fmap_cons_inv in Hg as [Hn Hl]. cbn [chained].
  intros (lead & trail & Hlead & Htrail & Hgap & Hrest).
  destruct (geometry_facts n n' Hn) as (_ & _ & Hl' & Ht').
  exists lead, trail. split; [congruence|]. split; [congruence|]. split; [exact Hgap|].
  apply IH; assumption.
Qed.

Lemma same_geometry_refl (f : Factory) : same_geometry f f.
Proof. split; [reflexivity | apply same_sequence_refl]. Qed.

Lemma same_geometry_trans (f1 f2 f3 : Factory) :
  same_geometry f1 f2 -> same_geometry f2 f3 -> same_geometry f1 f3.
Proof.
  intros [Hg12 Hs12] [Hg23 Hs23]. split; [congruence|].
  eapply same_sequence_trans; eassumption.
Qed.

Lemma distinct_oids_geometry (f f' : Factory) :
  same_geometry f f' -> distinct_oids f -> distinct_oids f'.
Proof.
  intros [Hg (_ & _ & Hnext)] [Hnodup Hbound]. apply geometry_oids in Hg.
  split; [rewrite Hg; exact Hnodup|].
  apply (Forall_fmap oid (fun k => (k < next_oid f')%nat)). rewrite Hg.
  apply (Forall_fmap oid (fun k => (k < next_oid f')%nat)).
  eapply Forall_impl; [exact Hbound | intros k Hk; simpl in *; lia].
Qed.

Lemma tiled_geometry (L : Q) (f f' : Factory) :
  same_geometry f f' -> tiled L f -> tiled L f'.
Proof.
  intros Hsame (HL & Hdist & Hne & Hchain).
  split; [rewrite (same_sequence_length f f' (proj2 Hsame)); exact HL|].
  split; [exact (distinct_oids_geometry f f' Hsame Hdist)|].
  destruct Hsame as [Hg _]. apply geometry_thick in Hg. split.
  - intros Hnil. apply Hne. rewrite Hnil in Hg. destruct (thick (seq_nodes f)); [reflexivity|].
    discriminate Hg.
  - eapply geometry_chained; [exact Hg | exact Hchain].
Qed.

Lemma make_thin_inv (node : ParserNode) (f f' : Factory) (accNode : AccNode) :
  make_thin node f = (Ok accNode, f') ->
  f' = set_next_oid (S (next_oid f)) f /\ oid accNode = next_oid f /\ is_thin accNode = true.
Proof.
  intros Hrun. unfold make_thin in Hrun. bind_inv Hrun as type s0 Htype.
  destruct (String.eqb type "DCV" || String.eqb type "DCH").
  - bind_inv Hrun as id s1 Hid. bind_inv Hrun as effLength s2 Heff.
    apply ret_Ok_inv in Hrun as [-> ->].
    destruct (String.eqb type "DCV"); repeat split; reflexivity.
  - bind_inv Hrun as id s1 Hid. apply ret_Ok_inv in Hrun as [-> ->].
    repeat split; reflexivity.
Qed.

Lemma update_node_geometry (id : nat) (change : AccNode -> result AccNode) (l l' : list AccNode) :
  (forall n n', change n = Ok n' -> geometry n' = geometry n) ->
  update_node id change l = Ok l' -> geometry <$> l' = geometry <$> l.
Proof.
  intros Hchange. revert l'. induction l as [|n l IH]; intros l'; simpl.
  - intros [= <-]. reflexivity.
  - destruct (decide (oid n = id)) as [_|_].
    + destruct (change n) as [n'|e] eqn:Hn; [|discriminate]. intros [= <-].
      rewrite fmap_cons, (Hchange n n' Hn). reflexivity.
    + destruct (update_node id change l) as [rest|e]; [|discriminate]. intros [= <-].
      rewrite fmap_cons, (IH rest eq_refl). reflexivity.
Qed.

Lemma addChildNode_geometry (child : AccNode) (part_index : Z) (n n' : AccNode) :
  addChildNode child part_index n = Ok n' -> geometry n' = geometry n.
Proof.
  unfold addChildNode. destruct (_ || _); [discriminate|]. intros [= <-]. reflexivity.
Qed.

Lemma place_in_quad_inv (node : nat * ParserNode) (quad : AccNode) (f f' : Factory) :
  place_in_quad node quad f = (Ok tt, f') -> same_geometry f f'.
Proof.
  intros Hrun. unfold place_in_quad in Hrun.
  bind_inv Hrun as position s0 Hposition. bind_inv Hrun as pos s1 Hpos.
  bind_inv Hrun as L s2 HL.
  destruct (_ || _).
  - bind_inv Hrun as accNode f1 Hthin. apply make_thin_inv in Hthin as (-> & _ & _).
    bind_inv Hrun as f2 s3 Hget. bind_inv Hrun as nodes s4 Hnodes.
    bind_inv Hrun as u s5 Hput. inv_atom Hrun.
    apply update_node_geometry in Hnodes; [|intros n n'; apply addChildNode_geometry].
    split; [exact Hnodes|]. split; [reflexivity|]. split; [reflexivity|].
    cbn [next_oid set_usedThinNodes set_accSeq set_next_oid]. lia.
  - apply ret_Ok_inv in Hrun as [_ ->]. apply same_geometry_refl.
Qed.

Lemma for_each_same_geometry {A} (l : list A) (body : A -> M Factory unit) (f f' : Factory) :
  (forall x s s', body x s = (Ok tt, s') -> same_geometry s s') ->
  for_each l body f = (Ok tt, f') -> same_geometry f f'.
Proof.
  intros Hbody Hrun.
  refine (for_each_invariant (fun s => same_geometry f s) l body _ f f' _ Hrun).
  - intros x s s' _ Hs Hstep. eapply same_geometry_trans; [exact Hs | eapply Hbody; exact Hstep].
  - apply same_geometry_refl.
Qed.

Lemma remove_used_inv (f f' : Factory) : remove_used f = (Ok tt, f') -> same_geometry f f'.
Proof.
  intros Hrun. unfold remove_used in Hrun. bind_inv Hrun as f0 s0 Hget.
  apply for_each_same_geometry in Hrun; [exact Hrun|].
  intros x s s' Hstep. bind_inv Hstep as f1 s1 Hget1. bind_inv Hstep as rest s2 Hrest.
  inv_atom Hstep. split; [reflexivity|]. split; [reflexivity|].
  split; [reflexivity | apply Nat.le_refl].
Qed.

Lemma place_in_quads_inv (f f' : Factory) : place_in_quads f = (Ok tt, f') -> same_geometry f f'.
Proof.
  intros Hrun. unfold place_in_quads in Hrun.
  bind_inv Hrun as nodes s0 Hnodes. bind_inv Hrun as u s1 Hused. bind_inv Hrun as f0 s2 Hget.
  bind_inv Hrun as u' f1 Hloop. destruct u'.
  apply remove_used_inv in Hrun.
  assert (same_geometry (set_usedThinNodes [] f) f1) as Hplaced.
  { refine (for_each_same_geometry _ _ _ _ _ Hloop).
    intros node s s' Hquads. refine (for_each_same_geometry _ _ _ _ _ Hquads).
    intros quad t t' Hstep. exact (place_in_quad_inv _ _ _ _ Hstep). }
  eapply same_geometry_trans; [|exact Hrun].
  eapply same_geometry_trans; [|exact Hplaced].
  split; [reflexivity|]. split; [reflexivity|]. split; [reflexivity | apply Nat.le_refl].
Qed.

(** *** Thin elements at the drifts *)

Lemma getDriftThinNode_inv (position : Q) (nodes : list AccNode) (d : AccNode) :
  getDriftThinNode position nodes = Ok (Some d) -> d ∈ nodes /\ cls d = Drift_cls.
Proof.
  unfold getDriftThinNode.
  destruct (search_loop _ _ _ _ _) as [ind|e]; [|discriminate].
  destruct (list_get nodes ind) as [found|e] eqn:Hfound; [|discriminate].
  destruct (is_Drift found) eqn:Hdrift.
  - intros [= <-]. split; [exact (list_get_elem_of _ _ _ Hfound)|].
    unfold is_Drift in Hdrift. apply bool_decide_eq_true in Hdrift. exact Hdrift.
  - destruct (list_last nodes) as [accNode|e] eqn:Hlast; [|discriminate].
    destruct (is_Drift accNode) eqn:Hdrift'; [|discriminate].
    destruct (leading_edge accNode) as [pos|e]; [|discriminate].
    destruct (Qle_bool pos position); [|discriminate].
    intros [= <-]. split; [exact (list_last_elem_of _ _ Hlast)|].
    unfold is_Drift in Hdrift'. apply bool_decide_eq_true in Hdrift'. exact Hdrift'.
Qed.

Lemma thick_app (l1 l2 : list AccNode) : thick (l1 ++ l2) = thick l1 ++ thick l2.
Proof. apply filter_app. Qed.

Lemma thick_cons_thin (t : AccNode) (l : list AccNode) :
  is_thin t = true -> thick (t :: l) = thick l.
Proof.
  intros Ht. unfold thick. rewrite filter_cons.
  destruct (decide (is_thin t = false)) as [H|_]; [congruence | reflexivity].
Qed.

Lemma thick_cons_thick (n : AccNode) (l : list AccNode) :
  is_thin n = false -> thick (n :: l) = n :: thick l.
Proof.
  intros Hn. unfold thick. rewrite filter_cons.
  destruct (decide (is_thin n = false)) as [_|H]; [reflexivity | contradiction].
Qed.

Lemma thick_all (l : list AccNode) : Forall (fun n => is_thin n = false) l -> thick l = l.
Proof.
  induction 1 as [|n l Hn _ IH]; [reflexivity|]. rewrite thick_cons_thick by exact Hn.
  rewrite IH. reflexivity.
Qed.

Lemma distinct_below_insert (k k' : nat) (l1 l2 : list AccNode) (d : AccNode) :
  distinct_below k (l1 ++ l2) -> (k <= oid d)%nat -> (oid d < k')%nat ->
  distinct_below k' (l1 ++ d :: l2).
Proof.
  intros [Hnodup Hbound] Hlow Hhigh. split.
  - rewrite fmap_app, fmap_cons. rewrite <- Permutation_middle. apply NoDup_cons. split.
    + rewrite <- fmap_app. intros (n & Hn & Hin)%list_elem_of_fmap.
      rewrite Forall_forall in Hbound. specialize (Hbound n Hin). lia.
    + rewrite <- fmap_app. exact Hnodup.
  - apply Forall_app in Hbound as [Hb1 Hb2]. apply Forall_app. split; [|apply Forall_cons; split].
    + eapply Forall_impl; [exact Hb1 | intros n Hn; simpl in Hn; lia].
    + exact Hhigh.
    + eapply Forall_impl; [exact Hb2 | intros n Hn; simpl in Hn; lia].
Qed.

Lemma distinct_below_remove (k : nat) (l1 l2 : list AccNode) (d : AccNode) :
  distinct_below k (l1 ++ d :: l2) -> distinct_below k (l1 ++ l2).
Proof.
  intros [Hnodup Hbound]. split.
  - rewrite fmap_app, fmap_cons, <- Permutation_middle in Hnodup.
    apply NoDup_cons in Hnodup as [_ Hnodup]. rewrite fmap_app. exact Hnodup.
  - apply Forall_app in Hbound as [Hb1 Hb2]. apply Forall_cons in Hb2 as [_ Hb2].
    apply Forall_app. split; assumption.
Qed.

(** The node found by its identity is the node itself. *)
Lemma distinct_below_same (k : nat) (l1 l2 : list AccNode) (n d : AccNode) :
  distinct_below k (l1 ++ n :: l2) -> d ∈ l1 ++ n :: l2 -> oid n = oid d ->
  oid d ∉ (oid <$> l1) -> d = n.
Proof.
  intros [Hnodup _] Hin Hoid Hnot.
  apply elem_of_app in Hin as [Hin|Hin].
  { exfalso. apply Hnot. apply list_elem_of_fmap. exists d. split; [reflexivity | exact Hin]. }
  apply elem_of_cons in Hin as [Heq|Hin]; [exact Heq|].
  exfalso. rewrite fmap_app, fmap_cons in Hnodup.
  apply NoDup_app in Hnodup as (_ & _ & Hnodup). apply NoDup_cons in Hnodup as [Hnot' _].
  apply Hnot'. rewrite Hoid. apply list_elem_of_fmap. exists d. split; [reflexivity | exact Hin].
Qed.

Lemma addNode_at_index (node : AccNode) (s : Sequence) (l1 l2 : list AccNode) (i : Z) :
  linacNodes s = l1 ++ l2 -> i = Z.of_nat (List.length l1) ->
  linacNodes (Sequence_addNode node i s) = l1 ++ node :: l2.
Proof. intros Hs ->. apply addNode_at. exact Hs. Qed.

(** A drift cut in two at a position still leads from its leading edge
    to its trailing edge. *)
Lemma chained_split (eps from to : Q) (l1 l2 : list AccNode) (d d0 d1 : AccNode)
    (ld td ld0 p0 p1 td1 : Q) :
  0 <= eps ->
  chained eps from (l1 ++ d :: l2) to ->
  leading_edge d = Ok ld -> trailing_edge d = Ok td ->
  leading_edge d0 = Ok ld0 -> trailing_edge d0 = Ok p0 ->
  leading_edge d1 = Ok p1 -> trailing_edge d1 = Ok td1 ->
  ld0 == ld -> p1 == p0 -> td1 == td ->
  chained eps from (l1 ++ d0 :: d1 :: l2) to.
Proof.
  intros Heps Hchain Hld Htd Hld0 Hp0 Hp1 Htd1 Hlead Hmid Htrail.
  apply chained_app_inv in Hchain as (m & Hlink & Hchain).
  apply (linked_chained_app _ _ m); [exact Hlink|].
  cbn [chained] in Hchain. destruct Hchain as (lead & trail & Hl & Ht & Hgap & Hrest).
  rewrite Hld in Hl. injection Hl as <-. rewrite Htd in Ht. injection Ht as <-.
  cbn [chained]. exists ld0, p0. split; [exact Hld0|]. split; [exact Hp0|]. split.
  { revert Hgap. apply Qabs_le_Qeq. rewrite Hlead. reflexivity. }
  exists p1, td1. split; [exact Hp1|]. split; [exact Htd1|]. split.
  { apply (Qabs_le_Qeq 0); [rewrite Hmid; ring | exact Heps]. }
  eapply chained_from_Qeq; [|exact Hrest]. symmetry. exact Htrail.
Qed.

Lemma place_in_drift_inv (node : nat * ParserNode) (L : Q) (f f' : Factory) :
  place_in_drift node f = (Ok tt, f') ->
  tiled L f -> tiled L f' /\ same_sequence f f'.
Proof.
  intros Hrun (HL & Hdist & Hne & Hchain). unfold place_in_drift in Hrun.
  bind_inv Hrun as position s0 Hposition. bind_inv Hrun as nodes s1 Hnodes.
  bind_inv Hrun as driftNode s2 Hfound.
  destruct driftNode as [d|].
  2: { apply ret_Ok_inv in Hrun as [_ ->].
       split; [|apply same_sequence_refl].
       split; [exact HL|]. split; [exact Hdist|]. split; assumption. }
  apply getDriftThinNode_inv in Hfound as [Hin Hcls].
  bind_inv Hrun as u f0 Hused. bind_inv Hrun as pos s3 Hpos.
  bind_inv Hrun as len s4 Hlen. change (getLength d (-1)) with (Ok (acc_length d)) in Hlen.
  injection Hlen as <-.
  bind_inv Hrun as nodes' s5 Hnodes'. bind_inv Hrun as ind s6 Hind.
  bind_inv Hrun as accNode f1 Hthin. apply make_thin_inv in Hthin as (-> & Hoid & Hthin).
  change (seq_nodes (set_usedThinNodes (usedThinNodes f ++ [node]) f)) with (seq_nodes f) in Hind.
  destruct (index_of_split _ _ _ Hind) as (l1 & n & l2 & Hsplit & Hn & -> & Hnot).
  assert (distinct_below (next_oid f) (l1 ++ n :: l2)) as Hbelow
    by (rewrite <- Hsplit; exact Hdist).
  rewrite Hsplit in Hin.
  pose proof (distinct_below_same _ _ _ _ _ Hbelow Hin Hn Hnot) as <-. clear Hn Hin.
  assert (is_thin d = false) as Hd by (unfold is_thin; rewrite Hcls; reflexivity).
  destruct (edges_of_pos d pos Hpos) as [Hlead Htrail].
  set (t := node_setParam "pos" (PyFloat position) accNode) in *.
  assert (oid t = next_oid f) as Hoidt by exact Hoid.
  assert (is_thin t = true) as Hthint by exact Hthin.
  rewrite Hsplit, thick_app, (thick_cons_thick d l2 Hd) in Hchain, Hne.
  destruct (Qlt_le_dec (Qabs (position - (pos - acc_length d / 2))) zeroDistance) as [Hfront|_].
  { inv_atom Hrun.
    match goal with
    | |- tiled L ?g /\ _ => assert (seq_nodes g = l1 ++ t :: d :: l2) as Hnew
    end.
    { unfold seq_nodes. cbn [accSeq set_accSeq set_next_oid set_usedThinNodes].
      apply addNode_at. exact Hsplit. }
    split; [split; [|split; [|split]]|].
    - unfold Sequence_getLength. cbn [accSeq set_accSeq].
      rewrite Sequence_addNode_params. exact HL.
    - unfold distinct_oids. rewrite Hnew.
      apply (distinct_below_insert (next_oid f)); [exact Hbelow | lia |].
      cbn [next_oid set_accSeq set_next_oid set_usedThinNodes]. lia.
    - rewrite Hnew, thick_app, (thick_cons_thin t _ Hthint), (thick_cons_thick d l2 Hd).
      exact Hne.
    - rewrite Hnew, thick_app, (thick_cons_thin t _ Hthint), (thick_cons_thick d l2 Hd).
      exact Hchain.
    - split; [cbn [accSeq set_accSeq]; apply Sequence_addNode_params|].
      split; [reflexivity|]. cbn [next_oid set_accSeq set_next_oid set_usedThinNodes]. lia. }
  destruct (Qlt_le_dec (Qabs (position - (pos + acc_length d / 2))) zeroDistance) as [Hback|_].
  { inv_atom Hrun.
    match goal with
    | |- tiled L ?g /\ _ => assert (seq_nodes g = (l1 ++ [d]) ++ t :: l2) as Hnew
    end.
    { unfold seq_nodes. cbn [accSeq set_accSeq set_next_oid set_usedThinNodes].
      apply addNode_at_index; [rewrite <- app_assoc; exact Hsplit|].
      rewrite length_app. simpl. lia. }
    split; [split; [|split; [|split]]|].
    - unfold Sequence_getLength. cbn [accSeq set_accSeq].
      rewrite Sequence_addNode_params. exact HL.
    - unfold distinct_oids. rewrite Hnew.
      apply (distinct_below_insert (next_oid f));
        [rewrite <- app_assoc; exact Hbelow | lia |].
      cbn [next_oid set_accSeq set_next_oid set_usedThinNodes]. lia.
    - rewrite Hnew, <- app_assoc, thick_app. cbn [app].
      rewrite (thick_cons_thick d _ Hd), (thick_cons_thin t _ Hthint). exact Hne.
    - rewrite Hnew, <- app_assoc, thick_app. cbn [app].
      rewrite (thick_cons_thick d _ Hd), (thick_cons_thin t _ Hthint). exact Hchain.
    - split; [cbn [accSeq set_accSeq]; apply Sequence_addNode_params|].
      split; [reflexivity|]. cbn [next_oid set_accSeq set_next_oid set_usedThinNodes]. lia. }
  bind_inv Hrun as drift0 f2 Hdrift0. bind_inv Hrun as drift1 f3 Hdrift1.
  bind_inv Hrun as f4 s7 Hget. bind_inv Hrun as rest s8 Hrest.
  change (linacNodes (accSeq _)) with (seq_nodes f) in Hrest.
  rewrite Hsplit, (remove_node_split _ _ _ _ eq_refl Hnot) in Hrest. injection Hrest as <-.
  bind_inv Hrun as u1 s9 Hput. bind_inv Hrun as u2 s10 Hadd0. bind_inv Hrun as u3 s11 Hadd1.
  inv_atom Hrun.
  cbn [accSeq set_accSeq set_next_oid set_usedThinNodes seq_name seq_paramsDict next_oid].
  match goal with
  | |- context [the_drift ?g ?len ?c] =>
      match len with
      | position - _ => set (d0 := the_drift g len c);
                        destruct (the_drift_edges g len c) as [Hld0 Htd0]
      end
  end.
  match goal with
  | |- context [the_drift ?g ?len ?c] =>
      match len with
      | _ - position => set (d1 := the_drift g len c);
                        destruct (the_drift_edges g len c) as [Hld1 Htd1]
      end
  end.
  fold d0 in Hld0, Htd0. fold d1 in Hld1, Htd1.
  assert (oid d0 = S (next_oid f)) as Hoid0 by reflexivity.
  assert (oid d1 = S (S (next_oid f))) as Hoid1 by reflexivity.
  assert (is_thin d0 = false) as Hthick0 by reflexivity.
  assert (is_thin d1 = false) as Hthick1 by reflexivity.
  match goal with
  | |- tiled L ?g /\ _ =>
      assert (seq_nodes g = l1 ++ d0 :: t :: d1 :: l2) as Hnew
  end.
  { unfold seq_nodes. cbn [accSeq set_accSeq].
    change (l1 ++ d0 :: t :: d1 :: l2) with (l1 ++ [d0; t] ++ d1 :: l2).
    rewrite app_assoc. apply addNode_at_index; [|rewrite length_app; simpl; lia].
    rewrite <- app_assoc. change (l1 ++ [d0; t] ++ l2) with (l1 ++ [d0] ++ t :: l2).
    rewrite app_assoc. apply addNode_at_index; [|rewrite length_app; simpl; lia].
    rewrite <- app_assoc. apply addNode_at. reflexivity. }
  split; [split; [|split; [|split]]|].
  - unfold Sequence_getLength. cbn [accSeq set_accSeq].
    rewrite !Sequence_addNode_params. exact HL.
  - unfold distinct_oids. rewrite Hnew.
    change (l1 ++ d0 :: t :: d1 :: l2) with (l1 ++ [d0; t] ++ d1 :: l2). rewrite app_assoc.
    apply (distinct_below_insert (S (S (next_oid f))));
      [|lia | cbn [next_oid set_accSeq set_next_oid set_usedThinNodes]; lia].
    rewrite <- app_assoc. cbn [app].
    apply (distinct_below_insert (S (next_oid f))); [|lia | lia].
    apply (distinct_below_insert (next_oid f)); [|lia | lia].
    exact (distinct_below_remove _ _ _ _ Hbelow).
  - rewrite Hnew, thick_app, (thick_cons_thick d0 _ Hthick0). destruct (thick l1); discriminate.
  - rewrite Hnew, thick_app, (thick_cons_thick d0 _ Hthick0), (thick_cons_thin t _ Hthint),
      (thick_cons_thick d1 _ Hthick1).
    eapply (chained_split _ _ _ _ _ d d0 d1); try eassumption; try discriminate; field.
  - split; [cbn [accSeq set_accSeq]; rewrite !Sequence_addNode_params; reflexivity|].
    split; [reflexivity|]. cbn [next_oid set_accSeq set_next_oid set_usedThinNodes]. lia.
Qed.

Lemma place_in_drifts_inv (L : Q) (f f' : Factory) :
  place_in_drifts f = (Ok tt, f') -> tiled L f -> tiled L f' /\ same_sequence f f'.
Proof.
  intros Hrun Htiled. unfold place_in_drifts in Hrun.
  bind_inv Hrun as u s0 Hused. bind_inv Hrun as f0 s1 Hget.
  bind_inv Hrun as u' f1 Hloop. destruct u'.
  apply remove_used_inv in Hrun.
  assert (tiled L f1 /\ same_sequence f f1) as [Htiled1 Hsame1].
  { refine (for_each_invariant (fun s => tiled L s /\ same_sequence f s) _ _ _ _ _ _ Hloop).
    - intros node s s' _ [Ht Hs] Hstep.
      destruct (place_in_drift_inv node L s s' Hstep Ht) as [Ht' Hs'].
      split; [exact Ht' | eapply same_sequence_trans; eassumption].
    - split; [exact Htiled|]. split; [reflexivity|]. split; [reflexivity | apply Nat.le_refl]. }
  split; [exact (tiled_geometry L f1 f' Hrun Htiled1)|].
  eapply same_sequence_trans; [exact Hsame1 | exact (proj2 Hrun)].
Qed.

(** *** The sequences of the lattice *)

Lemma assemble_inv (f f' : Factory) :
  assemble f = (Ok tt, f') ->
  sequences (linacAccLattice f') = sequences (linacAccLattice f) ++ [accSeq f].
Proof.
  intros Hrun. unfold assemble in Hrun.
  bind_inv Hrun as nodes s0 Hnodes. bind_inv Hrun as u f1 Hloop. destruct u. inv_atom Hrun.
  assert (accSeq f1 = accSeq f /\
          sequences (linacAccLattice f1) = sequences (linacAccLattice f)) as [Hseq Hlat].
  { refine (for_each_invariant
              (fun s => accSeq s = accSeq f /\
                        sequences (linacAccLattice s) = sequences (linacAccLattice f))
              _ _ _ _ _ _ Hloop).
    - intros accNode s s' _ [Hs Hl] Hstep.
      bind_inv Hstep as pos t0 Hpos. bind_inv Hstep as len t1 Hlen. inv_atom Hstep.
      split; [exact Hs | exact Hl].
    - split; reflexivity. }
  cbn [linacAccLattice set_linacAccLattice addSequence sequences]. rewrite Hseq, Hlat.
  reflexivity.
Qed.

Lemma same_sequence_lattice (f f' : Factory) :
  same_sequence f f' -> linacAccLattice f' = linacAccLattice f.
Proof. intros (_ & Hlat & _). exact Hlat. Qed.

Lemma build_sequence_inv (seqPosition next : Q) (seq : ParserSeq) (f f' : Factory) :
  build_sequence seqPosition seq f = (Ok next, f') ->
  Forall tiled_sequence (sequences (linacAccLattice f)) ->
  Forall tiled_sequence (sequences (linacAccLattice f')).
Proof.
  intros Hrun Hbuilt. unfold build_sequence in Hrun.
  bind_inv Hrun as length s0 Hlength. bind_inv Hrun as u0 s1 Hseq.
  bind_inv Hrun as u1 s2 Hnames. bind_inv Hrun as u2 s3 Hthin.
  bind_inv Hrun as u3 f1 Hclassify. destruct u3.
  bind_inv Hrun as u4 f2 Hdrifts. destruct u4.
  bind_inv Hrun as u5 f3 Hquads. destruct u5.
  bind_inv Hrun as u6 f4 Hplaced. destruct u6.
  bind_inv Hrun as u7 f5 Hassemble. destruct u7.
  apply ret_Ok_inv in Hrun as [_ ->].
  match type of Hclassify with
  | for_each _ _ ?g = _ => set (f0 := g) in *
  end.
  assert (distinct_oids f0) as Hdist0 by (split; constructor).
  assert (Forall (fun n => is_thin n = false) (seq_nodes f0)) as Hthick0 by constructor.
  destruct (classify_loop _ _ _ _ Hclassify Hdist0 Hthick0) as (Hdist1 & Hthick1 & Hsame1).
  destruct (insert_drifts_inv _ _ Hdrifts Hdist1 Hthick1)
    as (L & HL & Htiles & Hthick2 & Hdist2 & Hsame2).
  assert (tiled L f2) as Htiled2.
  { split; [rewrite (same_sequence_length f1 f2 Hsame2); exact HL|].
    split; [exact Hdist2|]. rewrite (thick_all _ Hthick2). exact Htiles. }
  apply place_in_quads_inv in Hquads.
  pose proof (tiled_geometry L f2 f3 Hquads Htiled2) as Htiled3.
  destruct (place_in_drifts_inv L f3 f4 Hplaced Htiled3) as [Htiled4 Hsame4].
  rewrite (assemble_inv f4 f5 Hassemble).
  rewrite (same_sequence_lattice f3 f4 Hsame4), (same_sequence_lattice f2 f3 (proj2 Hquads)),
    (same_sequence_lattice f1 f2 Hsame2), (same_sequence_lattice f0 f1 Hsame1).
  apply Forall_app. split; [exact Hbuilt|]. apply Forall_cons. split; [|constructor].
  destruct Htiled4 as (HL4 & _ & Htiles4). exists L. split; [exact HL4 | exact Htiles4].
Qed.

Lemma build_sequences_inv (seqs : list ParserSeq) :
  forall (seqPosition : Q) (f f' : Factory),
    build_sequences seqPosition seqs f = (Ok tt, f') ->
    Forall tiled_sequence (sequences (linacAccLattice f)) ->
    Forall tiled_sequence (sequences (linacAccLattice f')).
Proof.
  induction seqs as [|seq rest IH]; intros seqPosition f f' Hrun Hbuilt; cbn [build_sequences] in Hrun.
  - apply ret_Ok_inv in Hrun as [_ ->]. exact Hbuilt.
  - bind_inv Hrun as next f1 Hseq.
    apply (IH next f1 f' Hrun). exact (build_sequence_inv _ _ _ _ _ Hseq Hbuilt).
Qed.

Lemma addRF_Cavities_sequences (cavs : list RF_Cavity) (lat : LinacAccLattice) :
  sequences (fold_left (fun lat cav => addRF_Cavity cav lat) cavs lat) = sequences lat.
Proof.
  revert lat. induction cavs as [|cav cavs IH]; intros lat; [reflexivity|].
  cbn [fold_left]. rewrite IH. reflexivity.
Qed.

(** *** The search for a drift always ends *)

Lemma getFloat_no_fuel (d : gmap string pyval) (key : string) :
  getFloat d key <> Raise OutOfFuel.
Proof.
  unfold getFloat, getParam. destruct (d !! key) as [v|]; [|discriminate].
  destruct v; discriminate.
Qed.

Lemma leading_edge_no_fuel (n : AccNode) : leading_edge n <> Raise OutOfFuel.
Proof.
  unfold leading_edge, node_pos.
  pose proof (getFloat_no_fuel (acc_paramsDict n) "pos") as Hpos.
  destruct (getFloat (acc_paramsDict n) "pos") as [pos|e]; [discriminate|].
  intros [= ->]. exact (Hpos eq_refl).
Qed.

Lemma list_get_no_fuel {A} (l : list A) (i : Z) : list_get l i <> Raise OutOfFuel.
Proof.
  unfold list_get. destruct (i <? 0)%Z; [discriminate|].
  destruct (l !! Z.to_nat i); discriminate.
Qed.

(** The loop of [__getDriftThinNode] halves an interval of indices: as
    many rounds as the interval is long are enough. *)
Lemma search_loop_ends (position : Q) (nodes : list AccNode) (fuel : nat) :
  forall ind_start ind_stop : Z,
    (ind_stop - ind_start <= Z.of_nat fuel + 1)%Z ->
    search_loop fuel position nodes ind_start ind_stop <> Raise OutOfFuel.
Proof.
  induction fuel as [|fuel IH]; intros ind_start ind_stop Hlen; cbn [search_loop];
    destruct (Z.ltb_spec 1 (ind_stop - ind_start)) as [Hlong|Hshort]; try discriminate.
  - lia.
  - pose proof (list_get_no_fuel nodes ((ind_stop + ind_start) / 2)) as Hget.
    destruct (list_get nodes ((ind_stop + ind_start) / 2)) as [accNode|e]; [|intros [= ->]; exact (Hget eq_refl)].
    pose proof (leading_edge_no_fuel accNode) as Hedge.
    destruct (leading_edge accNode) as [pos|e]; [|intros [= ->]; exact (Hedge eq_refl)].
    assert (ind_start < (ind_stop + ind_start) / 2 < ind_stop)%Z as Hmid.
    { pose proof (Z.div_mod (ind_stop + ind_start) 2 ltac:(lia)) as Hdiv.
      pose proof (Z.mod_pos_bound (ind_stop + ind_start) 2 ltac:(lia)) as Hmod. lia. }
    destruct (Qlt_le_dec pos position); apply IH; lia.
Qed.

(** X1. The loop of [__getDriftThinNode] ends within as many rounds as
    the sequence has nodes: the search never runs out of them. *)
Lemma getDriftThinNode_ends (position : Q) (nodes : list AccNode) :
  getDriftThinNode position nodes <> Raise OutOfFuel.
Proof.
  unfold getDriftThinNode.
  pose proof (search_loop_ends position nodes (List.length nodes) 0
                (Z.of_nat (List.length nodes) - 1) ltac:(lia)) as Hloop.
  destruct (search_loop _ _ _ _ _) as [ind|e]; [|intros [= ->]; exact (Hloop eq_refl)].
  pose proof (list_get_no_fuel nodes ind) as Hget.
  destruct (list_get nodes ind) as [found|e]; [|intros [= ->]; exact (Hget eq_refl)].
  destruct (is_Drift found); [discriminate|].
  assert (list_last nodes <> Raise OutOfFuel) as Hlast.
  { unfold list_last. destruct nodes; [discriminate | apply list_get_no_fuel]. }
  destruct (list_last nodes) as [accNode|e]; [|intros [= ->]; exact (Hlast eq_refl)].
  destruct (is_Drift accNode); [|discriminate].
  pose proof (leading_edge_no_fuel accNode) as Hedge.
  destruct (leading_edge accNode) as [pos|e]; [|intros [= ->]; exact (Hedge eq_refl)].
  destruct (Qle_bool pos position); discriminate.
Qed.

(** X23. In every sequence of a lattice that
    [getLinacAccLattice] returns, the quads, RF gaps and drifts, taken
    in the order of the sequence, chain from 0 to the length of the
    sequence: the leading edge of the first is within [zeroDistance] of
    0, the leading edge of each other one is within [zeroDistance] of
    the trailing edge of the one before it, and the trailing edge of the
    last is within [zeroDistance] of the length.  The markers and dipole
    correctors placed between them are left out.  While the drifts are
    made, a negative gap between two neighbours stops the program with
    "two nodes are overlapping!", a gap of at most [zeroDistance] leaves
    the sequence as it is, and a larger gap makes a Drift as long as the
    gap, from the trailing edge of the first node to the leading edge
    of the second, put at the place of the second. *)
Theorem thick_nodes_chain_through_the_sequence :
  (forall (ltree : LinacStructTree) (names : list string) (lat : LinacAccLattice),
     getLinacAccLattice ltree names = Ok lat ->
     Forall (fun seq => exists L, Sequence_getLength seq = Ok L /\
                                  tiles zeroDistance L (thick (linacNodes seq)))
            (sequences lat)) /\
  (forall (accNode0 accNode1 : AccNode) (f : Factory) (lead1 trail0 : Q),
     leading_edge accNode1 = Ok lead1 ->
     trailing_edge accNode0 = Ok trail0 ->
     let dist := lead1 - trail0 in
     (dist < 0 ->
      drift_between accNode0 accNode1 f
      = (Raise (OrbitFinalize "The LinacLatticeFactory method getLinacAccLattice(names): two nodes are overlapping!"), f)) /\
     (0 <= dist -> dist <= zeroDistance -> drift_between accNode0 accNode1 f = (Ok tt, f)) /\
     (zeroDistance < dist ->
      exists drift,
        oid drift = next_oid f /\ cls drift = Drift_cls /\ acc_length drift = dist /\
        (exists lead trail, leading_edge drift = Ok lead /\ trailing_edge drift = Ok trail /\
                            lead == trail0 /\ trail == lead1) /\
        drift_between accNode0 accNode1 f
        = match index_of (oid accNode1) (seq_nodes f) with
          | Ok ind_of_node =>
              (Ok tt, set_accSeq (Sequence_addNode drift ind_of_node (accSeq f))
                        (set_next_oid (S (next_oid f)) f))
          | Raise e => (Raise e, set_next_oid (S (next_oid f)) f)
          end)).
Proof.
  split; [|exact drift_between_cases].
  intros ltree names lat Hrun. unfold getLinacAccLattice in Hrun.
  destruct names as [|name0 names]; [discriminate|].
  destruct (check_names _ _ _ _) as [_|e]; [|discriminate].
  destruct (index_name name0 _) as [ind_start|e]; [|discriminate].
  destruct (build_sequences _ _ _) as [[[]|e] f] eqn:Hbuild; [|discriminate].
  injection Hrun as <-. rewrite addRF_Cavities_sequences.
  apply (build_sequences_inv _ _ _ _ Hbuild). constructor.
Qed.

(** The lattice of the scenario is returned, and its quad, RF gap and
    drifts chain through its sequence. *)
Lemma thick_nodes_chain_through_the_sequence_witness :
  getLinacAccLattice scenario_tree ["SEQ"%string] = Ok scenario_lattice /\
  Forall (fun seq => exists L, Sequence_getLength seq = Ok L /\
                               tiles zeroDistance L (thick (linacNodes seq)))
         (sequences scenario_lattice).
Proof.
  split; [vm_compute; reflexivity|].
  apply (proj1 thick_nodes_chain_through_the_sequence scenario_tree ["SEQ"%string]).
  vm_compute; reflexivity.
Defined.

(** ** What the factory makes of the parsed elements *)

Lemma elements_app (l1 l2 : list AccNode) : elements (l1 ++ l2) = elements l1 ++ elements l2.
Proof. apply filter_app. Qed.

Lemma elements_cons_other (n : AccNode) (l : list AccNode) :
  cls n <> Quad_cls -> cls n <> BaseRF_Gap_cls -> elements (n :: l) = elements l.
Proof.
  intros Hq Hg. unfold elements. rewrite filter_cons.
  destruct (decide _) as [[H|H]|_]; [contradiction | contradiction | reflexivity].
Qed.

Lemma elements_cons_element (n : AccNode) (l : list AccNode) :
  cls n = Quad_cls \/ cls n = BaseRF_Gap_cls -> elements (n :: l) = n :: elements l.
Proof.
  intros Hn. unfold elements. rewrite filter_cons.
  destruct (decide _) as [_|H]; [reflexivity | contradiction].
Qed.

Lemma elements_insert_at (k : nat) (d : AccNode) (l : list AccNode) :
  cls d <> Quad_cls -> cls d <> BaseRF_Gap_cls ->
  elements (list_insert_at k d l) = elements l.
Proof.
  intros Hq Hg. unfold list_insert_at.
  rewrite elements_app, (elements_cons_other d _ Hq Hg), <- elements_app, take_drop.
  reflexivity.
Qed.

Lemma Sequence_addNode_name (node : AccNode) (index : Z) (s : Sequence) :
  seq_name (Sequence_addNode node index s) = seq_name s.
Proof. unfold Sequence_addNode. destruct (index <? 0)%Z; reflexivity. Qed.

(** A drift or a thin element joins the sequence: its quads and RF gaps stay. *)
Lemma Sequence_addNode_elements (node : AccNode) (index : Z) (s : Sequence) :
  cls node <> Quad_cls -> cls node <> BaseRF_Gap_cls ->
  elements (linacNodes (Sequence_addNode node index s)) = elements (linacNodes s).
Proof.
  intros Hq Hg. unfold Sequence_addNode. destruct (index <? 0)%Z; cbn [linacNodes].
  - rewrite elements_app, (elements_cons_other node [] Hq Hg). apply app_nil_r.
  - apply elements_insert_at; assumption.
Qed.

Lemma same_elements_refl (f : Factory) : same_elements f f.
Proof. repeat split; reflexivity. Qed.

Lemma same_elements_trans (f1 f2 f3 : Factory) :
  same_elements f1 f2 -> same_elements f2 f3 -> same_elements f1 f3.
Proof. intros (H1 & H2 & H3) (H4 & H5 & H6). repeat split; congruence. Qed.

Lemma for_each_same_elements {A} (l : list A) (body : A -> M Factory unit) (f f' : Factory) :
  (forall x s s', body x s = (Ok tt, s') -> same_elements s s') ->
  for_each l body f = (Ok tt, f') -> same_elements f f'.
Proof.
  intros Hbody Hrun.
  refine (for_each_invariant (fun s => same_elements f s) l body _ f f' _ Hrun).
  - intros x s s' _ Hs Hstep. eapply same_elements_trans; [exact Hs | eapply Hbody; exact Hstep].
  - apply same_elements_refl.
Qed.

Lemma the_drift_class (f : Factory) (L pos : Q) :
  cls (the_drift f L pos) <> Quad_cls /\ cls (the_drift f L pos) <> BaseRF_Gap_cls.
Proof. split; discriminate. Qed.

(** A node that is no quad and no RF gap joins the sequence. *)
Lemma same_elements_add (node : AccNode) (index : Z) (f g : Factory) :
  cls node <> Quad_cls -> cls node <> BaseRF_Gap_cls ->
  accSeq g = accSeq f -> accRF_Cavs g = accRF_Cavs f ->
  same_elements f (set_accSeq (Sequence_addNode node index (accSeq g)) g).
Proof.
  intros Hq Hg Hseq Hcavs. split; [|split].
  - cbn [accSeq set_accSeq]. rewrite Sequence_addNode_name, Hseq. reflexivity.
  - unfold seq_nodes. cbn [accSeq set_accSeq].
    rewrite (Sequence_addNode_elements node index _ Hq Hg), Hseq. reflexivity.
  - exact Hcavs.
Qed.

Lemma drift_before_first_elements (a : AccNode) (f f1 : Factory) :
  drift_before_first a f = (Ok tt, f1) -> same_elements f f1.
Proof.
  intros Hrun. unfold drift_before_first in Hrun.
  bind_inv Hrun as L s0 HL. bind_inv Hrun as pos s1 Hpos.
  destruct (Qlt_le_dec _ _); [|apply ret_Ok_inv in Hrun as [_ ->]; apply same_elements_refl].
  destruct (Qlt_le_dec _ _); [apply raise_Ok_inv in Hrun; destruct Hrun|].
  bind_inv Hrun as d s2 Hd. inv_atom Hrun.
  apply same_elements_add; [discriminate | discriminate | reflexivity | reflexivity].
Qed.

Lemma drift_after_last_elements (b : AccNode) (f f1 : Factory) :
  drift_after_last b f = (Ok tt, f1) -> same_elements f f1.
Proof.
  intros Hrun. unfold drift_after_last in Hrun.
  bind_inv Hrun as L s0 HL. bind_inv Hrun as pos s1 Hpos. bind_inv Hrun as seqL s2 HseqL.
  unfold seq_length in HseqL. bind_inv HseqL as g s3 Hget. inv_atom HseqL.
  destruct (Qlt_le_dec _ _); [|apply ret_Ok_inv in Hrun as [_ ->]; apply same_elements_refl].
  destruct (Qlt_le_dec _ _); [apply raise_Ok_inv in Hrun; destruct Hrun|].
  bind_inv Hrun as d s4 Hd. inv_atom Hrun.
  apply same_elements_add; [discriminate | discriminate | reflexivity | reflexivity].
Qed.

Lemma drift_between_elements (accNode0 accNode1 : AccNode) (f f1 : Factory) :
  drift_between accNode0 accNode1 f = (Ok tt, f1) -> same_elements f f1.
Proof.
  intros Hrun. unfold drift_between in Hrun.
  bind_inv Hrun as pos1 s0 Hpos1. bind_inv Hrun as L1 s1 HL1.
  bind_inv Hrun as pos0 s2 Hpos0. bind_inv Hrun as L0 s3 HL0.
  destruct (Qlt_le_dec _ _); [apply raise_Ok_inv in Hrun; destruct Hrun|].
  destruct (Qlt_le_dec _ _); [|apply ret_Ok_inv in Hrun as [_ ->]; apply same_elements_refl].
  bind_inv Hrun as d s4 Hd. bind_inv Hrun as nodes s5 Hnodes. bind_inv Hrun as ind s6 Hind.
  inv_atom Hrun.
  apply same_elements_add; [discriminate | discriminate | reflexivity | reflexivity].
Qed.

(** Making the drifts leaves the quads and RF gaps of the sequence as
    they are. *)
Lemma insert_drifts_elements (f f' : Factory) :
  insert_drifts f = (Ok tt, f') -> same_elements f f'.
Proof.
  intros Hrun. unfold insert_drifts in Hrun.
  bind_inv Hrun as nodes s0 Hnodes. bind_inv Hrun as firstNode s1 Hfirst.
  bind_inv Hrun as lastNode s2 Hlast.
  bind_inv Hrun as u0 f1 Hbefore. destruct u0. bind_inv Hrun as u1 f2 Hafter. destruct u1.
  eapply same_elements_trans; [exact (drift_before_first_elements _ _ _ Hbefore)|].
  eapply same_elements_trans; [exact (drift_after_last_elements _ _ _ Hafter)|].
  refine (for_each_same_elements _ _ _ _ _ Hrun).
  intros p s s' Hstep. exact (drift_between_elements _ _ _ _ Hstep).
Qed.

Lemma same_elements_add1 (node : AccNode) (index : Z) (g : Factory) :
  cls node <> Quad_cls -> cls node <> BaseRF_Gap_cls ->
  same_elements g (set_accSeq (Sequence_addNode node index (accSeq g)) g).
Proof. intros Hq Hg. apply same_elements_add; [exact Hq | exact Hg | reflexivity | reflexivity]. Qed.

Lemma thin_not_element (n : AccNode) :
  is_thin n = true -> cls n <> Quad_cls /\ cls n <> BaseRF_Gap_cls.
Proof. unfold is_thin. destruct (cls n); split; discriminate. Qed.

Lemma update_node_elements (id : nat) (change : AccNode -> result AccNode) (l l' : list AccNode) :
  (forall n n', change n = Ok n' -> outline n' = outline n /\ cls n' = cls n) ->
  update_node id change l = Ok l' ->
  outline <$> elements l' = outline <$> elements l.
Proof.
  intros Hchange. revert l'. induction l as [|n l IH]; intros l'; cbn [update_node].
  - intros [= <-]. reflexivity.
  - destruct (decide (oid n = id)) as [_|_].
    + destruct (change n) as [n'|e] eqn:Hn; [|discriminate]. intros [= <-].
      destruct (Hchange n n' Hn) as [Hout Hcls]. unfold elements. rewrite !filter_cons.
      rewrite Hcls. destruct (decide _); [|reflexivity].
      rewrite !fmap_cons, Hout. reflexivity.
    + destruct (update_node id change l) as [rest|e]; [|discriminate]. intros [= <-].
      unfold elements. rewrite !filter_cons. destruct (decide _); [|apply IH; reflexivity].
      rewrite !fmap_cons. f_equal. apply IH. reflexivity.
Qed.

Lemma addChildNode_outline (child : AccNode) (part_index : Z) (n n' : AccNode) :
  addChildNode child part_index n = Ok n' -> outline n' = outline n /\ cls n' = cls n.
Proof.
  unfold addChildNode. destruct (_ || _); [discriminate|]. intros [= <-]. split; reflexivity.
Qed.

Lemma place_in_quad_elements (node : nat * ParserNode) (quad : AccNode) (f f' : Factory) :
  place_in_quad node quad f = (Ok tt, f') -> same_elements f f'.
Proof.
  intros Hrun. unfold place_in_quad in Hrun.
  bind_inv Hrun as position s0 Hposition. bind_inv Hrun as pos s1 Hpos.
  bind_inv Hrun as L s2 HL.
  destruct (_ || _); [|apply ret_Ok_inv in Hrun as [_ ->]; apply same_elements_refl].
  bind_inv Hrun as accNode f1 Hthin. apply make_thin_inv in Hthin as (-> & _ & _).
  bind_inv Hrun as f2 s3 Hget. bind_inv Hrun as nodes s4 Hnodes.
  bind_inv Hrun as u s5 Hput. inv_atom Hrun.
  apply update_node_elements in Hnodes; [|intros n n'; apply addChildNode_outline].
  split; [reflexivity|]. split; [exact Hnodes | reflexivity].
Qed.

Lemma remove_used_elements (f f' : Factory) : remove_used f = (Ok tt, f') -> same_elements f f'.
Proof.
  intros Hrun. unfold remove_used in Hrun. bind_inv Hrun as f0 s0 Hget.
  refine (for_each_same_elements _ _ _ _ _ Hrun).
  intros x s s' Hstep. bind_inv Hstep as f1 s1 Hget1. bind_inv Hstep as rest s2 Hrest.
  inv_atom Hstep. repeat split; reflexivity.
Qed.

(** Putting thin elements into the quads leaves the quads and RF gaps
    of the sequence in their places. *)
Lemma place_in_quads_elements (f f' : Factory) :
  place_in_quads f = (Ok tt, f') -> same_elements f f'.
Proof.
  intros Hrun. unfold place_in_quads in Hrun.
  bind_inv Hrun as nodes s0 Hnodes. bind_inv Hrun as u s1 Hused. bind_inv Hrun as f0 s2 Hget.
  bind_inv Hrun as u' f1 Hloop. destruct u'.
  apply remove_used_elements in Hrun.
  assert (same_elements (set_usedThinNodes [] f) f1) as Hplaced.
  { refine (for_each_same_elements _ _ _ _ _ Hloop).
    intros node s s' Hquads. refine (for_each_same_elements _ _ _ _ _ Hquads).
    intros quad t t' Hstep. exact (place_in_quad_elements _ _ _ _ Hstep). }
  eapply same_elements_trans; [|exact Hrun].
  eapply same_elements_trans; [|exact Hplaced].
  repeat split; reflexivity.
Qed.

Lemma place_in_drift_elements (node : nat * ParserNode) (f f' : Factory) :
  place_in_drift node f = (Ok tt, f') -> distinct_oids f -> same_elements f f'.
Proof.
  intros Hrun Hdist. unfold place_in_drift in Hrun.
  bind_inv Hrun as position s0 Hposition. bind_inv Hrun as nodes s1 Hnodes.
  bind_inv Hrun as driftNode s2 Hfound.
  destruct driftNode as [d|]; [|apply ret_Ok_inv in Hrun as [_ ->]; apply same_elements_refl].
  apply getDriftThinNode_inv in Hfound as [Hin Hcls].
  bind_inv Hrun as u f0 Hused. bind_inv Hrun as pos s3 Hpos.
  bind_inv Hrun as len s4 Hlen.
  bind_inv Hrun as nodes' s5 Hnodes'. bind_inv Hrun as ind s6 Hind.
  bind_inv Hrun as accNode f1 Hthin. apply make_thin_inv in Hthin as (-> & Hoid & Hthin).
  destruct (thin_not_element _ Hthin) as [Hq Hg].
  set (t := node_setParam "pos" (PyFloat position) accNode) in *.
  assert (cls t <> Quad_cls) as Hqt by exact Hq.
  assert (cls t <> BaseRF_Gap_cls) as Hgt by exact Hg.
  destruct (Qlt_le_dec _ zeroDistance).
  { inv_atom Hrun. apply same_elements_add; [exact Hqt | exact Hgt | reflexivity | reflexivity]. }
  destruct (Qlt_le_dec _ zeroDistance).
  { inv_atom Hrun. apply same_elements_add; [exact Hqt | exact Hgt | reflexivity | reflexivity]. }
  change (seq_nodes (set_usedThinNodes (usedThinNodes f ++ [node]) f)) with (seq_nodes f) in Hind.
  destruct (index_of_split _ _ _ Hind) as (l1 & n & l2 & Hsplit & Hn & -> & Hnot).
  assert (distinct_below (next_oid f) (l1 ++ n :: l2)) as Hbelow
    by (rewrite <- Hsplit; exact Hdist).
  rewrite Hsplit in Hin.
  pose proof (distinct_below_same _ _ _ _ _ Hbelow Hin Hn Hnot) as <-. clear Hn Hin.
  bind_inv Hrun as drift0 f2 Hdrift0. bind_inv Hrun as drift1 f3 Hdrift1.
  bind_inv Hrun as f4 s7 Hget. bind_inv Hrun as rest s8 Hrest.
  change (linacNodes (accSeq _)) with (seq_nodes f) in Hrest.
  rewrite Hsplit, (remove_node_split _ _ _ _ eq_refl Hnot) in Hrest. injection Hrest as <-.
  bind_inv Hrun as u1 s9 Hput. bind_inv Hrun as u2 s10 Hadd0. bind_inv Hrun as u3 s11 Hadd1.
  inv_atom Hrun.
  eapply same_elements_trans; cycle 1.
  { apply same_elements_add1; discriminate. }
  eapply same_elements_trans; cycle 1.
  { apply same_elements_add1; [exact Hqt | exact Hgt]. }
  eapply same_elements_trans; cycle 1.
  { apply same_elements_add1; discriminate. }
  split; [reflexivity|]. split; [|reflexivity].
  unfold seq_nodes at 1. cbn [accSeq set_accSeq linacNodes]. rewrite Hsplit.
  rewrite !elements_app, (elements_cons_other d l2); [reflexivity | |]; rewrite Hcls; discriminate.
Qed.

(** Putting thin elements at the drifts leaves the quads and RF gaps of
    the sequence in their places. *)
Lemma place_in_drifts_elements (L : Q) (f f' : Factory) :
  place_in_drifts f = (Ok tt, f') -> tiled L f -> same_elements f f'.
Proof.
  intros Hrun Htiled. unfold place_in_drifts in Hrun.
  bind_inv Hrun as u s0 Hused. bind_inv Hrun as f0 s1 Hget.
  bind_inv Hrun as u' f1 Hloop. destruct u'.
  apply remove_used_elements in Hrun.
  assert (tiled L f1 /\ same_elements f f1) as [_ Hsame1].
  { refine (for_each_invariant (fun s => tiled L s /\ same_elements f s) _ _ _ _ _ _ Hloop).
    - intros node s s' _ [Ht Hs] Hstep.
      destruct (place_in_drift_inv node L s s' Hstep Ht) as [Ht' _].
      split; [exact Ht'|]. eapply same_elements_trans; [exact Hs|].
      exact (place_in_drift_elements node s s' Hstep (proj1 (proj2 Ht))).
    - split; [exact Htiled|]. repeat split; reflexivity. }
  eapply same_elements_trans; [exact Hsame1 | exact Hrun].
Qed.

(** The parameters of a parsed element but "pos" are read as they were. *)
Lemma pn_float_other (node : ParserNode) (pos : Q) (key : string) :
  key <> "pos"%string ->
  pn_float (mkParserNode (pn_name node) (setParam (pn_paramsDict node) "pos" (PyFloat pos))) key
  = pn_float node key.
Proof.
  intros Hkey. unfold pn_float, getParam, setParam. cbn [pn_paramsDict].
  rewrite lookup_insert_ne by congruence. reflexivity.
Qed.

Lemma pn_getType_other (node : ParserNode) (pos : Q) :
  pn_getType (mkParserNode (pn_name node) (setParam (pn_paramsDict node) "pos" (PyFloat pos)))
  = pn_getType node.
Proof.
  unfold pn_getType, getParam, setParam. cbn [pn_paramsDict].
  rewrite lookup_insert_ne by discriminate. reflexivity.
Qed.

Lemma make_quad_element (node : ParserNode) (pos : Q) (f f' : Factory) :
  make_quad node f = (Ok tt, f') ->
  pn_paramsDict node !! "pos" = Some (PyFloat pos) ->
  exists accNode L,
    pn_float node "length" = Ok L /\
    seq_nodes f' = seq_nodes f ++ [accNode] /\
    cls accNode = Quad_cls /\ outline accNode = (pn_name node, Ok pos, L) /\
    seq_name (accSeq f') = seq_name (accSeq f) /\ accRF_Cavs f' = accRF_Cavs f.
Proof.
  intros Hrun Hpos. unfold make_quad in Hrun.
  bind_inv Hrun as id s0 Hid. bind_inv Hrun as L s1 HL. bind_inv Hrun as quad s2 Hquad.
  apply setLength_whole in Hquad. subst quad.
  bind_inv Hrun as field s3 Hfield. bind_inv Hrun as field' s4 Hfield'. inv_atom Hrun.
  eexists _, L. split; [exact HL|]. split; [reflexivity|]. split; [reflexivity|].
  split; [|split; reflexivity].
  unfold outline. f_equal. f_equal.
  unfold node_pos, getFloat, getParam, node_setParam, setParam, updateParamsDict.
  cbn [acc_paramsDict set_paramsDict set_parts].
  rewrite !lookup_insert_ne by discriminate.
  rewrite (lookup_union_Some_l _ _ _ _ Hpos). reflexivity.
Qed.

Lemma node_pos_setParam (key : string) (v : pyval) (n : AccNode) :
  key <> "pos"%string -> node_pos (node_setParam key v n) = node_pos n.
Proof.
  intros Hkey. unfold node_pos, getFloat, getParam, node_setParam, setParam.
  cbn [acc_paramsDict set_paramsDict]. rewrite lookup_insert_ne by congruence. reflexivity.
Qed.

Lemma addRF_GapNode_outline (c : nat) (cav : RF_Cavity) (rfGap : AccNode) :
  outline (snd (addRF_GapNode c cav rfGap)) = outline rfGap.
Proof.
  unfold addRF_GapNode. destruct (decide _); cbn [snd]; unfold outline;
    change (node_pos (set_isFirstGap _ ?n)) with (node_pos n);
    rewrite node_pos_setParam by discriminate; reflexivity.
Qed.

Lemma make_rf_gap_element (seq : ParserSeq) (node : ParserNode) (pos : Q) (f f' : Factory) :
  make_rf_gap seq node f = (Ok tt, f') ->
  pn_paramsDict node !! "pos" = Some (PyFloat pos) ->
  exists accNode L,
    pn_float node "gapLength" = Ok L /\
    seq_nodes f' = seq_nodes f ++ [accNode] /\
    cls accNode = BaseRF_Gap_cls /\ outline accNode = (pn_name node, Ok pos, L) /\
    seq_name (accSeq f') = seq_name (accSeq f).
Proof.
  intros Hrun Hpos. unfold make_rf_gap in Hrun.
  bind_inv Hrun as id s0 Hid. bind_inv Hrun as gapOffset s1 HgapOffset.
  bind_inv Hrun as gapLength s2 HgapLength. bind_inv Hrun as gap s3 Hgap.
  apply setLength_whole in Hgap. subst gap.
  bind_inv Hrun as amp s4 Hamp. bind_inv Hrun as E0TL s5 HE0TL.
  bind_inv Hrun as modePhase s6 HmodePhase. bind_inv Hrun as v s7 Hv.
  bind_inv Hrun as rf_cav_name s8 Hname. bind_inv Hrun as f0 s9 Hget.
  bind_inv Hrun as accNode0 f1 Hcav.
  assert (node_pos (updateParamsDict (pn_paramsDict node)
                      (BaseRF_Gap_init (next_oid f) (pn_name node))) = Ok pos) as Hpos0.
  { unfold node_pos, getFloat, getParam, updateParamsDict. cbn [acc_paramsDict set_paramsDict].
    rewrite (lookup_union_Some_l _ _ _ _ Hpos). reflexivity. }
  assert (cls accNode0 = BaseRF_Gap_cls /\ outline accNode0 = (pn_name node, Ok pos, gapLength) /\
          accSeq f1 = accSeq f) as (Hcls & Hout & Hseq).
  { destruct (bool_decide _).
    - apply ret_Ok_inv in Hcav as [-> ->]. split; [reflexivity|]. split; [|reflexivity].
      unfold outline. rewrite !node_pos_setParam by discriminate.
      change (node_pos (set_parts _ _ _ ?n)) with (node_pos n).
      rewrite node_pos_setParam by discriminate. rewrite Hpos0. reflexivity.
    - bind_inv Hcav as firstPhase t0 HfirstPhase. bind_inv Hcav as phase t1 Hphase.
      bind_inv Hcav as u0 t2 Hnames. bind_inv Hcav as firstPhase' t3 HfirstPhase'.
      bind_inv Hcav as rfFrequency t4 HrfFrequency. bind_inv Hcav as u1 t5 Hcavs.
      apply ret_Ok_inv in Hcav as [-> ->]. split; [reflexivity|]. split; [|reflexivity].
      unfold outline. rewrite !node_pos_setParam by discriminate.
      change (node_pos (set_parts _ _ _ ?n)) with (node_pos n).
      rewrite node_pos_setParam by discriminate. rewrite Hpos0. reflexivity. }
  bind_inv Hrun as f2 s10 Hget2. bind_inv Hrun as cav s11 Hlast.
  destruct (addRF_GapNode_node (Z.to_nat (Z.of_nat (List.length (accRF_Cavs f1)) - 1)) cav accNode0)
    as [_ Hcls'].
  pose proof (addRF_GapNode_outline (Z.to_nat (Z.of_nat (List.length (accRF_Cavs f1)) - 1))
                cav accNode0) as Hout'.
  destruct (addRF_GapNode _ cav accNode0) as [accRF_Cav accNode]. cbn [snd] in Hcls', Hout'.
  bind_inv Hrun as u2 s12 Hset. inv_atom Hrun.
  exists accNode, gapLength. split; [exact HgapLength|].
  unfold seq_nodes. cbn [accSeq set_accSeq set_accRF_Cavs]. rewrite Hseq.
  split; [reflexivity|]. split; [congruence|]. split; [congruence|].
  apply Sequence_addNode_name.
Qed.

Lemma classify_elements (seq : ParserSeq) (i : nat) (node : ParserNode) (f f' : Factory) :
  classify seq i node f = (Ok tt, f') ->
  seq_name (accSeq f') = seq_name (accSeq f) /\
  outline <$> elements (seq_nodes f')
  = (outline <$> elements (seq_nodes f)) ++ omap parsed_element [node].
Proof.
  intros Hrun. unfold classify in Hrun.
  bind_inv Hrun as pos s0 Hpos. bind_inv Hrun as type s1 Htype.
  rewrite pn_getType_other in Htype.
  cbn [omap list_omap]. unfold parsed_element. rewrite Htype, Hpos.
  set (node' := mkParserNode (pn_name node) (setParam (pn_paramsDict node) "pos" (PyFloat pos))) in *.
  assert (pn_paramsDict node' !! "pos" = Some (PyFloat pos)) as Hpos' by apply lookup_insert_eq.
  destruct (String.eqb type "QUAD").
  { destruct (make_quad_element node' pos f f' Hrun Hpos')
      as (accNode & L & HL & Hnodes & Hcls & Hout & Hname & _).
    unfold node' in HL. rewrite pn_float_other in HL by discriminate. rewrite HL.
    split; [exact Hname|].
    rewrite Hnodes, elements_app, (elements_cons_element accNode []) by (left; exact Hcls).
    rewrite fmap_app. cbn [fmap list_fmap]. rewrite Hout. reflexivity. }
  destruct (String.eqb type "RFGAP").
  { destruct (make_rf_gap_element seq node' pos f f' Hrun Hpos')
      as (accNode & L & HL & Hnodes & Hcls & Hout & Hname).
    unfold node' in HL. rewrite pn_float_other in HL by discriminate. rewrite HL.
    split; [exact Hname|].
    rewrite Hnodes, elements_app, (elements_cons_element accNode []) by (right; exact Hcls).
    rewrite fmap_app. cbn [fmap list_fmap]. rewrite Hout. reflexivity. }
  bind_inv Hrun as length s2 Hlength. bind_inv Hrun as u f1 Hstrange. inv_atom Hrun.
  assert (f1 = f) as ->.
  { destruct (py_ne_zero length); [apply raise_Ok_inv in Hstrange; destruct Hstrange|].
    apply ret_Ok_inv in Hstrange as [_ ->]. reflexivity. }
  split; [reflexivity|]. rewrite app_nil_r. reflexivity.
Qed.

Lemma omap_app_one {A B} (g : A -> option B) (l : list A) (x : A) :
  omap g (l ++ [x]) = omap g l ++ omap g [x].
Proof.
  induction l as [|y l IH]; [reflexivity|].
  cbn [app omap list_omap]. cbn [omap list_omap] in IH. rewrite IH.
  destruct (g y); reflexivity.
Qed.

Lemma classify_loop_elements (seq : ParserSeq) (l : list (nat * ParserNode)) :
  forall (f f' : Factory),
    for_each l (fun node => classify seq (fst node) (snd node)) f = (Ok tt, f') ->
    seq_name (accSeq f') = seq_name (accSeq f) /\
    outline <$> elements (seq_nodes f')
    = (outline <$> elements (seq_nodes f)) ++ omap parsed_element (snd <$> l).
Proof.
  induction l as [|x l IH]; intros f f' Hrun; cbn [for_each] in Hrun.
  - apply ret_Ok_inv in Hrun as [_ ->]. split; [reflexivity|]. symmetry. apply app_nil_r.
  - bind_inv Hrun as u f1 Hstep. destruct u.
    destruct (classify_elements _ _ _ _ _ Hstep) as [Hname1 Hout1].
    destruct (IH f1 f' Hrun) as [Hname Hout].
    split; [congruence|]. rewrite Hout, Hout1, <- app_assoc. f_equal.
    rewrite fmap_cons. cbn [omap list_omap]. destruct (parsed_element x.2); reflexivity.
Qed.

Lemma assemble_loop (l : list AccNode) :
  forall f f1 : Factory,
    for_each l (fun accNode =>
      pos ← lift (getParam (acc_paramsDict accNode) "pos");
      L ← lift (getLength accNode (-1));
      modify (fun f => set_linacAccLattice (addNode accNode (linacAccLattice f)) f)) f
    = (Ok tt, f1) ->
    accSeq f1 = accSeq f /\ accRF_Cavs f1 = accRF_Cavs f /\
    lat_nodes (linacAccLattice f1) = lat_nodes (linacAccLattice f) ++ l /\
    sequences (linacAccLattice f1) = sequences (linacAccLattice f) /\
    rfCavities (linacAccLattice f1) = rfCavities (linacAccLattice f).
Proof.
  induction l as [|n l IH]; intros f f1 Hrun; cbn [for_each] in Hrun.
  - apply ret_Ok_inv in Hrun as [_ ->]. rewrite app_nil_r. repeat split; reflexivity.
  - bind_inv Hrun as u f0 Hstep. destruct u.
    bind_inv Hstep as pos t0 Hpos. bind_inv Hstep as len t1 Hlen. inv_atom Hstep.
    destruct (IH _ _ Hrun) as (Hseq & Hcavs & Hnodes & Hseqs & Hrf).
    split; [exact Hseq|]. split; [exact Hcavs|]. split; [|split; assumption].
    rewrite Hnodes. cbn [linacAccLattice set_linacAccLattice addNode lat_nodes].
    rewrite <- app_assoc. reflexivity.
Qed.

(** The nodes of the sequence and the sequence go to the lattice. *)
Lemma assemble_frame (f f' : Factory) :
  assemble f = (Ok tt, f') ->
  accRF_Cavs f' = accRF_Cavs f /\
  lat_nodes (linacAccLattice f') = lat_nodes (linacAccLattice f) ++ seq_nodes f /\
  sequences (linacAccLattice f') = sequences (linacAccLattice f) ++ [accSeq f] /\
  rfCavities (linacAccLattice f') = rfCavities (linacAccLattice f).
Proof.
  intros Hrun. unfold assemble in Hrun.
  bind_inv Hrun as nodes s0 Hnodes. bind_inv Hrun as u f1 Hloop. destruct u. inv_atom Hrun.
  destruct (assemble_loop _ _ _ Hloop) as (Hseq & Hcavs & Hlat & Hseqs & Hrf).
  cbn [linacAccLattice set_linacAccLattice addSequence sequences lat_nodes rfCavities accRF_Cavs].
  rewrite Hseq, Hseqs. repeat split; assumption.
Qed.

Lemma enumerate_snd {A} (l : list A) : snd <$> enumerate l = l.
Proof. unfold enumerate. apply snd_zip. rewrite length_seq. apply Nat.le_refl. Qed.


(** *** What a lattice that is returned says about the parsed elements *)

(** Every round of a loop that returned has returned. *)
Lemma for_each_steps {S A} (l : list A) (body : A -> M S unit) :
  forall s s' : S,
    for_each l body s = (Ok tt, s') ->
    Forall (fun x => exists t t', body x t = (Ok tt, t')) l.
Proof.
  induction l as [|x l IH]; intros s s' Hrun; cbn [for_each] in Hrun; [constructor|].
  apply bind_Ok_inv in Hrun as ([] & s1 & Hstep & Hrun).
  constructor; [exists s, s1; exact Hstep | exact (IH _ _ Hrun)].
Qed.

Lemma classify_accepts (seq : ParserSeq) (i : nat) (node : ParserNode) (f f' : Factory) :
  classify seq i node f = (Ok tt, f') -> accepted node.
Proof.
  intros Hrun. unfold classify in Hrun.
  bind_inv Hrun as pos s0 Hpos. bind_inv Hrun as type s1 Htype.
  rewrite pn_getType_other in Htype.
  exists pos, type. split; [exact Hpos|]. split; [exact Htype|].
  destruct (String.eqb_spec type "QUAD") as [->|_]; [left; reflexivity|].
  destruct (String.eqb_spec type "RFGAP") as [->|_]; [right; left; reflexivity|].
  bind_inv Hrun as length s2 Hlength. bind_inv Hrun as u f1 Hstrange.
  right. right. exists length. split.
  - revert Hlength. unfold getParam, setParam. cbn [pn_paramsDict].
    rewrite lookup_insert_ne by discriminate. tauto.
  - destruct (py_ne_zero length); [apply raise_Ok_inv in Hstrange; destruct Hstrange|].
    reflexivity.
Qed.

Lemma classify_only_elements (seq : ParserSeq) (i : nat) (node : ParserNode) (f f' : Factory) :
  classify seq i node f = (Ok tt, f') ->
  elements (seq_nodes f) = seq_nodes f -> elements (seq_nodes f') = seq_nodes f'.
Proof.
  intros Hrun Hall. unfold classify in Hrun.
  bind_inv Hrun as pos s0 Hpos. bind_inv Hrun as type s1 Htype.
  set (node' := mkParserNode (pn_name node) (setParam (pn_paramsDict node) "pos" (PyFloat pos))) in *.
  assert (pn_paramsDict node' !! "pos" = Some (PyFloat pos)) as Hpos' by apply lookup_insert_eq.
  destruct (String.eqb type "QUAD").
  { destruct (make_quad_element node' pos f f' Hrun Hpos')
      as (accNode & L & _ & Hnodes & Hcls & _).
    rewrite Hnodes, elements_app, (elements_cons_element accNode []) by (left; exact Hcls).
    rewrite Hall. reflexivity. }
  destruct (String.eqb type "RFGAP").
  { destruct (make_rf_gap_element seq node' pos f f' Hrun Hpos')
      as (accNode & L & _ & Hnodes & Hcls & _).
    rewrite Hnodes, elements_app, (elements_cons_element accNode []) by (right; exact Hcls).
    rewrite Hall. reflexivity. }
  bind_inv Hrun as length s2 Hlength. bind_inv Hrun as u f1 Hstrange. inv_atom Hrun.
  assert (f1 = f) as ->.
  { destruct (py_ne_zero length); [apply raise_Ok_inv in Hstrange; destruct Hstrange|].
    apply ret_Ok_inv in Hstrange as [_ ->]. reflexivity. }
  exact Hall.
Qed.

Lemma classify_loop_only_elements (seq : ParserSeq) (l : list (nat * ParserNode)) (f f' : Factory) :
  for_each l (fun node => classify seq (fst node) (snd node)) f = (Ok tt, f') ->
  elements (seq_nodes f) = seq_nodes f -> elements (seq_nodes f') = seq_nodes f'.
Proof.
  intros Hrun Hall.
  refine (for_each_invariant (fun s => elements (seq_nodes s) = seq_nodes s) l _ _ f f' Hall Hrun).
  intros x s s' _ Hs Hstep. exact (classify_only_elements _ _ _ _ _ Hstep Hs).
Qed.

Lemma classify_loop_accepts (seq : ParserSeq) (l : list (nat * ParserNode)) (f f' : Factory) :
  for_each l (fun node => classify seq (fst node) (snd node)) f = (Ok tt, f') ->
  Forall accepted (snd <$> l).
Proof.
  intros Hrun. apply for_each_steps in Hrun. apply Forall_fmap.
  eapply Forall_impl; [exact Hrun|]. intros x (t & t' & Hstep).
  exact (classify_accepts _ _ _ _ _ Hstep).
Qed.

(** Two neighbours the drift loop has passed do not overlap. *)
Lemma drift_between_ordered (accNode0 accNode1 : AccNode) (f f1 : Factory) :
  drift_between accNode0 accNode1 f = (Ok tt, f1) ->
  exists trail0 lead1,
    trailing_edge accNode0 = Ok trail0 /\ leading_edge accNode1 = Ok lead1 /\
    trail0 <= lead1.
Proof.
  intros Hrun. unfold drift_between in Hrun.
  bind_inv Hrun as pos1 s0 Hpos1. bind_inv Hrun as L1 s1 HL1.
  bind_inv Hrun as pos0 s2 Hpos0. bind_inv Hrun as L0 s3 HL0.
  change (getLength accNode1 (-1)) with (Ok (acc_length accNode1)) in HL1. injection HL1 as <-.
  change (getLength accNode0 (-1)) with (Ok (acc_length accNode0)) in HL0. injection HL0 as <-.
  destruct (edges_of_pos _ _ Hpos1) as [Hlead1 _]. destruct (edges_of_pos _ _ Hpos0) as [_ Htrail0].
  destruct (Qlt_le_dec _ 0) as [Hneg|Hge]; [apply raise_Ok_inv in Hrun; destruct Hrun|].
  eexists _, _. split; [exact Htrail0|]. split; [exact Hlead1|]. lra.
Qed.

Lemma drift_before_first_bound (a : AccNode) (f f1 : Factory) :
  drift_before_first a f = (Ok tt, f1) ->
  exists lead, leading_edge a = Ok lead /\ - zeroDistance <= lead.
Proof.
  intros Hrun. unfold drift_before_first in Hrun.
  bind_inv Hrun as L s0 HL. bind_inv Hrun as pos s1 Hpos.
  change (getLength a (-1)) with (Ok (acc_length a)) in HL. injection HL as <-.
  destruct (edges_of_pos _ _ Hpos) as [Hlead _].
  eexists. split; [exact Hlead|].
  assert (zeroDistance == 1 # 100000) as Heps by reflexivity.
  destruct (Qlt_le_dec zeroDistance _) as [Hfar|Hnear].
  - destruct (Qlt_le_dec pos _) as [Hlong|Hshort]; [apply raise_Ok_inv in Hrun; destruct Hrun|].
    rewrite Heps. lra.
  - apply Qabs_Qle_condition in Hnear as [Hlow Hhigh]. lra.
Qed.

Lemma drift_after_last_bound (b : AccNode) (f f1 : Factory) :
  drift_after_last b f = (Ok tt, f1) ->
  exists trail L,
    trailing_edge b = Ok trail /\ Sequence_getLength (accSeq f) = Ok L /\
    trail <= L + zeroDistance.
Proof.
  intros Hrun. unfold drift_after_last in Hrun.
  bind_inv Hrun as len s0 Hlen. bind_inv Hrun as pos s1 Hpos. bind_inv Hrun as seqL s2 HseqL.
  unfold seq_length in HseqL. bind_inv HseqL as g s3 Hget. inv_atom HseqL.
  change (getLength b (-1)) with (Ok (acc_length b)) in Hlen. injection Hlen as <-.
  destruct (edges_of_pos _ _ Hpos) as [_ Htrail].
  eexists _, seqL. split; [exact Htrail|]. split; [exact HseqL|].
  assert (zeroDistance == 1 # 100000) as Heps by reflexivity.
  destruct (Qlt_le_dec zeroDistance _) as [Hfar|Hnear].
  - destruct (Qlt_le_dec seqL _) as [Hlong|Hshort]; [apply raise_Ok_inv in Hrun; destruct Hrun|].
    rewrite Heps. lra.
  - apply Qabs_Qle_condition in Hnear as [Hlow Hhigh]. lra.
Qed.

Lemma pairs_within (rest : list AccNode) :
  forall (a : AccNode) (from lead to tl : Q),
    Forall (fun p => exists trail0 lead1,
                       trailing_edge (fst p) = Ok trail0 /\ leading_edge (snd p) = Ok lead1 /\
                       trail0 <= lead1) (pairs (a :: rest)) ->
    leading_edge a = Ok lead -> from <= lead ->
    trailing_edge (List.last rest a) = Ok tl -> tl <= to ->
    within from (a :: rest) to.
Proof.
  induction rest as [|b rest IH]; intros a from lead to tl Hpairs Hlead Hfrom Htl Hto.
  - cbn [List.last] in Htl. cbn [within]. exists lead, tl. repeat split; assumption.
  - change (pairs (a :: b :: rest)) with ((a, b) :: pairs (b :: rest)) in Hpairs.
    apply Forall_cons in Hpairs as [(trail0 & lead1 & Htrail0 & Hlead1 & Hord) Hpairs].
    cbn [fst snd] in Htrail0, Hlead1. rewrite last_cons in Htl.
    cbn [within]. exists lead, trail0. split; [exact Hlead|]. split; [exact Htrail0|].
    split; [exact Hfrom|]. exact (IH b trail0 lead1 to tl Hpairs Hlead1 Hord Htl Hto).
Qed.

(** The quads and RF gaps the drift loop has passed lie in the sequence
    and do not overlap. *)
Lemma insert_drifts_within (f f' : Factory) :
  insert_drifts f = (Ok tt, f') ->
  seq_nodes f <> [] /\
  exists L, Sequence_getLength (accSeq f) = Ok L /\
            within (- zeroDistance) (seq_nodes f) (L + zeroDistance).
Proof.
  intros Hrun. unfold insert_drifts in Hrun.
  bind_inv Hrun as nodes s0 Hnodes. bind_inv Hrun as firstNode s1 Hfirst.
  destruct (list_get_head _ _ Hfirst) as (rest & Hsplit).
  bind_inv Hrun as lastNode s2 Hlast. rewrite Hsplit, list_last_last in Hlast.
  injection Hlast as <-.
  bind_inv Hrun as u0 f1 Hbefore. destruct u0. bind_inv Hrun as u1 f2 Hafter. destruct u1.
  split; [rewrite Hsplit; discriminate|].
  destruct (drift_before_first_bound _ _ _ Hbefore) as (lead & Hlead & Hlow).
  destruct (drift_after_last_bound _ _ _ Hafter) as (tl & L & Htl & HL & Hhigh).
  destruct (drift_before_first_inv _ _ _ Hbefore) as (_ & _ & _ & _ & _ & _ & _ & _ & _ & _ & _ & Hs1).
  exists L. split; [rewrite <- (same_sequence_length f f1 Hs1); exact HL|].
  rewrite Hsplit. rewrite Hsplit in Hrun. apply for_each_steps in Hrun.
  apply (pairs_within rest firstNode _ lead _ tl); try assumption.
  eapply Forall_impl; [exact Hrun|]. intros p (t & t' & Hstep).
  exact (drift_between_ordered _ _ _ _ Hstep).
Qed.

Lemma outline_edges (n n' : AccNode) :
  outline n' = outline n ->
  leading_edge n' = leading_edge n /\ trailing_edge n' = trailing_edge n.
Proof.
  unfold outline. intros Hout.
  assert (node_pos n' = node_pos n) as Hpos by congruence.
  assert (acc_length n' = acc_length n) as Hlen by congruence.
  unfold leading_edge, trailing_edge.
  change (getLength n' (-1)) with (Ok (acc_length n')).
  change (getLength n (-1)) with (Ok (acc_length n)).
  rewrite Hpos, Hlen. split; reflexivity.
Qed.

Lemma outline_within (l l' : list AccNode) (from to : Q) :
  outline <$> l' = outline <$> l -> within from l to -> within from l' to.
Proof.
  revert l' from. induction l as [|n l IH]; intros [|n' l'] from Hout; try discriminate Hout;
    [tauto|].
  apply fmap_cons_inv in Hout as [Hn Hl]. cbn [within].
  intros (lead & trail & Hlead & Htrail & Hfrom & Hrest).
  destruct (outline_edges n n' Hn) as [Hl' Ht'].
  exists lead, trail. split; [congruence|]. split; [congruence|]. split; [exact Hfrom|].
  apply IH; assumption.
Qed.

(** *** The cavities *)

Lemma list_get_last_split {A} (l : list A) (x : A) :
  list_get l (Z.of_nat (List.length l) - 1) = Ok x ->
  exists prefix, l = prefix ++ [x] /\ Z.to_nat (Z.of_nat (List.length l) - 1) = List.length prefix.
Proof.
  destruct (decide (l = [])) as [->|Hne]; [discriminate|].
  destruct (exists_last Hne) as (prefix & y & ->).
  unfold list_get. rewrite length_app. cbn [List.length].
  destruct (Z.ltb_spec (Z.of_nat (List.length prefix + 1) - 1) 0) as [Hneg|_]; [lia|].
  replace (Z.to_nat (Z.of_nat (List.length prefix + 1) - 1)) with (List.length prefix) by lia.
  rewrite lookup_app_r by apply Nat.le_refl. rewrite Nat.sub_diag. cbn [lookup list_lookup].
  intros [= ->]. exists prefix. split; reflexivity.
Qed.

Lemma insert_last {A} (prefix : list A) (x y : A) :
  <[List.length prefix := y]> (prefix ++ [x]) = prefix ++ [y].
Proof.
  rewrite insert_app_r_alt by apply Nat.le_refl. rewrite Nat.sub_diag. reflexivity.
Qed.

(** What the "RFGAP" branch of the element loop does to the cavities:
    a gap that names a cavity not yet named in its sequence makes the
    cavity, and every gap joins the cavity made last. *)
Lemma make_rf_gap_run (seq : ParserSeq) (node : ParserNode) (f f' : Factory) :
  make_rf_gap seq node f = (Ok tt, f') ->
  exists name gap,
    getParam (pn_paramsDict node) "parentCvaity" = Ok (PyStr name) /\
    seq_nodes f' = seq_nodes f ++ [gap] /\ oid gap = next_oid f /\
    (((name ∈ rf_cav_names f) /\ rf_cav_names f' = rf_cav_names f /\
      exists prefix cav,
        accRF_Cavs f = prefix ++ [cav] /\
        accRF_Cavs f'
        = prefix ++ [mkRF_Cavity (cav_name cav) (cav_paramsDict cav) (rfGaps cav ++ [oid gap])] /\
        acc_paramsDict gap !! "rfCavity" = Some (PyCavity (List.length prefix)) /\
        isFirstGap gap = bool_decide (rfGaps cav = [])) \/
     ((name ∉ rf_cav_names f) /\ rf_cav_names f' = rf_cav_names f ++ [name] /\
      exists firstPhase rfFrequency,
        pn_float node "firstPhase" = Ok firstPhase /\
        getParam (ps_paramsDict seq) "rfFrequency" = Ok rfFrequency /\
        accRF_Cavs f'
        = accRF_Cavs f ++
          [mkRF_Cavity name
             (setParam
                (setParam
                   (setParam
                      (setParam
                         (setParam (cav_paramsDict (RF_Cavity_init name))
                            "designPhase" (PyFloat ((math_pi / 180) * firstPhase)))
                         "phase" (PyFloat ((math_pi / 180) * firstPhase)))
                      "designAmp" (PyFloat 1))
                   "Amp" (PyFloat 1))
                "frequency" rfFrequency)
             [oid gap]] /\
        acc_paramsDict gap !! "rfCavity" = Some (PyCavity (List.length (accRF_Cavs f))) /\
        acc_paramsDict gap !! "firstPhase" = Some (PyFloat ((math_pi / 180) * firstPhase)) /\
        isFirstGap gap = true)).
Proof.
  intros Hrun. unfold make_rf_gap in Hrun.
  bind_inv Hrun as id s0 Hid. bind_inv Hrun as gapOffset s1 HgapOffset.
  bind_inv Hrun as gapLength s2 HgapLength. bind_inv Hrun as gap0 s3 Hgap.
  apply setLength_whole in Hgap. subst gap0.
  bind_inv Hrun as amp s4 Hamp. bind_inv Hrun as E0TL s5 HE0TL.
  bind_inv Hrun as modePhase s6 HmodePhase. bind_inv Hrun as v s7 Hv.
  bind_inv Hrun as name s8 Hname. destruct v; try discriminate Hname.
  injection Hname as <-. rename s into name.
  bind_inv Hrun as f0 s9 Hget.
  bind_inv Hrun as accNode0 f1 Hcav.
  exists name.
  destruct (bool_decide (name ∈ rf_cav_names (set_next_oid (S (next_oid f)) f))) eqn:Hseen.
  - apply bool_decide_eq_true in Hseen. apply ret_Ok_inv in Hcav as [-> ->].
    bind_inv Hrun as f2 s10 Hget2. bind_inv Hrun as cav s11 Hlast.
    cbn [accRF_Cavs set_next_oid] in Hlast.
    destruct (list_get_last_split _ _ Hlast) as (prefix & Hsplit & Hindex).
    cbn [accRF_Cavs set_next_oid] in Hrun. rewrite Hindex in Hrun.
    unfold addRF_GapNode in Hrun. revert Hrun.
    destruct (decide (List.length _ = 1%nat)) as [Hone|Hmore]; intros Hrun;
      bind_inv Hrun as u2 s12 Hset; inv_atom Hrun;
      eexists; (split; [exact Hv|]); (split; [reflexivity|]); (split; [reflexivity|]);
      left; (split; [exact Hseen|]); (split; [reflexivity|]);
      exists prefix, cav; (split; [exact Hsplit|]);
      cbn [accRF_Cavs set_accSeq set_accRF_Cavs set_next_oid]; rewrite Hsplit, insert_last;
      (split; [reflexivity|]); (split; [apply lookup_insert_eq|]);
      cbn [isFirstGap set_isFirstGap]; symmetry.
    + apply bool_decide_eq_true. rewrite length_app in Hone. cbn [List.length] in Hone.
      destruct (rfGaps cav); [reflexivity | cbn [List.length] in Hone; lia].
    + apply bool_decide_eq_false. intros Hnil. apply Hmore. rewrite Hnil. reflexivity.
  - apply bool_decide_eq_false in Hseen.
    bind_inv Hcav as firstPhase t0 HfirstPhase. bind_inv Hcav as phase t1 Hphase.
    bind_inv Hcav as u0 t2 Hnames. bind_inv Hcav as firstPhase' t3 HfirstPhase'.
    bind_inv Hcav as rfFrequency t4 HrfFrequency. bind_inv Hcav as u1 t5 Hcavs.
    apply ret_Ok_inv in Hcav as [-> ->].
    bind_inv Hrun as f2 s10 Hget2. bind_inv Hrun as cav s11 Hlast.
    cbn [accRF_Cavs set_next_oid set_accRF_Cavs set_rf_cav_names] in Hlast.
    destruct (list_get_last_split _ _ Hlast) as (prefix & Hsplit & Hindex).
    apply app_inj_tail in Hsplit as [<- <-].
    cbn [accRF_Cavs set_next_oid set_accRF_Cavs set_rf_cav_names] in Hrun. rewrite Hindex in Hrun.
    unfold addRF_GapNode in Hrun. cbn [rfGaps cav_setParam RF_Cavity_init app List.length] in Hrun.
    destruct (decide (1 = 1)%nat) as [_|Hne]; [|contradiction].
    bind_inv Hrun as u2 s12 Hset. inv_atom Hrun.
    revert HfirstPhase'. unfold getParam, node_setParam, setParam.
    cbn [acc_paramsDict set_paramsDict]. rewrite lookup_insert_eq. intros [= <-].
    assert (pn_float node "firstPhase" = Ok phase) as Hfirst.
    { revert HfirstPhase. unfold pn_float, getParam, node_setParam, setParam, updateParamsDict.
      cbn [acc_paramsDict set_paramsDict set_parts].
      rewrite !lookup_insert_ne by discriminate.
      destruct (pn_paramsDict node !! "firstPhase") as [x|] eqn:Hx.
      - rewrite (lookup_union_Some_l _ _ _ _ Hx). intros [= <-]. exact Hphase.
      - rewrite lookup_union_r by exact Hx. vm_compute. discriminate. }
    eexists. split; [exact Hv|]. split; [reflexivity|]. split; [reflexivity|].
    right. split; [exact Hseen|]. split; [reflexivity|].
    exists phase, rfFrequency. split; [exact Hfirst|]. split; [exact HrfFrequency|].
    cbn [accRF_Cavs set_accSeq set_accRF_Cavs set_next_oid set_rf_cav_names].
    rewrite insert_last. split; [reflexivity|].
    split; [apply lookup_insert_eq|]. split; [|reflexivity].
    cbn [acc_paramsDict set_isFirstGap node_setParam set_paramsDict]. unfold setParam.
    rewrite lookup_insert_ne by discriminate. apply lookup_insert_eq.
Qed.

Lemma make_quad_cavities (node : ParserNode) (f f' : Factory) :
  make_quad node f = (Ok tt, f') ->
  rf_cav_names f' = rf_cav_names f /\ accRF_Cavs f' = accRF_Cavs f.
Proof.
  intros Hrun. unfold make_quad in Hrun.
  bind_inv Hrun as id s0 Hid. bind_inv Hrun as L s1 HL. bind_inv Hrun as quad s2 Hquad.
  bind_inv Hrun as field s3 Hfield. bind_inv Hrun as field' s4 Hfield'. inv_atom Hrun.
  split; reflexivity.
Qed.

Lemma make_rf_gap_cavities (seq : ParserSeq) (node : ParserNode) (f f' : Factory) :
  make_rf_gap seq node f = (Ok tt, f') ->
  exists name,
    getParam (pn_paramsDict node) "parentCvaity" = Ok (PyStr name) /\
    rf_cav_names f' = rf_cav_names f ++ first_seen (rf_cav_names f) [name] /\
    cav_name <$> accRF_Cavs f'
    = (cav_name <$> accRF_Cavs f) ++ first_seen (rf_cav_names f) [name].
Proof.
  intros Hrun.
  destruct (make_rf_gap_run _ _ _ _ Hrun) as (name & gap & Hname & _ & _ & Hcase).
  exists name. split; [exact Hname|]. cbn [first_seen].
  destruct Hcase as [(Hseen & Hnames & prefix & cav & Hcavs & Hcavs' & _)
                    | (Hnew & Hnames & firstPhase & rfFrequency & _ & _ & Hcavs' & _)].
  - rewrite bool_decide_eq_true_2 by exact Hseen. rewrite !app_nil_r.
    split; [exact Hnames|]. rewrite Hcavs, Hcavs', !fmap_app. reflexivity.
  - rewrite bool_decide_eq_false_2 by exact Hnew.
    split; [exact Hnames|]. rewrite Hcavs', fmap_app. reflexivity.
Qed.

Lemma classify_cavities (seq : ParserSeq) (i : nat) (node : ParserNode) (f f' : Factory) :
  classify seq i node f = (Ok tt, f') ->
  rf_cav_names f' = rf_cav_names f ++ first_seen (rf_cav_names f) (omap gap_cavity [node]) /\
  cav_name <$> accRF_Cavs f'
  = (cav_name <$> accRF_Cavs f) ++ first_seen (rf_cav_names f) (omap gap_cavity [node]).
Proof.
  intros Hrun. unfold classify in Hrun.
  bind_inv Hrun as pos s0 Hpos. bind_inv Hrun as type s1 Htype.
  rewrite pn_getType_other in Htype.
  cbn [omap list_omap]. unfold gap_cavity. rewrite Htype.
  destruct (String.eqb_spec type "QUAD") as [->|_].
  { destruct (make_quad_cavities _ _ _ Hrun) as [-> ->]. cbn [String.eqb Ascii.eqb Bool.eqb].
    cbn [first_seen]. rewrite !app_nil_r. split; reflexivity. }
  destruct (String.eqb type "RFGAP").
  { destruct (make_rf_gap_cavities _ _ _ _ Hrun) as (name & Hname & Hnames & Hcavs).
    revert Hname. unfold getParam, setParam. cbn [pn_paramsDict].
    rewrite lookup_insert_ne by discriminate. intros Hname.
    unfold getParam. rewrite Hname. split; assumption. }
  bind_inv Hrun as length s2 Hlength. bind_inv Hrun as u f1 Hstrange. inv_atom Hrun.
  assert (f1 = f) as ->.
  { destruct (py_ne_zero length); [apply raise_Ok_inv in Hstrange; destruct Hstrange|].
    apply ret_Ok_inv in Hstrange as [_ ->]. reflexivity. }
  cbn [first_seen]. rewrite !app_nil_r. split; reflexivity.
Qed.

Lemma first_seen_cons (g : ParserNode -> option string) (seen : list string)
    (x : ParserNode) (rest : list ParserNode) :
  first_seen seen (omap g (x :: rest))
  = first_seen seen (omap g [x]) ++ first_seen (seen ++ first_seen seen (omap g [x])) (omap g rest).
Proof.
  cbn [omap list_omap]. destruct (g x) as [name|]; cbn [first_seen].
  - destruct (bool_decide (name ∈ seen)); cbn [app]; rewrite ?app_nil_r; reflexivity.
  - rewrite app_nil_r. reflexivity.
Qed.

Lemma classify_loop_cavities (seq : ParserSeq) (l : list (nat * ParserNode)) :
  forall (f f' : Factory),
    for_each l (fun node => classify seq (fst node) (snd node)) f = (Ok tt, f') ->
    rf_cav_names f'
    = rf_cav_names f ++ first_seen (rf_cav_names f) (omap gap_cavity (snd <$> l)) /\
    cav_name <$> accRF_Cavs f'
    = (cav_name <$> accRF_Cavs f) ++ first_seen (rf_cav_names f) (omap gap_cavity (snd <$> l)).
Proof.
  induction l as [|x l IH]; intros f f' Hrun; cbn [for_each] in Hrun.
  - apply ret_Ok_inv in Hrun as [_ ->]. cbn [fmap list_fmap omap list_omap first_seen].
    rewrite !app_nil_r. split; reflexivity.
  - bind_inv Hrun as u f1 Hstep. destruct u.
    destruct (classify_cavities _ _ _ _ _ Hstep) as [Hnames1 Hcavs1].
    destruct (IH f1 f' Hrun) as [Hnames Hcavs].
    rewrite fmap_cons, first_seen_cons.
    rewrite Hnames, Hcavs, Hnames1, Hcavs1, <- !app_assoc. split; reflexivity.
Qed.

(** One round of the loop over the parsed sequences. *)
Lemma build_sequence_frame (seqPosition next : Q) (seq : ParserSeq) (f f' : Factory) :
  build_sequence seqPosition seq f = (Ok next, f') ->
  exists s L,
    Sequence_getLength s = Ok L /\ next = seqPosition + L /\
    getFloat (seq_paramsDict s) "position" = Ok seqPosition /\
    built_from s seq /\
    sequences (linacAccLattice f') = sequences (linacAccLattice f) ++ [s] /\
    lat_nodes (linacAccLattice f') = lat_nodes (linacAccLattice f) ++ linacNodes s /\
    rfCavities (linacAccLattice f') = rfCavities (linacAccLattice f) /\
    cav_name <$> accRF_Cavs f' = (cav_name <$> accRF_Cavs f) ++ cavity_names seq.
Proof.
  intros Hrun. unfold build_sequence in Hrun.
  bind_inv Hrun as length s0 Hlength. bind_inv Hrun as u0 s1 Hseq.
  bind_inv Hrun as u1 s2 Hnames. bind_inv Hrun as u2 s3 Hthin.
  bind_inv Hrun as u3 f1 Hclassify. destruct u3.
  bind_inv Hrun as u4 f2 Hdrifts. destruct u4.
  bind_inv Hrun as u5 f3 Hquads. destruct u5.
  bind_inv Hrun as u6 f4 Hplaced. destruct u6.
  bind_inv Hrun as u7 f5 Hassemble. destruct u7.
  apply ret_Ok_inv in Hrun as [-> ->].
  match type of Hclassify with
  | for_each _ _ ?g = _ => set (f0 := g) in *
  end.
  assert (distinct_oids f0) as Hdist0 by (split; constructor).
  assert (Forall (fun n => is_thin n = false) (seq_nodes f0)) as Hthick0 by constructor.
  destruct (classify_loop _ _ _ _ Hclassify Hdist0 Hthick0) as (Hdist1 & Hthick1 & Hsame1).
  destruct (insert_drifts_inv _ _ Hdrifts Hdist1 Hthick1)
    as (L & HL & Htiles & Hthick2 & Hdist2 & Hsame2).
  assert (tiled L f2) as Htiled2.
  { split; [rewrite (same_sequence_length f1 f2 Hsame2); exact HL|].
    split; [exact Hdist2|]. rewrite (thick_all _ Hthick2). exact Htiles. }
  pose proof (place_in_quads_inv _ _ Hquads) as Hgeo3.
  pose proof (tiled_geometry L f2 f3 Hgeo3 Htiled2) as Htiled3.
  destruct (place_in_drifts_inv L f3 f4 Hplaced Htiled3) as [Htiled4 Hsame4].
  destruct (classify_loop_elements _ _ _ _ Hclassify) as [Hname1 Hout1].
  rewrite enumerate_snd in Hout1.
  destruct (insert_drifts_elements _ _ Hdrifts) as (Hname2 & Hout2 & Hcavs2).
  destruct (place_in_quads_elements _ _ Hquads) as (Hname3 & Hout3 & Hcavs3).
  destruct (place_in_drifts_elements L _ _ Hplaced Htiled3) as (Hname4 & Hout4 & Hcavs4).
  destruct (assemble_frame _ _ Hassemble) as (Hcavs5 & Hnodes5 & Hseqs5 & Hrf5).
  destruct (classify_loop_cavities _ _ _ _ Hclassify) as [_ Hcavs1].
  rewrite enumerate_snd in Hcavs1.
  assert (seq_paramsDict (accSeq f4) = seq_paramsDict (accSeq f0)) as Hparams.
  { destruct Hsame4 as (-> & _), Hgeo3 as (_ & -> & _), Hsame2 as (-> & _), Hsame1 as (-> & _).
    reflexivity. }
  assert (linacAccLattice f4 = linacAccLattice f) as Hlat.
  { rewrite (same_sequence_lattice f3 f4 Hsame4), (same_sequence_lattice f2 f3 (proj2 Hgeo3)),
      (same_sequence_lattice f1 f2 Hsame2), (same_sequence_lattice f0 f1 Hsame1). reflexivity. }
  exists (accSeq f4), length.
  split; [unfold Sequence_getLength; rewrite Hparams; reflexivity|].
  split; [reflexivity|].
  split; [rewrite Hparams; reflexivity|].
  split; [|rewrite Hseqs5, Hnodes5, Hrf5, Hlat, Hcavs5, Hcavs4, Hcavs3, Hcavs2, Hcavs1;
           repeat split; reflexivity].
  assert (seq_name (accSeq f0) = ps_name seq) as Hname0 by reflexivity.
  assert (elements (seq_nodes f1) = seq_nodes f1) as Hall1
    by exact (classify_loop_only_elements _ _ _ _ Hclassify eq_refl).
  destruct (insert_drifts_within _ _ Hdrifts) as (Hne1 & L1 & HL1 & Hwithin1).
  assert (outline <$> elements (seq_nodes f4) = outline <$> seq_nodes f1) as Hout.
  { rewrite Hout4, Hout3, Hout2, Hall1. reflexivity. }
  split; [congruence|]. split; [|split; [|split; [|split]]].
  - rewrite Hlength. unfold Sequence_getLength. rewrite Hparams. reflexivity.
  - change (linacNodes (accSeq f4)) with (seq_nodes f4).
    rewrite Hout4, Hout3, Hout2, Hout1. reflexivity.
  - exists L1. split.
    + unfold Sequence_getLength. rewrite Hparams.
      destruct Hsame1 as (<- & _). exact HL1.
    + change (linacNodes (accSeq f4)) with (seq_nodes f4).
      exact (outline_within _ _ _ _ Hout Hwithin1).
  - rewrite <- (enumerate_snd (ps_nodes seq)). exact (classify_loop_accepts _ _ _ _ Hclassify).
  - intros Hnil.
    assert (outline <$> elements (seq_nodes f1) = omap parsed_element (ps_nodes seq)) as Hout1'
      by exact Hout1.
    rewrite Hnil, Hall1 in Hout1'. apply Hne1.
    destruct (seq_nodes f1); [reflexivity | discriminate Hout1'].
Qed.

Lemma build_sequences_frame (seqs : list ParserSeq) :
  forall (seqPosition : Q) (f f' : Factory),
    build_sequences seqPosition seqs f = (Ok tt, f') ->
    exists new,
      sequences (linacAccLattice f') = sequences (linacAccLattice f) ++ new /\
      lat_nodes (linacAccLattice f')
      = lat_nodes (linacAccLattice f) ++ concat (linacNodes <$> new) /\
      rfCavities (linacAccLattice f') = rfCavities (linacAccLattice f) /\
      cav_name <$> accRF_Cavs f'
      = (cav_name <$> accRF_Cavs f) ++ concat (cavity_names <$> seqs) /\
      Forall2 built_from new seqs /\ positions_from seqPosition new.
Proof.
  induction seqs as [|seq rest IH]; intros seqPosition f f' Hrun; cbn [build_sequences] in Hrun.
  - apply ret_Ok_inv in Hrun as [_ ->]. exists []. rewrite !app_nil_r.
    repeat split; constructor.
  - bind_inv Hrun as next f1 Hseq.
    destruct (build_sequence_frame _ _ _ _ _ Hseq)
      as (s & L & HL & -> & Hpos & Hbuilt & Hseqs1 & Hnodes1 & Hrf1 & Hcavs1).
    destruct (IH _ _ _ Hrun) as (new & Hseqs & Hnodes & Hrf & Hcavs & Hall & Hposs).
    exists (s :: new).
    rewrite Hseqs, Hseqs1, Hnodes, Hnodes1, Hrf, Hrf1, Hcavs, Hcavs1, <- !app_assoc.
    split; [reflexivity|]. split; [reflexivity|]. split; [reflexivity|].
    split; [reflexivity|].
    split; [constructor; assumption|].
    cbn [positions_from]. split; [exact Hpos|]. exists L. split; assumption.
Qed.

(** *** The names of the sequences *)

Lemma index_name_lookup (name : string) (l : list string) (i : Z) :
  index_name name l = Ok i -> (0 <= i)%Z /\ l !! Z.to_nat i = Some name.
Proof.
  revert i. induction l as [|x l IH]; intros i; cbn [index_name]; [discriminate|].
  destruct (String.eqb x name) eqn:Hx.
  - intros [= <-]. apply String.eqb_eq in Hx. subst x. split; [lia | reflexivity].
  - destruct (index_name name l) as [j|e]; [|discriminate]. intros [= <-].
    destruct (IH j eq_refl) as [Hj Hl]. split; [lia|].
    replace (Z.to_nat (j + 1)) with (S (Z.to_nat j)) by lia. exact Hl.
Qed.

Lemma index_name_missing (name : string) (l : list string) :
  name ∉ l -> index_name name l = Raise ValueError.
Proof.
  induction l as [|x l IH]; intros Hnot; cbn [index_name]; [reflexivity|].
  destruct (String.eqb x name) eqn:Hx.
  - apply String.eqb_eq in Hx. subst x. exfalso. apply Hnot. left.
  - rewrite IH; [reflexivity|]. intros Hin. apply Hnot. right. exact Hin.
Qed.

Lemma take_drop_lookup {A} (l : list A) (k n : nat) (x : A) :
  l !! k = Some x -> take (S n) (drop k l) = x :: take n (drop (S k) l).
Proof. intros Hk. rewrite (drop_S l x k Hk). reflexivity. Qed.

(** After the first name, a name that passes the check stands right
    after the one before it. *)
Lemma check_names_run (l : list string) (names : list string) :
  forall (ind_old count : Z),
    (0 < count)%Z -> (0 <= ind_old)%Z ->
    check_names l names ind_old count = Ok tt ->
    take (List.length names) (drop (Z.to_nat (ind_old + 1)) l) = names.
Proof.
  induction names as [|name rest IH]; intros ind_old count Hcount Hold; cbn [check_names].
  - intros _. reflexivity.
  - destruct (index_name name l) as [ind|e] eqn:Hind; [|discriminate].
    destruct (index_name_lookup _ _ _ Hind) as [Hpos Hl].
    destruct (Z.ltb_spec ind 0) as [Hneg|_]; [lia|].
    destruct (Z.ltb_spec 0 count) as [_|Hle]; [|lia].
    destruct (Z.eqb_spec ind (ind_old + 1)) as [->|Hne]; [|discriminate].
    cbn [orb andb negb]. intros Hrest.
    cbn [List.length]. rewrite (take_drop_lookup _ _ _ _ Hl). f_equal.
    replace (S (Z.to_nat (ind_old + 1))) with (Z.to_nat (ind_old + 1 + 1)) by lia.
    apply (IH (ind_old + 1)%Z (count + 1)%Z); [lia | lia | exact Hrest].
Qed.

Lemma check_names_first (l : list string) (name0 : string) (rest : list string) (ind_start : Z) :
  check_names l (name0 :: rest) (-1) 0 = Ok tt ->
  index_name name0 l = Ok ind_start ->
  take (List.length (name0 :: rest)) (drop (Z.to_nat ind_start) l) = name0 :: rest.
Proof.
  cbn [check_names]. intros Hcheck Hind. rewrite Hind in Hcheck.
  destruct (index_name_lookup _ _ _ Hind) as [Hpos Hl].
  destruct (Z.ltb_spec ind_start 0) as [Hneg|_]; [lia|].
  cbn [orb andb Z.ltb Z.compare] in Hcheck.
  cbn [List.length]. rewrite (take_drop_lookup _ _ _ _ Hl). f_equal.
  replace (S (Z.to_nat ind_start)) with (Z.to_nat (ind_start + 1)) by lia.
  apply (check_names_run l rest ind_start 1); [lia | lia | exact Hcheck].
Qed.

Lemma addRF_Cavities_nodes (cavs : list RF_Cavity) (lat : LinacAccLattice) :
  lat_nodes (fold_left (fun lat cav => addRF_Cavity cav lat) cavs lat) = lat_nodes lat.
Proof.
  revert lat. induction cavs as [|cav cavs IH]; intros lat; [reflexivity|].
  cbn [fold_left]. rewrite IH. reflexivity.
Qed.

Lemma addRF_Cavities_cavities (cavs : list RF_Cavity) (lat : LinacAccLattice) :
  rfCavities (fold_left (fun lat cav => addRF_Cavity cav lat) cavs lat) = rfCavities lat ++ cavs.
Proof.
  revert lat. induction cavs as [|cav cavs IH]; intros lat; cbn [fold_left].
  - symmetry. apply app_nil_r.
  - rewrite IH. cbn [addRF_Cavity rfCavities]. rewrite <- app_assoc. reflexivity.
Qed.

(** The lattice the factory returns, sequence by sequence. *)
Lemma getLinacAccLattice_frame (ltree : LinacStructTree) (names : list string)
    (lat : LinacAccLattice) :
  getLinacAccLattice ltree names = Ok lat ->
  ps_name <$> selected ltree names = names /\
  Forall2 built_from (sequences lat) (selected ltree names) /\
  positions_from 0 (sequences lat) /\
  lat_nodes lat = concat (linacNodes <$> sequences lat) /\
  cav_name <$> rfCavities lat = concat (cavity_names <$> selected ltree names).
Proof.
  intros Hrun. unfold getLinacAccLattice in Hrun. unfold selected.
  destruct names as [|name0 names]; [discriminate|].
  destruct (check_names _ _ _ _) as [[]|e] eqn:Hcheck; [|discriminate].
  destruct (index_name name0 _) as [ind_start|e] eqn:Hind; [|discriminate].
  destruct (build_sequences _ _ _) as [[[]|e] f] eqn:Hbuild; [|discriminate].
  injection Hrun as <-.
  rewrite addRF_Cavities_sequences, addRF_Cavities_nodes, addRF_Cavities_cavities.
  destruct (build_sequences_frame _ _ _ _ Hbuild)
    as (new & Hseqs & Hnodes & Hrf & Hcavs & Hall & Hpos).
  cbn [linacAccLattice sequences lat_nodes rfCavities accRF_Cavs LinacAccLattice_init app
       fmap list_fmap] in Hseqs, Hnodes, Hrf, Hcavs.
  rewrite Hseqs, Hnodes, Hrf. cbn [app]. rewrite Hcavs. split; [|repeat split; assumption].
  rewrite fmap_take, fmap_drop. exact (check_names_first _ _ _ _ Hcheck Hind).
Qed.

(** X4. The lattice the factory returns has one sequence for each
    requested name, in the order of the names and under these names;
    the names are a run of neighbours among the sequence names of the
    parsed tree. *)
Theorem lattice_has_the_named_sequences (ltree : LinacStructTree) (names : list string)
    (lat : LinacAccLattice) :
  getLinacAccLattice ltree names = Ok lat ->
  seq_name <$> sequences lat = names /\
  exists before after, ps_name <$> lt_seqs ltree = before ++ names ++ after.
Proof.
  intros Hrun.
  destruct (getLinacAccLattice_frame _ _ _ Hrun) as (Hnames & Hall & _ & _ & _). split.
  - rewrite <- Hnames. clear Hnames Hrun. induction Hall as [|s p ss ps Hsp _ IH]; [reflexivity|].
    rewrite !fmap_cons, IH. f_equal. exact (proj1 Hsp).
  - unfold selected in Hnames. destruct names as [|name0 names].
    { exists [], (ps_name <$> lt_seqs ltree). reflexivity. }
    destruct (index_name name0 _) as [ind_start|e].
    2: { discriminate Hnames. }
    rewrite fmap_take, fmap_drop in Hnames.
    exists (take (Z.to_nat ind_start) (ps_name <$> lt_seqs ltree)),
           (drop (List.length (name0 :: names))
              (drop (Z.to_nat ind_start) (ps_name <$> lt_seqs ltree))).
    rewrite <- Hnames at 1. rewrite take_drop, take_drop. reflexivity.
Qed.

(** The sequences DTL and CCL of the three of the linac. *)
Lemma lattice_has_the_named_sequences_witness :
  seq_name <$> sequences linac_lattice = ["DTL"; "CCL"]%string /\
  exists before after,
    ps_name <$> lt_seqs linac_tree = before ++ ["DTL"; "CCL"]%string ++ after.
Proof.
  apply (lattice_has_the_named_sequences linac_tree ["DTL"; "CCL"]%string linac_lattice).
  vm_compute. reflexivity.
Defined.

(** X5. In the lattice the factory returns every sequence has its
    parameter "position" where the sequence before it ends: the first
    at 0, each other one at the position plus the length of the one
    before. *)
Theorem sequences_follow_each_other (ltree : LinacStructTree) (names : list string)
    (lat : LinacAccLattice) :
  getLinacAccLattice ltree names = Ok lat -> positions_from 0 (sequences lat).
Proof.
  intros Hrun. destruct (getLinacAccLattice_frame _ _ _ Hrun) as (_ & _ & Hpos & _ & _).
  exact Hpos.
Qed.

Lemma sequences_follow_each_other_witness : positions_from 0 (sequences linac_lattice).
Proof.
  apply (sequences_follow_each_other linac_tree ["DTL"; "CCL"]%string linac_lattice).
  vm_compute. reflexivity.
Defined.

(** X6. The nodes of the lattice the factory returns are the nodes of
    its sequences, sequence after sequence. *)
Theorem lattice_nodes_are_the_sequences (ltree : LinacStructTree) (names : list string)
    (lat : LinacAccLattice) :
  getLinacAccLattice ltree names = Ok lat ->
  lat_nodes lat = concat (linacNodes <$> sequences lat).
Proof.
  intros Hrun. destruct (getLinacAccLattice_frame _ _ _ Hrun) as (_ & _ & _ & Hnodes & _).
  exact Hnodes.
Qed.

Lemma lattice_nodes_are_the_sequences_witness :
  lat_nodes linac_lattice = concat (linacNodes <$> sequences linac_lattice).
Proof.
  apply (lattice_nodes_are_the_sequences linac_tree ["DTL"; "CCL"]%string linac_lattice).
  vm_compute. reflexivity.
Defined.

(** X7. The quads and RF gaps of each sequence of the returned lattice
    are the parsed "QUAD" and "RFGAP" elements of the sequence it is
    made from, in their order, each with the name, the position and the
    length ("length" of a quad, "gapLength" of a gap) of its element:
    the drifts and the thin elements are put between them. *)
Theorem quads_and_gaps_are_the_parsed_ones (ltree : LinacStructTree) (names : list string)
    (lat : LinacAccLattice) :
  getLinacAccLattice ltree names = Ok lat ->
  Forall2 (fun s p => outline <$> elements (linacNodes s) = omap parsed_element (ps_nodes p))
          (sequences lat) (selected ltree names).
Proof.
  intros Hrun. destruct (getLinacAccLattice_frame _ _ _ Hrun) as (_ & Hall & _ & _ & _).
  eapply Forall2_impl; [exact Hall|]. intros s p (_ & _ & Hout & _). exact Hout.
Qed.

Lemma quads_and_gaps_are_the_parsed_ones_witness :
  Forall2 (fun s p => outline <$> elements (linacNodes s) = omap parsed_element (ps_nodes p))
          (sequences linac_lattice) (selected linac_tree ["DTL"; "CCL"]%string).
Proof.
  apply (quads_and_gaps_are_the_parsed_ones linac_tree ["DTL"; "CCL"]%string linac_lattice).
  vm_compute. reflexivity.
Defined.

(** X10. The cavities of the returned lattice are, sequence after
    sequence, the cavities the RF gaps of the parsed sequence name, each
    where it is named first in its sequence: a cavity named in two
    sequences is in the lattice twice. *)
Theorem lattice_cavities_by_sequence (ltree : LinacStructTree) (names : list string)
    (lat : LinacAccLattice) :
  getLinacAccLattice ltree names = Ok lat ->
  cav_name <$> rfCavities lat = concat (cavity_names <$> selected ltree names).
Proof.
  intros Hrun. destruct (getLinacAccLattice_frame _ _ _ Hrun) as (_ & _ & _ & _ & Hcavs).
  exact Hcavs.
Qed.

(** The cavity C1 is named in DTL and in CCL. *)
Lemma lattice_cavities_by_sequence_witness :
  cav_name <$> rfCavities linac_lattice = ["C1"; "C1"]%string.
Proof.
  apply (lattice_cavities_by_sequence linac_tree ["DTL"; "CCL"]%string linac_lattice).
  vm_compute. reflexivity.
Defined.

(** X11. An RF gap that names a cavity not yet named in its sequence
    makes the cavity: it goes to the end of the cavity list under that
    name, with the gap as its only gap, the frequency of the parsed
    sequence ("rfFrequency"), the design phase and the phase of the
    gap's "firstPhase" turned from degrees to radians, and 1 as "designAmp"
    and "Amp" (the parameter "amp" of the constructor stays 0).  The gap
    joins the sequence, refers to this cavity and is its first gap. *)
Theorem new_cavity_name_makes_the_cavity (seq : ParserSeq) (node : ParserNode)
    (f f' : Factory) (name : string) :
  make_rf_gap seq node f = (Ok tt, f') ->
  getParam (pn_paramsDict node) "parentCvaity" = Ok (PyStr name) ->
  name ∉ rf_cav_names f ->
  exists gap cav firstPhase rfFrequency,
    pn_float node "firstPhase" = Ok firstPhase /\
    getParam (ps_paramsDict seq) "rfFrequency" = Ok rfFrequency /\
    seq_nodes f' = seq_nodes f ++ [gap] /\
    accRF_Cavs f' = accRF_Cavs f ++ [cav] /\
    rf_cav_names f' = rf_cav_names f ++ [name] /\
    cav_name cav = name /\ rfGaps cav = [oid gap] /\
    cav_paramsDict cav !! "frequency" = Some rfFrequency /\
    cav_paramsDict cav !! "designPhase" = Some (PyFloat ((math_pi / 180) * firstPhase)) /\
    cav_paramsDict cav !! "phase" = Some (PyFloat ((math_pi / 180) * firstPhase)) /\
    cav_paramsDict cav !! "designAmp" = Some (PyFloat 1) /\
    cav_paramsDict cav !! "Amp" = Some (PyFloat 1) /\
    cav_paramsDict cav !! "amp" = Some (PyFloat 0) /\
    cav_paramsDict cav !! "isDesignSetUp" = Some (PyBool false) /\
    acc_paramsDict gap !! "rfCavity" = Some (PyCavity (List.length (accRF_Cavs f))) /\
    isFirstGap gap = true.
Proof.
  intros Hrun Hname Hnew.
  destruct (make_rf_gap_run _ _ _ _ Hrun) as (name' & gap & Hname' & Hnodes & _ & Hcase).
  rewrite Hname in Hname'. injection Hname' as <-.
  destruct Hcase as [(Hseen & _) | (_ & Hnames & firstPhase & rfFrequency & Hfirst & Hfreq
                                    & Hcavs & Hcav & _ & Hflag)]; [contradiction|].
  eexists gap, _, firstPhase, rfFrequency.
  split; [exact Hfirst|]. split; [exact Hfreq|]. split; [exact Hnodes|].
  split; [exact Hcavs|]. split; [exact Hnames|].
  cbn [cav_name rfGaps cav_paramsDict RF_Cavity_init]. unfold setParam.
  repeat (split; [first [reflexivity
                        | rewrite ?lookup_insert_eq; reflexivity
                        | rewrite !lookup_insert_ne by discriminate; apply lookup_insert_eq]|]).
  split; [exact Hcav | exact Hflag].
Qed.

Lemma new_cavity_name_makes_the_cavity_witness :
  let seq := mkParserSeq "SEQ" (params [("rfFrequency", PyFloat 400000000)]) [] in
  let node := parsed_gap "G1" "C1" 5 0 in
  let f := mkFactory 0 [] [] [] [] (Sequence_init "SEQ") (LinacAccLattice_init "linac") in
  exists gap cav firstPhase rfFrequency,
    pn_float node "firstPhase" = Ok firstPhase /\
    getParam (ps_paramsDict seq) "rfFrequency" = Ok rfFrequency /\
    seq_nodes (snd (make_rf_gap seq node f)) = seq_nodes f ++ [gap] /\
    accRF_Cavs (snd (make_rf_gap seq node f)) = accRF_Cavs f ++ [cav] /\
    rf_cav_names (snd (make_rf_gap seq node f)) = rf_cav_names f ++ ["C1"%string] /\
    cav_name cav = "C1"%string /\ rfGaps cav = [oid gap] /\
    cav_paramsDict cav !! "frequency" = Some rfFrequency /\
    cav_paramsDict cav !! "designPhase" = Some (PyFloat ((math_pi / 180) * firstPhase)) /\
    cav_paramsDict cav !! "phase" = Some (PyFloat ((math_pi / 180) * firstPhase)) /\
    cav_paramsDict cav !! "designAmp" = Some (PyFloat 1) /\
    cav_paramsDict cav !! "Amp" = Some (PyFloat 1) /\
    cav_paramsDict cav !! "amp" = Some (PyFloat 0) /\
    cav_paramsDict cav !! "isDesignSetUp" = Some (PyBool false) /\
    acc_paramsDict gap !! "rfCavity" = Some (PyCavity (List.length (accRF_Cavs f))) /\
    isFirstGap gap = true.
Proof.
  intros seq node f.
  apply (new_cavity_name_makes_the_cavity seq node f (snd (make_rf_gap seq node f)) "C1").
  - vm_compute. reflexivity.
  - vm_compute. reflexivity.
  - vm_compute. apply not_elem_of_nil.
Defined.

(** X12. An RF gap that names a cavity already named in its sequence
    makes no cavity and joins the cavity at the end of the cavity list,
    whatever the name of that cavity is: its id is added to the gaps of
    that cavity, it refers to that cavity, and it is flagged as the
    first gap exactly when that cavity had no gap. *)
Theorem known_cavity_name_joins_the_last_cavity (seq : ParserSeq) (node : ParserNode)
    (f f' : Factory) (name : string) :
  make_rf_gap seq node f = (Ok tt, f') ->
  getParam (pn_paramsDict node) "parentCvaity" = Ok (PyStr name) ->
  name ∈ rf_cav_names f ->
  exists gap prefix cav,
    seq_nodes f' = seq_nodes f ++ [gap] /\
    rf_cav_names f' = rf_cav_names f /\
    accRF_Cavs f = prefix ++ [cav] /\
    accRF_Cavs f'
    = prefix ++ [mkRF_Cavity (cav_name cav) (cav_paramsDict cav) (rfGaps cav ++ [oid gap])] /\
    acc_paramsDict gap !! "rfCavity" = Some (PyCavity (List.length prefix)) /\
    isFirstGap gap = bool_decide (rfGaps cav = []).
Proof.
  intros Hrun Hname Hseen.
  destruct (make_rf_gap_run _ _ _ _ Hrun) as (name' & gap & Hname' & Hnodes & _ & Hcase).
  rewrite Hname in Hname'. injection Hname' as <-.
  destruct Hcase as [(_ & Hnames & prefix & cav & Hcavs & Hcavs' & Hcav & Hflag)
                    | (Hnew & _)]; [|contradiction].
  exists gap, prefix, cav. repeat split; assumption.
Qed.

Lemma known_cavity_name_joins_the_last_cavity_witness :
  let seq := mkParserSeq "SEQ" (params [("rfFrequency", PyFloat 400000000)]) [] in
  let f0 := mkFactory 0 [] [] [] [] (Sequence_init "SEQ") (LinacAccLattice_init "linac") in
  let f1 := snd (make_rf_gap seq (parsed_gap "G1" "A" 1 0) f0) in
  let f2 := snd (make_rf_gap seq (parsed_gap "G2" "B" 2 0) f1) in
  let f3 := snd (make_rf_gap seq (parsed_gap "G3" "A" 3 0) f2) in
  exists gap prefix cav,
    seq_nodes f3 = seq_nodes f2 ++ [gap] /\
    rf_cav_names f3 = rf_cav_names f2 /\
    accRF_Cavs f2 = prefix ++ [cav] /\
    accRF_Cavs f3
    = prefix ++ [mkRF_Cavity (cav_name cav) (cav_paramsDict cav) (rfGaps cav ++ [oid gap])] /\
    acc_paramsDict gap !! "rfCavity" = Some (PyCavity (List.length prefix)) /\
    isFirstGap gap = bool_decide (rfGaps cav = []).
Proof.
  intros seq f0 f1 f2 f3.
  apply (known_cavity_name_joins_the_last_cavity seq (parsed_gap "G3" "A" 3 0) f2 f3 "A").
  - vm_compute. reflexivity.
  - vm_compute. reflexivity.
  - vm_compute. left.
Defined.

(** X13. The names the factory is given are checked before anything is
    built: an empty list stops the program ("you have to specify the
    names array!"); a first name that no parsed sequence has raises
    ValueError, from [list.index], not the message of the factory; and
    a second name that does not stand right after the first among the
    names of the parsed sequences stops the program ("sequence names
    array is wrong!"). *)
Theorem getLinacAccLattice_checks_the_names :
  (forall ltree : LinacStructTree,
     getLinacAccLattice ltree []
     = Raise (OrbitFinalize "The LinacLatticeFactory method getLinacAccLattice(names): you have to specify the names array!")) /\
  (forall (ltree : LinacStructTree) (name0 : string) (rest : list string),
     name0 ∉ (ps_name <$> lt_seqs ltree) ->
     getLinacAccLattice ltree (name0 :: rest) = Raise ValueError) /\
  (forall (ltree : LinacStructTree) (name0 name1 : string) (rest : list string) (i0 i1 : Z),
     index_name name0 (ps_name <$> lt_seqs ltree) = Ok i0 ->
     index_name name1 (ps_name <$> lt_seqs ltree) = Ok i1 ->
     i1 <> (i0 + 1)%Z ->
     getLinacAccLattice ltree (name0 :: name1 :: rest)
     = Raise (OrbitFinalize "The LinacLatticeFactory method getLinacAccLattice(names): sequence names array is wrong!")).
Proof.
  split; [reflexivity|]. split.
  - intros ltree name0 rest Hnot. unfold getLinacAccLattice. cbn [check_names].
    rewrite (index_name_missing _ _ Hnot). reflexivity.
  - intros ltree name0 name1 rest i0 i1 H0 H1 Hne. unfold getLinacAccLattice.
    cbn [check_names]. rewrite H0.
    destruct (index_name_lookup _ _ _ H0) as [Hpos0 _].
    destruct (index_name_lookup _ _ _ H1) as [Hpos1 _].
    destruct (Z.ltb_spec i0 0) as [Hneg|_]; [lia|].
    cbn [orb andb Z.ltb Z.compare]. rewrite H1.
    destruct (Z.ltb_spec i1 0) as [Hneg|_]; [lia|].
    destruct (Z.eqb_spec i1 (i0 + 1)) as [Heq|_]; [contradiction|].
    reflexivity.
Qed.

(** The names of the linac in the wrong order, and a name it does not have. *)
Lemma getLinacAccLattice_checks_the_names_witness :
  getLinacAccLattice linac_tree ["SCL"; "DTL"]%string = Raise ValueError /\
  getLinacAccLattice linac_tree ["CCL"; "DTL"]%string
  = Raise (OrbitFinalize "The LinacLatticeFactory method getLinacAccLattice(names): sequence names array is wrong!").
Proof.
  split.
  - apply (proj1 (proj2 getLinacAccLattice_checks_the_names)).
    vm_compute. intros Hin. repeat (apply elem_of_cons in Hin as [Hin|Hin]; [discriminate Hin|]).
    apply elem_of_nil in Hin. exact Hin.
  - apply (proj2 (proj2 getLinacAccLattice_checks_the_names)
             linac_tree "CCL"%string "DTL"%string [] 2%Z 1%Z);
      [vm_compute; reflexivity | vm_compute; reflexivity | lia].
Defined.

(** ** More on the cavities and the tracking *)

(** The first gap of the cavity of 400 MHz, reached at the time 7. *)
Lemma design_pass_first_gap_witness :
  exists w',
    @BaseRF_Gap_trackDesignBunch still_kernel (kick_gap true) (mkParamsDict 0 None) kick_world
    = (Ok tt, w') /\
    cavity_param w' 0 "designArrivalTime" = Some (PyFloat 7) /\
    design_flag w' 0 = Some (PyBool false).
Proof.
  eexists. split.
  - apply (@BaseRF_Gap_trackDesignBunch_first still_kernel (kick_gap true) (mkParamsDict 0 None)
             kick_world (0 / inject_Z 3) 0.002 0 1 (PyFloat 400000000) 0 kick_cavity
             scenario_bunch); vm_compute; reflexivity.
  - split; vm_compute; reflexivity.
Defined.

(** A later gap of this cavity, reached at the time 7. *)
Lemma design_pass_later_gap_witness :
  exists w',
    @BaseRF_Gap_trackDesignBunch still_kernel (kick_gap false) (mkParamsDict 0 None) kick_world
    = (Ok tt, w') /\
    lattice w' = lattice kick_world.
Proof.
  eexists. split.
  - apply (@BaseRF_Gap_trackDesignBunch_later still_kernel (kick_gap false) (mkParamsDict 0 None)
             kick_world (0 / inject_Z 3) 0.002 0 1 400000000 0 0%nat kick_cavity scenario_bunch);
      vm_compute; reflexivity.
  - reflexivity.
Defined.

Lemma setter_then_getter (setter getter key : string) (c : nat) (v : pyval) (w : World)
    (cav : RF_Cavity) :
  lookup_method setter RF_Cavity_class = Some (Setter key) ->
  lookup_method getter RF_Cavity_class = Some (Getter key) ->
  rfCavities (lattice w) !! c = Some cav ->
  exists w',
    call1 (PyCavity c) setter v w = (Ok tt, w') /\
    call0 (PyCavity c) getter w' = (Ok v, w') /\
    bunches w' = bunches w /\
    forall c' key', (c' <> c \/ key' <> key) -> cavity_param w' c' key' = cavity_param w c' key'.
Proof.
  intros Hset Hget Hc. pose proof (lookup_lt_Some _ _ _ Hc) as Hlt.
  eexists. split; [exact (call1_setter c setter key v w cav Hset Hc)|].
  split; [|split; [reflexivity|]].
  - apply (call0_getter c getter key _ (cav_setParam key v cav) v Hget).
    + cbn [lattice rfCavities set_rfCavities]. apply list_lookup_insert_eq. exact Hlt.
    + apply lookup_insert_eq.
  - intros c' key' Hother. unfold cavity_param. cbn [lattice rfCavities set_rfCavities].
    destruct (decide (c' = c)) as [->|Hc'].
    + rewrite list_lookup_insert_eq by exact Hlt. rewrite Hc. cbn [mbind option_bind].
      destruct Hother as [Hne|Hkey]; [contradiction|].
      unfold cav_setParam, setParam. cbn [cav_paramsDict].
      apply lookup_insert_ne. congruence.
    + rewrite list_lookup_insert_ne by congruence. reflexivity.
Qed.

(** X16. Each setter of [RF_Cavity] and its getter go through the same
    parameter: after the setter is called with a value on a cavity, the
    getter returns this value; no bunch, no other cavity and no other
    parameter of the cavity is changed.  For [setAmp] and [getAmp] the
    parameter is "Amp", not the "amp" the constructor adds. *)
Theorem RF_Cavity_setter_then_getter (setter getter : string) (c : nat) (v : pyval)
    (w : World) (cav : RF_Cavity) :
  (setter, getter) ∈ RF_Cavity_accessors ->
  rfCavities (lattice w) !! c = Some cav ->
  exists w' key,
    call1 (PyCavity c) setter v w = (Ok tt, w') /\
    call0 (PyCavity c) getter w' = (Ok v, w') /\
    cavity_param w' c key = Some v /\
    bunches w' = bunches w /\
    (forall c' key', (c' <> c \/ key' <> key) ->
                     cavity_param w' c' key' = cavity_param w c' key') /\
    (setter = "setAmp"%string -> key = "Amp"%string).
Proof.
  intros Hin Hc. unfold RF_Cavity_accessors in Hin.
  assert (forall key,
            lookup_method setter RF_Cavity_class = Some (Setter key) ->
            lookup_method getter RF_Cavity_class = Some (Getter key) ->
            (setter = "setAmp"%string -> key = "Amp"%string) ->
            exists w' key,
              call1 (PyCavity c) setter v w = (Ok tt, w') /\
              call0 (PyCavity c) getter w' = (Ok v, w') /\
              cavity_param w' c key = Some v /\
              bunches w' = bunches w /\
              (forall c' key', (c' <> c \/ key' <> key) ->
                               cavity_param w' c' key' = cavity_param w c' key') /\
              (setter = "setAmp"%string -> key = "Amp"%string)) as Hcase.
  { intros key Hset Hget Hamp.
    destruct (setter_then_getter setter getter key c v w cav Hset Hget Hc)
      as (w' & Hrun1 & Hrun0 & Hb & Hframe).
    exists w', key. split; [exact Hrun1|]. split; [exact Hrun0|]. split; [|repeat split; assumption].
    rewrite (call1_setter c setter key v w cav Hset Hc) in Hrun1. injection Hrun1 as <-.
    unfold cavity_param. cbn [lattice rfCavities set_rfCavities].
    rewrite list_lookup_insert_eq by exact (lookup_lt_Some _ _ _ Hc).
    cbn [mbind option_bind]. apply lookup_insert_eq. }
  repeat (apply elem_of_cons in Hin as [Hin|Hin];
          [injection Hin as -> ->;
           eapply Hcase; [reflexivity | reflexivity | first [reflexivity | discriminate]]|]).
  apply elem_of_nil in Hin. destruct Hin.
Qed.

(** The amplitude of the first cavity of the scenario: "Amp" is set and
    read, "amp" stays. *)
Lemma RF_Cavity_setter_then_getter_witness :
  exists w' key,
    call1 (PyCavity 0) "setAmp" (PyFloat 2) scenario_world = (Ok tt, w') /\
    call0 (PyCavity 0) "getAmp" w' = (Ok (PyFloat 2), w') /\
    cavity_param w' 0 key = Some (PyFloat 2) /\
    bunches w' = bunches scenario_world /\
    (forall c' key', (c' <> 0%nat \/ key' <> key) ->
                     cavity_param w' c' key' = cavity_param scenario_world c' key') /\
    ("setAmp"%string = "setAmp"%string -> key = "Amp"%string).
Proof.
  eapply (RF_Cavity_setter_then_getter "setAmp" "getAmp" 0 (PyFloat 2) scenario_world).
  - unfold RF_Cavity_accessors. do 6 right. left.
  - vm_compute. reflexivity.
Defined.

(** X17. A cavity added to the lattice is found under its name unless
    an earlier cavity has this name, and the cavities found under other
    names stay the same; so it is with the sequences.  (The check that
    the argument is a cavity, or a sequence, is the typing here.) *)
Theorem added_is_found_unless_shadowed (self : LinacAccLattice) (name : string) :
  (forall cav : RF_Cavity,
     getRF_Cavity (addRF_Cavity cav self) name
     = match getRF_Cavity self name with
       | Some c => Some c
       | None => if bool_decide (name = cav_name cav) then Some cav else None
       end) /\
  (forall seq : Sequence,
     getSequence (addSequence seq self) name
     = match getSequence self name with
       | Some s => Some s
       | None => if bool_decide (name = seq_name seq) then Some seq else None
       end).
Proof.
  split.
  - intros cav. unfold getRF_Cavity, addRF_Cavity. cbn [rfCavities].
    induction (rfCavities self) as [|c l IH]; cbn [app getRF_Cavity_loop]; [reflexivity|].
    destruct (bool_decide (name = cav_name c)); [reflexivity | exact IH].
  - intros seq. unfold getSequence, addSequence. cbn [sequences].
    induction (sequences self) as [|s l IH]; cbn [app getSequence_loop]; [reflexivity|].
    destruct (bool_decide (name = seq_name s)); [reflexivity | exact IH].
Qed.

Section AtRest.

Context `{K : TransportKernel}.

Lemma py_div_by_zero (x y : Q) : y == 0 -> py_div x y = Raise ZeroDivisionError.
Proof.
  intros Hy. unfold py_div.
  destruct (Qeq_bool y 0) eqn:Hb; [reflexivity|].
  apply Qeq_bool_neq in Hb. contradiction.
Qed.

(** X18. For a bunch whose synchronous particle has the momentum 0 a
    quad and a dipole corrector cannot be tracked: the division by the
    momentum raises ZeroDivisionError at every part, and the bunch is
    left as it is. *)
Theorem tracking_at_rest_divides_by_zero (paramsDict : ParamsDict) (w : World) (b : Bunch) :
  bunches w !! pd_bunch paramsDict = Some b ->
  momentum (syncParticle b) == 0 ->
  (forall (self : AccNode) (dBdr : Q),
     getFloat (acc_paramsDict self) "dB/dr" = Ok dBdr ->
     Quad_track self paramsDict w = (Raise ZeroDivisionError, w)) /\
  (forall (horizontal : bool) (self : AccNode) (effLength field : Q),
     getFloat (acc_paramsDict self) "effLength" = Ok effLength ->
     acc_nParts self <> 0%Z ->
     getParam (acc_paramsDict self) "B" = Ok (PyFloat field) ->
     DCorrector_track horizontal self paramsDict w = (Raise ZeroDivisionError, w)).
Proof.
  intros Hb Hp. split.
  - intros self dBdr HdBdr. unfold Quad_track.
    rewrite bind_unfold, (read_bunch_run _ _ _ Hb). cbv beta iota.
    rewrite bind_unfold, lift_unfold, HdBdr. cbv beta iota.
    rewrite bind_unfold, lift_unfold, py_div_by_zero; [reflexivity|].
    rewrite Hp. ring.
  - intros horizontal self effLength field Heff Hparts Hfield. unfold DCorrector_track.
    rewrite bind_unfold, lift_unfold, Heff. cbv beta iota.
    assert (py_div effLength (inject_Z (acc_nParts self))
            = Ok (effLength / inject_Z (acc_nParts self))) as ->.
    { unfold py_div. destruct (Qeq_bool (inject_Z (acc_nParts self)) 0) eqn:Hzero; [|reflexivity].
      exfalso. apply Qeq_bool_iff in Hzero. apply Hparts.
      unfold Qeq in Hzero. cbn in Hzero. lia. }
    rewrite bind_unfold, lift_unfold. cbv beta iota.
    rewrite bind_unfold, lift_unfold, Hfield. cbv beta iota.
    rewrite bind_unfold, (read_bunch_run _ _ _ Hb). cbv beta iota.
    rewrite bind_unfold, lift_unfold. cbn [as_float]. cbv beta iota.
    rewrite bind_unfold, lift_unfold, py_div_by_zero; [reflexivity | exact Hp].
Qed.

End AtRest.

(** The bunch of the scenario, at rest. *)
Lemma tracking_at_rest_divides_by_zero_witness :
  (forall (self : AccNode) (dBdr : Q),
     getFloat (acc_paramsDict self) "dB/dr" = Ok dBdr ->
     @Quad_track rest_kernel self (mkParamsDict 0 None) scenario_world
     = (Raise ZeroDivisionError, scenario_world)) /\
  (forall (horizontal : bool) (self : AccNode) (effLength field : Q),
     getFloat (acc_paramsDict self) "effLength" = Ok effLength ->
     acc_nParts self <> 0%Z ->
     getParam (acc_paramsDict self) "B" = Ok (PyFloat field) ->
     @DCorrector_track rest_kernel horizontal self (mkParamsDict 0 None) scenario_world
     = (Raise ZeroDivisionError, scenario_world)).
Proof.
  apply (@tracking_at_rest_divides_by_zero rest_kernel (mkParamsDict 0 None) scenario_world
           scenario_bunch).
  - vm_compute. reflexivity.
  - reflexivity.
Defined.

(** ** A thin element beyond the drift it is put at *)

Lemma addNode_holds (node : AccNode) (index : Z) (s : Sequence) :
  node ∈ linacNodes (Sequence_addNode node index s).
Proof.
  unfold Sequence_addNode, list_insert_at.
  destruct (index <? 0)%Z; cbn [linacNodes]; apply elem_of_app; right; left.
Qed.

(** X2. A thin element whose position lies beyond the drift that
    [__getDriftThinNode] has found for it, by [zeroDistance] or more,
    cuts this drift in two all the same: the second of the two drifts
    put into the sequence runs from the position back to the end of the
    drift found, and its length is negative. *)
Theorem thin_past_the_drift_cuts_a_negative_drift (node : nat * ParserNode) (f f' : Factory)
    (position pos : Q) (driftNode : AccNode) :
  getFloat (pn_paramsDict (snd node)) "pos" = Ok position ->
  getDriftThinNode position (seq_nodes f) = Ok (Some driftNode) ->
  node_pos driftNode = Ok pos ->
  0 <= acc_length driftNode ->
  pos + acc_length driftNode / 2 + zeroDistance <= position ->
  place_in_drift node f = (Ok tt, f') ->
  exists drift1,
    drift1 ∈ seq_nodes f' /\ cls drift1 = Drift_cls /\
    acc_length drift1 == pos + acc_length driftNode / 2 - position /\
    acc_length drift1 < 0.
Proof.
  intros Hposition Hfound Hpos HL Hpast Hrun. unfold place_in_drift in Hrun.
  bind_inv Hrun as position' s0 Hp. rewrite Hposition in Hp. injection Hp as <-.
  bind_inv Hrun as nodes s1 Hnodes.
  bind_inv Hrun as found s2 Hfound'.
  change (linacNodes (accSeq f)) with (seq_nodes f) in Hfound'.
  rewrite Hfound in Hfound'. injection Hfound' as <-.
  bind_inv Hrun as u f0 Hused. bind_inv Hrun as pos' s3 Hpos'.
  rewrite Hpos in Hpos'. injection Hpos' as <-.
  bind_inv Hrun as len s4 Hlen.
  change (getLength driftNode (-1)) with (Ok (acc_length driftNode)) in Hlen.
  injection Hlen as <-.
  bind_inv Hrun as nodes' s5 Hnodes'. bind_inv Hrun as ind s6 Hind.
  bind_inv Hrun as accNode f1 Hthin.
  assert (zeroDistance == 1 # 100000) as Hzero by reflexivity.
  destruct (Qlt_le_dec (Qabs (position - (pos - acc_length driftNode / 2))) zeroDistance)
    as [Hfront|_].
  { exfalso. pose proof (Qle_Qabs (position - (pos - acc_length driftNode / 2))) as Habs.
    revert Hfront Habs Hpast HL. generalize (Qabs (position - (pos - acc_length driftNode / 2))).
    generalize zeroDistance (acc_length driftNode). intros eps L d.
    assert (L / 2 == L * (1 # 2)) as -> by field. lra. }
  destruct (Qlt_le_dec (Qabs (position - (pos + acc_length driftNode / 2))) zeroDistance)
    as [Hback|_].
  { exfalso. pose proof (Qle_Qabs (position - (pos + acc_length driftNode / 2))) as Habs.
    revert Hback Habs Hpast HL. generalize (Qabs (position - (pos + acc_length driftNode / 2))).
    generalize zeroDistance (acc_length driftNode). intros eps L d.
    assert (L / 2 == L * (1 # 2)) as -> by field. lra. }
  bind_inv Hrun as drift0 f2 Hdrift0. bind_inv Hrun as drift1 f3 Hdrift1.
  bind_inv Hrun as f4 s7 Hget. bind_inv Hrun as rest s8 Hrest.
  bind_inv Hrun as u1 s9 Hput. bind_inv Hrun as u2 s10 Hadd0. bind_inv Hrun as u3 s11 Hadd1.
  inv_atom Hrun.
  match goal with
  | |- context [Sequence_addNode (the_drift ?g ?len ?c) (ind + 2) ?s] =>
      exists (the_drift g len c)
  end.
  split; [unfold seq_nodes; cbn [accSeq set_accSeq]; apply addNode_holds|].
  split; [reflexivity|].
  change (acc_length (the_drift _ ?len _)) with len.
  split; [reflexivity|].
  revert Hpast. rewrite Hzero. generalize (acc_length driftNode). intros L.
  assert (L / 2 == L * (1 # 2)) as -> by field. lra.
Qed.

(** The marker K of the example at 9.5, in the middle of the gap G1
    that lies from 9 to 10: the drift found for it is the one from 0 to
    9, and the nodes after the step are those of the lattice the factory
    returns. *)
Lemma thin_past_the_drift_cuts_a_negative_drift_witness :
  exists drift1,
    drift1 ∈ seq_nodes (snd (place_in_drift inside_marker inside_factory)) /\
    cls drift1 = Drift_cls /\
    acc_length drift1 == (180 # 40) + acc_length inside_drift / 2 - 9.5 /\
    acc_length drift1 < 0.
Proof.
  apply (thin_past_the_drift_cuts_a_negative_drift inside_marker inside_factory
           (snd (place_in_drift inside_marker inside_factory)) 9.5 (180 # 40) inside_drift).
  - vm_compute. reflexivity.
  - vm_compute. reflexivity.
  - vm_compute. reflexivity.
  - vm_compute. discriminate.
  - vm_compute. discriminate.
  - vm_compute. reflexivity.
Defined.

Example inside_factory_is_the_run :
  seq_nodes (snd (place_in_drift inside_marker inside_factory)) = lat_nodes inside_lattice.
Proof. vm_compute. reflexivity. Qed.

(** ** What [__getDriftThinNode] finds *)

Lemma list_get_lookup {A} (l : list A) (i : Z) (x : A) :
  list_get l i = Ok x -> (0 <= i)%Z /\ l !! Z.to_nat i = Some x.
Proof.
  unfold list_get. destruct (Z.ltb_spec i 0) as [|Hi]; [discriminate|].
  destruct (l !! Z.to_nat i) as [y|]; [|discriminate].
  intros [= ->]. split; [exact Hi | reflexivity].
Qed.

(** The loop keeps a node that starts before the position at
    [ind_start], unless [ind_start] is 0, and a node that does not at
    [ind_stop], unless [ind_stop] is the last index. *)
Lemma search_loop_brackets (position : Q) (nodes : list AccNode) (fuel : nat) :
  forall ind_start ind_stop j : Z,
    (ind_start = 0%Z \/
     exists n lead, list_get nodes ind_start = Ok n /\ leading_edge n = Ok lead /\
                    lead < position) ->
    (ind_stop = (Z.of_nat (List.length nodes) - 1)%Z \/
     (ind_start < ind_stop)%Z /\
     exists n lead, list_get nodes ind_stop = Ok n /\ leading_edge n = Ok lead /\
                    position <= lead) ->
    search_loop fuel position nodes ind_start ind_stop = Ok j ->
    (j = 0%Z \/
     exists n lead, list_get nodes j = Ok n /\ leading_edge n = Ok lead /\ lead < position) /\
    ((Z.of_nat (List.length nodes) <= j + 2)%Z \/
     exists n lead, list_get nodes (j + 1) = Ok n /\ leading_edge n = Ok lead /\
                    position <= lead).
Proof.
  induction fuel as [|fuel IH]; intros ind_start ind_stop j Hstart Hstop; cbn [search_loop];
    destruct (Z.ltb_spec 1 (ind_stop - ind_start)) as [Hlong|Hshort]; try discriminate.
  - intros [= <-]. split; [exact Hstart|].
    destruct Hstop as [->|[Hlt Hstop]]; [left; lia|].
    right. replace (ind_start + 1)%Z with ind_stop by lia. exact Hstop.
  - destruct (list_get nodes ((ind_stop + ind_start) / 2)) as [accNode|e] eqn:Hget;
      [|discriminate].
    destruct (leading_edge accNode) as [pos|e] eqn:Hedge; [|discriminate].
    assert (ind_start < (ind_stop + ind_start) / 2 < ind_stop)%Z as Hmid.
    { pose proof (Z.div_mod (ind_stop + ind_start) 2 ltac:(lia)) as Hdiv.
      pose proof (Z.mod_pos_bound (ind_stop + ind_start) 2 ltac:(lia)) as Hmod. lia. }
    destruct (Qlt_le_dec pos position) as [Hbefore|Hafter].
    + apply IH.
      * right. exists accNode, pos. split; [exact Hget|]. split; [exact Hedge | exact Hbefore].
      * destruct Hstop as [->|[_ Hstop]]; [left; reflexivity|].
        right. split; [lia | exact Hstop].
    + apply IH; [exact Hstart|].
      right. split; [lia|]. exists accNode, pos.
      split; [exact Hget|]. split; [exact Hedge | exact Hafter].
  - intros [= <-]. split; [exact Hstart|].
    destruct Hstop as [->|[Hlt Hstop]]; [left; lia|].
    right. replace (ind_start + 1)%Z with ind_stop by lia. exact Hstop.
Qed.

(** X20. The drift [__getDriftThinNode] returns is chosen by leading
    edges alone.  It is either the node the search ends at: then it
    starts before the position, unless it is the first node, and the
    node after it, unless that is the last node of the sequence, does
    not start before the position; or it is the last node, and does not
    start after the position.  Where the drift ends is not looked at. *)
Theorem getDriftThinNode_goes_by_leading_edges (position : Q) (nodes : list AccNode)
    (d : AccNode) :
  getDriftThinNode position nodes = Ok (Some d) ->
  cls d = Drift_cls /\
  exists j : nat,
    nodes !! j = Some d /\
    (((j = 0%nat \/ exists lead, leading_edge d = Ok lead /\ lead < position) /\
      ((List.length nodes <= j + 2)%nat \/
       exists next lead, nodes !! S j = Some next /\ leading_edge next = Ok lead /\
                         position <= lead))
     \/
     (S j = List.length nodes /\ exists lead, leading_edge d = Ok lead /\ lead <= position)).
Proof.
  intros Hfound. split; [exact (proj2 (getDriftThinNode_inv _ _ _ Hfound))|].
  unfold getDriftThinNode in Hfound.
  destruct (search_loop _ _ _ _ _) as [ind|e] eqn:Hloop; [|discriminate].
  apply search_loop_brackets in Hloop as [Hbefore Hafter]; [|left; reflexivity..].
  destruct (list_get nodes ind) as [found|e] eqn:Hget; [|discriminate].
  destruct (list_get_lookup _ _ _ Hget) as [Hind Hlookup].
  destruct (is_Drift found).
  - injection Hfound as <-. exists (Z.to_nat ind). split; [exact Hlookup|]. left. split.
    + destruct Hbefore as [->|(n & lead & Hn & Hlead & Hlt)]; [left; reflexivity|].
      right. injection Hn as <-. exists lead. split; assumption.
    + destruct Hafter as [Hlen|(n & lead & Hn & Hlead & Hle)]; [left; lia|].
      right. destruct (list_get_lookup _ _ _ Hn) as [_ Hnext].
      replace (Z.to_nat (ind + 1)) with (S (Z.to_nat ind)) in Hnext by lia.
      exists n, lead. split; [exact Hnext|]. split; assumption.
  - destruct (list_last nodes) as [accNode|e] eqn:Hlast; [|discriminate].
    destruct (is_Drift accNode); [|discriminate].
    destruct (leading_edge accNode) as [pos|e] eqn:Hedge; [|discriminate].
    destruct (Qle_bool pos position) eqn:Hle; [|discriminate].
    injection Hfound as <-.
    unfold list_last in Hlast. destruct nodes as [|a rest]; [discriminate|].
    destruct (list_get_last_split _ _ Hlast) as (prefix & Hsplit & _).
    exists (List.length prefix). split.
    + rewrite Hsplit. rewrite lookup_app_r by apply Nat.le_refl.
      rewrite Nat.sub_diag. reflexivity.
    + right. split; [rewrite Hsplit, length_app; simpl; lia|].
      exists pos. split; [exact Hedge|]. apply Qle_bool_iff. exact Hle.
Qed.

(** The marker K of the example at 9.5: the drift from 0 to 9 is found,
    the first node, and the node after it, the gap from 9 to 10, is the
    last node of the sequence. *)
Lemma getDriftThinNode_goes_by_leading_edges_witness :
  cls inside_drift = Drift_cls /\
  exists j : nat,
    seq_nodes inside_factory !! j = Some inside_drift /\
    (((j = 0%nat \/ exists lead, leading_edge inside_drift = Ok lead /\ lead < 9.5) /\
      ((List.length (seq_nodes inside_factory) <= j + 2)%nat \/
       exists next lead, seq_nodes inside_factory !! S j = Some next /\
                         leading_edge next = Ok lead /\ 9.5 <= lead))
     \/
     (S j = List.length (seq_nodes inside_factory) /\
      exists lead, leading_edge inside_drift = Ok lead /\ lead <= 9.5)).
Proof.
  apply (getDriftThinNode_goes_by_leading_edges 9.5 (seq_nodes inside_factory) inside_drift).
  vm_compute. reflexivity.
Defined.

(** ** The operational pass over a lattice *)

Lemma same_lattice_refl (w : World) : same_lattice w w.
Proof. reflexivity. Qed.

Lemma same_lattice_trans (w1 w2 w3 : World) :
  same_lattice w1 w2 -> same_lattice w2 w3 -> same_lattice w1 w3.
Proof. unfold same_lattice. intros H12 H23. rewrite H23. exact H12. Qed.

Lemma lattice_read_bunch (bunch : nat) : preserves same_lattice (read_bunch bunch).
Proof. intros w. rewrite read_bunch_state. reflexivity. Qed.

Lemma lattice_call0 (obj : pyval) (meth : string) : preserves same_lattice (call0 obj meth).
Proof. intros w. rewrite call0_state. reflexivity. Qed.

Lemma lattice_TPB (bunch : nat) (f : Bunch -> Bunch) : preserves same_lattice (TPB bunch f).
Proof. intros w. apply TPB_lattice. Qed.

Lemma lattice_no_frequency {B} (obj : pyval) (f : pyval -> M World B) :
  preserves same_lattice (call0 obj "frequency" ≫= f).
Proof. intros w. rewrite bind_unfold, no_frequency_method. reflexivity. Qed.

Ltac lattice_step :=
  first
    [ apply lattice_TPB
    | apply lattice_no_frequency
    | apply lattice_call0
    | apply lattice_read_bunch
    | apply (preserves_ret same_lattice same_lattice_refl)
    | apply (preserves_raise same_lattice same_lattice_refl)
    | apply (preserves_lift same_lattice same_lattice_refl)
    | apply (preserves_for_each same_lattice same_lattice_refl same_lattice_trans); intros ?
    | apply (preserves_bind same_lattice same_lattice_trans); [|intros ?]
    | match goal with
      | |- preserves _ (if ?b then _ else _) => destruct b
      | |- preserves _ (match ?x with _ => _ end) => destruct x
      end ].

Lemma for_each_raises {S A} (l : list A) (body : A -> M S unit) (x : A) :
  x ∈ l ->
  (forall s, exists e, fst (body x s) = Raise e) ->
  forall s, exists e, fst (for_each l body s) = Raise e.
Proof.
  intros Hin Hraise. induction l as [|a l IH]; intros s.
  - apply elem_of_nil in Hin. destruct Hin.
  - cbn [for_each]. rewrite bind_unfold.
    destruct (body a s) as [[u|e] s1] eqn:Hbody.
    + apply elem_of_cons in Hin as [->|Hin].
      * destruct (Hraise s) as [e He]. rewrite Hbody in He. discriminate He.
      * apply (IH Hin).
    + exists e. reflexivity.
Qed.

Lemma kick_part_is_visited (parent : option AccNode) (n : AccNode) :
  (2 <= acc_nParts n)%Z ->
  (T_Node (set_activePartIndex 1 n), parent) ∈ node_visits parent n.
Proof.
  intros Hparts. destruct n as [i c nm ty parts len arr idx pd fg tilt fringe kids].
  cbn [node_visits].
  apply elem_of_app. right. apply elem_of_app. left.
  apply list_elem_of_In, in_flat_map. exists 1%Z. split.
  - apply list_elem_of_In. unfold range. apply list_elem_of_fmap.
    exists 1%nat. split; [reflexivity|].
    apply elem_of_seq. cbn [acc_nParts] in Hparts |- *. lia.
  - left. reflexivity.
Qed.

Section OperationalPass.

Context `{K : TransportKernel}.

Lemma track_lattice (node : Trackable) (paramsDict : ParamsDict) :
  preserves same_lattice (track node paramsDict).
Proof.
  destruct node as [n|t|f]; simpl.
  - destruct (cls n);
      unfold Drift_track, Quad_track, DCorrector_track, BaseRF_Gap_track,
        BaseRF_Gap_drift_part, multipoles;
      repeat lattice_step.
  - unfold TiltElement_track. repeat lattice_step.
  - unfold FringeField_track, quad_fringe, multipoles. repeat lattice_step.
Qed.

(** X3. The operational pass over a lattice that holds an RF gap
    never completes: [trackBunch] raises an exception, at that gap if
    not before, whatever the bunch and the transport kernel are. *)
Theorem trackBunch_stops_at_an_RF_gap (bunch : nat) (w : World) (n : AccNode) :
  n ∈ lat_nodes (lattice w) ->
  cls n = BaseRF_Gap_cls ->
  (2 <= acc_nParts n)%Z ->
  exists e, fst (LinacAccLattice_trackBunch bunch w) = Raise e.
Proof.
  intros Hin Hcls Hparts. unfold LinacAccLattice_trackBunch. rewrite bind_unfold.
  pose proof (TPB_lattice bunch (with_time 0) w) as Hlat.
  change (TPB bunch (with_time 0)) with (syncPart_set_time bunch 0) in Hlat.
  destruct (syncPart_set_time bunch 0 w) as [[u|e] w1]; [|exists e; reflexivity].
  cbn [snd] in Hlat. unfold trackActions. rewrite bind_unfold, get_unfold.
  apply (for_each_raises _ _ (T_Node (set_activePartIndex 1 n), None)).
  - apply list_elem_of_In, in_flat_map. exists n. split.
    + apply list_elem_of_In. rewrite Hlat. exact Hin.
    + apply list_elem_of_In, kick_part_is_visited. exact Hparts.
  - intros s. cbn [fst snd track].
    change (cls (set_activePartIndex 1 n)) with (cls n). rewrite Hcls.
    destruct (BaseRF_Gap_track_kick_raises (set_activePartIndex 1 n)
                (mkParamsDict bunch None) s eq_refl) as [e He].
    exists e. rewrite He. reflexivity.
Qed.

Lemma LinacAccLattice_trackBunch_lattice (bunch : nat) :
  preserves same_lattice (LinacAccLattice_trackBunch bunch).
Proof.
  unfold LinacAccLattice_trackBunch, syncPart_set_time, trackActions.
  apply (preserves_bind same_lattice same_lattice_trans); [apply lattice_TPB|]. intros _.
  apply (preserves_bind same_lattice same_lattice_trans);
    [apply (preserves_get same_lattice same_lattice_refl)|]. intros w0.
  apply (preserves_for_each same_lattice same_lattice_refl same_lattice_trans).
  intros v. apply track_lattice.
Qed.

(** X19. The operational pass changes no RF cavity and no parameter
    bag, whether it completes or raises: after it the cavities of the
    lattice, with their names, parameters and gaps, are as before, and
    every node of the lattice has the name and the parameters it had.
    In particular [trackBunch] gives no cavity a first-gap time or a
    phase. *)
Theorem trackBunch_leaves_the_cavities (bunch : nat) (w : World) :
  let w' := snd (LinacAccLattice_trackBunch bunch w) in
  rfCavities (lattice w') = rfCavities (lattice w) /\
  (fun n => (acc_name n, acc_paramsDict n)) <$> lat_nodes (lattice w')
  = (fun n => (acc_name n, acc_paramsDict n)) <$> lat_nodes (lattice w).
Proof.
  intros w'. pose proof (LinacAccLattice_trackBunch_lattice bunch w) as Hlattice.
  unfold same_lattice in Hlattice. fold w' in Hlattice. rewrite Hlattice.
  split; reflexivity.
Qed.

End OperationalPass.

(** The lattice of the scenario, with its gap G1. *)
Lemma trackBunch_stops_at_an_RF_gap_witness :
  exists e, fst (@LinacAccLattice_trackBunch still_kernel 0 scenario_world) = Raise e.
Proof.
  apply (@trackBunch_stops_at_an_RF_gap still_kernel 0%nat scenario_world scenario_gap).
  - apply (list_elem_of_lookup_2 _ 2%nat). vm_compute. reflexivity.
  - vm_compute. reflexivity.
  - vm_compute. discriminate.
Defined.

(** ** The design flag of the cavities the factory makes *)

Lemma make_rf_gap_no_reference (seq : ParserSeq) (node : ParserNode) (f f' : Factory) :
  make_rf_gap seq node f = (Ok tt, f') ->
  Forall no_design_reference (accRF_Cavs f) -> Forall no_design_reference (accRF_Cavs f').
Proof.
  intros Hrun Hall.
  destruct (make_rf_gap_run _ _ _ _ Hrun) as (name & gap & _ & _ & _ & Hcases).
  destruct Hcases as [(_ & _ & prefix & cav & Hcavs & -> & _)
                     |(_ & _ & firstPhase & rfFrequency & _ & _ & -> & _)].
  - rewrite Hcavs in Hall. apply Forall_app in Hall as [Hprefix Hcav].
    apply Forall_app. split; [exact Hprefix|].
    apply Forall_cons in Hcav as [Hcav _]. constructor; [exact Hcav | constructor].
  - apply Forall_app. split; [exact Hall|]. constructor; [|constructor].
    unfold no_design_reference, setParam. cbn [cav_paramsDict].
    rewrite !lookup_insert_ne by discriminate. reflexivity.
Qed.

Lemma classify_no_reference (seq : ParserSeq) (i : nat) (node : ParserNode) (f f' : Factory) :
  classify seq i node f = (Ok tt, f') ->
  Forall no_design_reference (accRF_Cavs f) -> Forall no_design_reference (accRF_Cavs f').
Proof.
  intros Hrun Hall. unfold classify in Hrun.
  bind_inv Hrun as pos s0 Hpos. bind_inv Hrun as type s1 Htype.
  destruct (String.eqb type "QUAD").
  { destruct (make_quad_cavities _ _ _ Hrun) as [_ ->]. exact Hall. }
  destruct (String.eqb type "RFGAP").
  { exact (make_rf_gap_no_reference _ _ _ _ Hrun Hall). }
  bind_inv Hrun as length s2 Hlength. bind_inv Hrun as u f1 Hstrange. inv_atom Hrun.
  assert (f1 = f) as ->.
  { destruct (py_ne_zero length); [apply raise_Ok_inv in Hstrange; destruct Hstrange|].
    apply ret_Ok_inv in Hstrange as [_ ->]. reflexivity. }
  exact Hall.
Qed.

Lemma build_sequence_no_reference (seqPosition next : Q) (seq : ParserSeq) (f f' : Factory) :
  build_sequence seqPosition seq f = (Ok next, f') ->
  Forall no_design_reference (accRF_Cavs f) -> Forall no_design_reference (accRF_Cavs f').
Proof.
  intros Hrun Hall. unfold build_sequence in Hrun.
  bind_inv Hrun as length s0 Hlength. bind_inv Hrun as u0 s1 Hseq.
  bind_inv Hrun as u1 s2 Hnames. bind_inv Hrun as u2 s3 Hthin.
  bind_inv Hrun as u3 f1 Hclassify. destruct u3.
  bind_inv Hrun as u4 f2 Hdrifts. destruct u4.
  bind_inv Hrun as u5 f3 Hquads. destruct u5.
  bind_inv Hrun as u6 f4 Hplaced. destruct u6.
  bind_inv Hrun as u7 f5 Hassemble. destruct u7.
  apply ret_Ok_inv in Hrun as [_ ->].
  match type of Hclassify with
  | for_each _ _ ?g = _ => set (f0 := g) in *
  end.
  assert (distinct_oids f0) as Hdist0 by (split; constructor).
  assert (Forall (fun n => is_thin n = false) (seq_nodes f0)) as Hthick0 by constructor.
  destruct (classify_loop _ _ _ _ Hclassify Hdist0 Hthick0) as (Hdist1 & Hthick1 & Hsame1).
  destruct (insert_drifts_inv _ _ Hdrifts Hdist1 Hthick1)
    as (L & HL & Htiles & Hthick2 & Hdist2 & Hsame2).
  assert (tiled L f2) as Htiled2.
  { split; [rewrite (same_sequence_length f1 f2 Hsame2); exact HL|].
    split; [exact Hdist2|]. rewrite (thick_all _ Hthick2). exact Htiles. }
  pose proof (place_in_quads_inv _ _ Hquads) as Hgeo3.
  pose proof (tiled_geometry L f2 f3 Hgeo3 Htiled2) as Htiled3.
  destruct (insert_drifts_elements _ _ Hdrifts) as (_ & _ & Hcavs2).
  destruct (place_in_quads_elements _ _ Hquads) as (_ & _ & Hcavs3).
  destruct (place_in_drifts_elements L _ _ Hplaced Htiled3) as (_ & _ & Hcavs4).
  destruct (assemble_frame _ _ Hassemble) as (Hcavs5 & _).
  rewrite Hcavs5, Hcavs4, Hcavs3, Hcavs2.
  refine (for_each_invariant (fun s => Forall no_design_reference (accRF_Cavs s))
            _ _ _ f0 f1 Hall Hclassify).
  intros node s s' _ Hs Hstep. exact (classify_no_reference _ _ _ _ _ Hstep Hs).
Qed.

Lemma build_sequences_no_reference (seqs : list ParserSeq) :
  forall (seqPosition : Q) (f f' : Factory),
    build_sequences seqPosition seqs f = (Ok tt, f') ->
    Forall no_design_reference (accRF_Cavs f) -> Forall no_design_reference (accRF_Cavs f').
Proof.
  induction seqs as [|seq rest IH]; intros seqPosition f f' Hrun Hall;
    cbn [build_sequences] in Hrun.
  - apply ret_Ok_inv in Hrun as [_ ->]. exact Hall.
  - bind_inv Hrun as next f1 Hseq.
    exact (IH _ _ _ Hrun (build_sequence_no_reference _ _ _ _ _ Hseq Hall)).
Qed.

Lemma getLinacAccLattice_no_reference (ltree : LinacStructTree) (names : list string)
    (lat : LinacAccLattice) :
  getLinacAccLattice ltree names = Ok lat -> Forall no_design_reference (rfCavities lat).
Proof.
  intros Hrun. unfold getLinacAccLattice in Hrun.
  destruct names as [|name0 names]; [discriminate|].
  destruct (check_names _ _ _ _) as [[]|e]; [|discriminate].
  destruct (index_name name0 _) as [ind_start|e]; [|discriminate].
  destruct (build_sequences _ _ _) as [[[]|e] f] eqn:Hbuild; [|discriminate].
  injection Hrun as <-. rewrite addRF_Cavities_cavities.
  pose proof (build_sequences_frame _ _ _ _ Hbuild) as (new & _ & _ & Hrf & _).
  rewrite Hrf. cbn [linacAccLattice rfCavities LinacAccLattice_init app].
  refine (build_sequences_no_reference _ _ _ _ Hbuild _). constructor.
Qed.

Lemma same_lattice_flags {A} (m : M World A) :
  preserves same_lattice m -> preserves same_design_flags m.
Proof. intros Hm w c. unfold design_flag. rewrite (Hm w). reflexivity. Qed.

Section DesignFlags.

Context `{K : TransportKernel}.

Lemma trackDesignBunch_flags (node : Trackable) (paramsDict : ParamsDict) :
  preserves same_design_flags (trackDesignBunch node paramsDict).
Proof.
  destruct node as [n|t|f]; try (apply same_lattice_flags, track_lattice).
  unfold trackDesignBunch. destruct (cls n);
    try (apply same_lattice_flags; apply (track_lattice (T_Node n))).
  apply BaseRF_Gap_trackDesignBunch_flags.
Qed.

Lemma LinacAccLattice_trackDesignBunch_flags (bunch_in : nat) :
  preserves same_design_flags (LinacAccLattice_trackDesignBunch bunch_in).
Proof.
  unfold LinacAccLattice_trackDesignBunch, new_bunch, syncPart_set_time, trackActions.
  apply (preserves_bind same_design_flags same_design_flags_trans).
  { intros w c. reflexivity. }
  intros bunch.
  apply (preserves_bind same_design_flags same_design_flags_trans); [apply flags_read_bunch|].
  intros src.
  apply (preserves_bind same_design_flags same_design_flags_trans); [apply flags_TPB|].
  intros _.
  apply (preserves_bind same_design_flags same_design_flags_trans); [apply flags_TPB|].
  intros _.
  apply (preserves_bind same_design_flags same_design_flags_trans);
    [apply (preserves_get same_design_flags same_design_flags_refl)|].
  intros w0.
  apply (preserves_for_each same_design_flags same_design_flags_refl same_design_flags_trans).
  intros v. apply trackDesignBunch_flags.
Qed.

(** X21. No cavity of a lattice the factory returns has a design
    reference, and none gets one: the flag "isDesignSetUp" of each of
    them is False when the lattice is returned, False after the design
    pass over the lattice, and False after the operational pass that
    follows it. *)
Theorem factory_cavities_get_no_design_reference (ltree : LinacStructTree)
    (names : list string) (lat : LinacAccLattice) (store : gmap nat Bunch)
    (bunch_in c : nat) :
  getLinacAccLattice ltree names = Ok lat ->
  (c < List.length (rfCavities lat))%nat ->
  let design := snd (LinacAccLattice_trackDesignBunch bunch_in (mkWorld store lat)) in
  let operational := snd (LinacAccLattice_trackBunch bunch_in design) in
  design_flag (mkWorld store lat) c = Some (PyBool false) /\
  design_flag design c = Some (PyBool false) /\
  design_flag operational c = Some (PyBool false).
Proof.
  intros Hrun Hc design operational.
  assert (design_flag (mkWorld store lat) c = Some (PyBool false)) as Hflag.
  { pose proof (getLinacAccLattice_no_reference _ _ _ Hrun) as Hall.
    destruct (lookup_lt_is_Some_2 _ _ Hc) as [cav Hcav].
    unfold design_flag. cbn [lattice]. rewrite Hcav. cbn [mbind option_bind].
    exact (proj1 (Forall_lookup _ _) Hall c cav Hcav). }
  assert (design_flag design c = Some (PyBool false)) as Hdesign.
  { unfold design. rewrite (LinacAccLattice_trackDesignBunch_flags bunch_in _ c). exact Hflag. }
  split; [exact Hflag|]. split; [exact Hdesign|].
  pose proof (LinacAccLattice_trackBunch_lattice bunch_in design) as Hlattice.
  unfold same_lattice in Hlattice. fold operational in Hlattice.
  unfold design_flag. rewrite Hlattice. exact Hdesign.
Qed.

End DesignFlags.

(** The lattice of the scenario and its cavity "C1". *)
Lemma factory_cavities_get_no_design_reference_witness :
  let design := snd (@LinacAccLattice_trackDesignBunch still_kernel 0
                       (mkWorld {[ 0%nat := scenario_bunch ]} scenario_lattice)) in
  let operational := snd (@LinacAccLattice_trackBunch still_kernel 0 design) in
  design_flag (mkWorld {[ 0%nat := scenario_bunch ]} scenario_lattice) 0 = Some (PyBool false) /\
  design_flag design 0 = Some (PyBool false) /\
  design_flag operational 0 = Some (PyBool false).
Proof.
  apply (@factory_cavities_get_no_design_reference still_kernel scenario_tree ["SEQ"%string]
           scenario_lattice {[ 0%nat := scenario_bunch ]} 0%nat 0%nat).
  - vm_compute. reflexivity.
  - vm_compute. lia.
Defined.

(** ** The lengths along a sequence *)

Lemma getLinacAccLattice_tiled (ltree : LinacStructTree) (names : list string)
    (lat : LinacAccLattice) :
  getLinacAccLattice ltree names = Ok lat -> Forall tiled_sequence (sequences lat).
Proof.
  intros Hrun. unfold getLinacAccLattice in Hrun.
  destruct names as [|name0 names]; [discriminate|].
  destruct (check_names _ _ _ _) as [_|e]; [|discriminate].
  destruct (index_name name0 _) as [ind_start|e]; [|discriminate].
  destruct (build_sequences _ _ _) as [[[]|e] f] eqn:Hbuild; [|discriminate].
  injection Hrun as <-. rewrite addRF_Cavities_sequences.
  apply (build_sequences_inv _ _ _ _ Hbuild). constructor.
Qed.

Lemma edges_apart (n : AccNode) (lead trail : Q) :
  leading_edge n = Ok lead -> trailing_edge n = Ok trail -> trail - lead == acc_length n.
Proof.
  intros Hlead Htrail.
  apply leading_edge_pos in Hlead as (pos & Hpos & ->).
  apply trailing_edge_pos in Htrail as (pos' & Hpos' & ->).
  rewrite Hpos in Hpos'. injection Hpos' as <-. field.
Qed.

(** Nodes that lead from [from] to [to] have lengths that add up to
    the distance, but for [eps] at every joint. *)
Lemma chained_lengths (eps : Q) (nodes : list AccNode) :
  forall from to : Q,
    chained eps from nodes to ->
    Qabs (sum_Q (acc_length <$> nodes) - (to - from))
    <= (inject_Z (Z.of_nat (List.length nodes)) + 1) * eps.
Proof.
  induction nodes as [|n rest IH]; intros from to Hchain; cbn [chained] in Hchain.
  - cbn [fmap list_fmap sum_Q fold_right List.length].
    apply Qabs_Qle_condition in Hchain. apply Qabs_Qle_condition.
    change (inject_Z (Z.of_nat 0)) with 0. lra.
  - destruct Hchain as (lead & trail & Hlead & Htrail & Hjoint & Hrest).
    pose proof (edges_apart n lead trail Hlead Htrail) as Hlength.
    specialize (IH trail to Hrest).
    cbn [fmap list_fmap sum_Q fold_right List.length].
    change (fold_right Qplus 0 (acc_length <$> rest)) with (sum_Q (acc_length <$> rest)).
    rewrite Nat2Z.inj_succ. unfold Z.succ. rewrite inject_Z_plus.
    change (inject_Z 1) with 1.
    apply Qabs_Qle_condition in Hjoint. apply Qabs_Qle_condition in IH.
    apply Qabs_Qle_condition.
    revert Hjoint IH Hlength.
    generalize (sum_Q (acc_length <$> rest)) (inject_Z (Z.of_nat (List.length rest)))
      (acc_length n).
    intros total k L Hjoint IH Hlength. nra.
Qed.

(** X22. In every sequence of a lattice the factory returns, the
    lengths of the quads, RF gaps and drifts add up to the length of
    the sequence, but for [zeroDistance] at each of the joints: with
    [n] such nodes the sum is within [(n + 1) * zeroDistance] of the
    length.  The drifts of negative length count with their sign. *)
Theorem sequence_lengths_add_up (ltree : LinacStructTree) (names : list string)
    (lat : LinacAccLattice) :
  getLinacAccLattice ltree names = Ok lat ->
  Forall (fun seq =>
            exists L, Sequence_getLength seq = Ok L /\
                      Qabs (sum_Q (acc_length <$> thick (linacNodes seq)) - L)
                      <= (inject_Z (Z.of_nat (List.length (thick (linacNodes seq)))) + 1)
                         * zeroDistance)
         (sequences lat).
Proof.
  intros Hrun. apply getLinacAccLattice_tiled in Hrun.
  eapply Forall_impl; [exact Hrun|].
  intros seq (L & HL & _ & Hchain). exists L. split; [exact HL|].
  apply chained_lengths in Hchain. revert Hchain.
  generalize (sum_Q (acc_length <$> thick (linacNodes seq)))
    ((inject_Z (Z.of_nat (List.length (thick (linacNodes seq)))) + 1) * zeroDistance).
  intros total bound Hchain.
  apply Qabs_Qle_condition in Hchain. apply Qabs_Qle_condition. lra.
Qed.

Lemma sequence_lengths_add_up_witness :
  Forall (fun seq =>
            exists L, Sequence_getLength seq = Ok L /\
                      Qabs (sum_Q (acc_length <$> thick (linacNodes seq)) - L)
                      <= (inject_Z (Z.of_nat (List.length (thick (linacNodes seq)))) + 1)
                         * zeroDistance)
         (sequences linac_lattice).
Proof.
  apply (sequence_lengths_add_up linac_tree ["DTL"; "CCL"]%string linac_lattice).
  vm_compute. reflexivity.
Defined.

(** ** The quads and RF gaps along a sequence *)

Lemma within_apart (nodes : list AccNode) :
  forall from to : Q,
    within from nodes to ->
    Forall (fun n => 0 <= acc_length n) nodes ->
    apart from nodes to.
Proof.
  induction nodes as [|n rest IH]; intros from to Hwithin Hlengths; cbn [within apart] in *.
  - exact Hwithin.
  - destruct Hwithin as (lead & trail & Hlead & Htrail & Hfrom & Hrest).
    apply Forall_cons in Hlengths as [Hn Hlengths].
    exists lead, trail. split; [exact Hlead|]. split; [exact Htrail|].
    split; [exact Hfrom|]. split; [|exact (IH trail to Hrest Hlengths)].
    pose proof (edges_apart n lead trail Hlead Htrail) as Hlength.
    revert Hn Hlength. generalize (acc_length n). intros L Hn Hlength. lra.
Qed.

(** X8. If no parsed quad or RF gap has a negative length, then in
    each sequence of the returned lattice the quads and RF gaps do not
    overlap and lie in the sequence: the first begins at
    [-zeroDistance] or later, none ends before it begins, each other one
    begins at the trailing edge of the one before it or later, and the
    last ends at the length of the sequence plus [zeroDistance] or
    before.  (The sign of a length is not tested by the factory.) *)
Theorem quads_and_gaps_do_not_overlap (ltree : LinacStructTree) (names : list string)
    (lat : LinacAccLattice) :
  getLinacAccLattice ltree names = Ok lat ->
  Forall (fun p => Forall (fun element => 0 <= snd element)
                          (omap parsed_element (ps_nodes p)))
         (selected ltree names) ->
  Forall (fun s => exists L, Sequence_getLength s = Ok L /\
                             apart (- zeroDistance) (elements (linacNodes s)) (L + zeroDistance))
         (sequences lat).
Proof.
  intros Hrun Hlengths.
  destruct (getLinacAccLattice_frame _ _ _ Hrun) as (_ & Hall & _ & _ & _).
  induction Hall as [|s p ss ps Hsp _ IH].
  - constructor.
  - apply Forall_cons in Hlengths as [Hp Hlengths]. constructor; [|exact (IH Hlengths)].
    destruct Hsp as (_ & _ & Hout & (L & HL & Hwithin) & _).
    exists L. split; [exact HL|]. apply within_apart; [exact Hwithin|].
    apply Forall_forall. intros n Hn. rewrite Forall_forall in Hp.
    apply (Hp (outline n)). rewrite <- Hout.
    apply list_elem_of_fmap. exists n. split; [reflexivity | exact Hn].
Qed.

Lemma lengths_checked (seqs : list ParserSeq) :
  forallb (fun p => forallb (fun element => Qle_bool 0 (snd element))
                      (omap parsed_element (ps_nodes p))) seqs = true ->
  Forall (fun p => Forall (fun element => 0 <= snd element)
                          (omap parsed_element (ps_nodes p))) seqs.
Proof.
  intros Hcheck. apply Forall_forall. intros p Hp. apply Forall_forall. intros element He.
  apply Qle_bool_iff.
  apply list_elem_of_In in Hp, He.
  exact (proj1 (forallb_forall _ _) (proj1 (forallb_forall _ _) Hcheck p Hp) element He).
Qed.

Lemma quads_and_gaps_do_not_overlap_witness :
  Forall (fun s => exists L, Sequence_getLength s = Ok L /\
                             apart (- zeroDistance) (elements (linacNodes s)) (L + zeroDistance))
         (sequences linac_lattice).
Proof.
  apply (quads_and_gaps_do_not_overlap linac_tree ["DTL"; "CCL"]%string linac_lattice).
  - vm_compute. reflexivity.
  - apply lengths_checked. vm_compute. reflexivity.
Defined.

(** ** What the factory asks of the parsed elements *)

Lemma accepted_taken (node : ParserNode) : accepted node -> taken node.
Proof.
  intros (pos & type & Hpos & Htype & Hkind). unfold pn_float in Hpos.
  destruct (getParam (pn_paramsDict node) "pos") as [v|e] eqn:Hv; [|discriminate].
  exists v, type. split; [exact Hv|]. split; [|split; assumption].
  destruct v; try exact I; discriminate Hpos.
Qed.

Lemma parsed_element_thick (node : ParserNode) (element : string * result Q * Q) :
  parsed_element node = Some element -> thick_element node.
Proof.
  unfold parsed_element, thick_element.
  destruct (pn_getType node) as [type|e]; [|discriminate].
  destruct (pn_float node "pos"); [|discriminate].
  destruct (String.eqb_spec type "QUAD") as [->|_]; [intros _; left; reflexivity|].
  destruct (String.eqb_spec type "RFGAP") as [->|_]; [intros _; right; reflexivity|].
  discriminate.
Qed.

Lemma parsed_elements_thick (nodes : list ParserNode) :
  omap parsed_element nodes <> [] -> Exists thick_element nodes.
Proof.
  induction nodes as [|node rest IH]; cbn [omap list_omap]; [intros H; destruct (H eq_refl)|].
  destruct (parsed_element node) as [element|] eqn:Helement.
  - intros _. apply Exists_cons_hd. exact (parsed_element_thick _ _ Helement).
  - intros Hrest. apply Exists_cons_tl. exact (IH Hrest).
Qed.

(** X9. The factory returns a lattice only if, in every parsed sequence
    it works on, each element has a position that is a number, a bool
    or a string and is a "QUAD", an "RFGAP" or an element whose length
    equals zero, and at least one element is a "QUAD" or an "RFGAP". *)
Theorem returned_lattice_means_taken_elements (ltree : LinacStructTree)
    (names : list string) (lat : LinacAccLattice) :
  getLinacAccLattice ltree names = Ok lat ->
  Forall (fun p => Forall taken (ps_nodes p) /\ Exists thick_element (ps_nodes p))
         (selected ltree names).
Proof.
  intros Hrun. destruct (getLinacAccLattice_frame _ _ _ Hrun) as (_ & Hall & _ & _ & _).
  induction Hall as [|s p ss ps Hsp _ IH]; constructor; [|exact IH].
  destruct Hsp as (_ & _ & _ & _ & Hacc & Hne). split.
  - eapply Forall_impl; [exact Hacc|]. exact accepted_taken.
  - exact (parsed_elements_thick _ Hne).
Qed.

Lemma returned_lattice_means_taken_elements_witness :
  Forall (fun p => Forall taken (ps_nodes p) /\ Exists thick_element (ps_nodes p))
         (selected linac_tree ["DTL"; "CCL"]%string).
Proof.
  apply (returned_lattice_means_taken_elements linac_tree ["DTL"; "CCL"]%string linac_lattice).
  vm_compute. reflexivity.
Defined.

(** A position written as a string is read by [float]: the quad of the
    scenario with the position "1.0" gives the nodes of the scenario. *)
Example position_as_a_string :
  returned_extents
    (one_sequence
       [mkParserNode "Q1" (<["pos" := PyStr "1.0"]> (pn_paramsDict (parsed_quad "Q1" 1 2 3)));
        parsed_gap "G1" "C1" 5 0; parsed_marker "M1" 1])
    ["SEQ"%string]
  = returned_extents scenario_tree ["SEQ"%string].
Proof. vm_compute. reflexivity. Qed.

(** ** A thin element in the last RF gap *)

(** C3, at a failing input.  In the sequence of length 10 with the RF
    gap G1 from 9 to 10 and the marker K at 9.5, in the middle of the
    gap, [__getDriftThinNode] finds the drift from 0 to 9 for the
    marker, a drift that ends before the position: the last node of the
    sequence is never compared.  The drift is cut at 9.5 all the same,
    and the lattice is returned with a drift from 0 to 9.5, which
    overlaps the gap, the marker, and a second drift of the length -0.5
    from 9.5 back to 9.  With the same gap from 4 to 5 and a quad after
    it, the marker at 4.5 finds no drift and is left out, and the nodes
    tile the sequence. *)
Theorem thin_element_in_the_last_gap_overlaps :
  returned_extents inside_tree ["SEQ"%string]
  = Some [("SEQ:drift", Some 0, Some (19 # 2), 19 # 2);
          ("K", Some (19 # 2), Some (19 # 2), 0);
          ("SEQ:drift", Some (19 # 2), Some 9, -1 # 2);
          ("G1", Some 9, Some 10, 1)]%string /\
  getDriftThinNode 9.5 (seq_nodes inside_factory) = Ok (Some inside_drift) /\
  extent inside_drift = ("SEQ:drift"%string, Some 0, Some 9, 9) /\
  returned_extents between_tree ["SEQ"%string]
  = Some [("SEQ:drift", Some 0, Some 4, 4); ("G1", Some 4, Some 5, 1);
          ("SEQ:drift", Some 5, Some 7, 2); ("Q1", Some 7, Some 9, 2);
          ("SEQ:drift", Some 9, Some 10, 1)]%string.
Proof.
  split; [vm_compute; reflexivity|]. split; [vm_compute; reflexivity|].
  split; vm_compute; reflexivity.
Qed.

(** ** The part lengths of a quad in doubles *)








